(** * Tor-Enabled-Web-Crawler: the crawl engine and its URL helpers

    A shallow embedding of [src/Tor-Enabled-Web-Crawler.py].

    - A [string] stands for a Python [str] whose characters are code
      points below [U+0100], one [ascii] per character; lengths and
      slices count characters.  [PyStr] holds the operations of [str]
      that the crawler and [urllib.parse] use, with the case mapping
      and the white space of that range.
    - [UrllibParse]: [urlsplit], [urlparse], [urlunsplit], [urlunparse]
      and [urldefrag] of CPython 3.11's [urllib.parse], which
      [normalize_url], [get_domain], [save_html] and [extract_links]
      call.  These functions give the value that the library returns.
      [urlsplit] raises [ValueError] for some netlocs with square
      brackets: [UrllibErrors.netloc_error] says for which, and the
      module [Py] holds the helper functions as partial functions,
      [None] where the call raises.
    - the functions of the source file, under their own names.  The
      HTTP session, the robots.txt reader, BeautifulSoup, [urljoin] and
      the iteration order of sets are parameters (a [world]); console
      logging is not modelled; every effect of [crawl] (CSV rows, saved
      files, requests, sleeps, progress-bar ticks, set and queue
      updates) is recorded in a trace of events in program order.
    - [step] is a turn of the loop that runs to its end.  An exception
      that [crawl] does not catch ends the run inside a turn; the
      effects of such a run are a prefix of the trace ([interrupted]).
    - [main] and the Tor checks, with the exits and the uncaught
      exceptions of the commands they run. *)

From Stdlib Require Import ZArith QArith Ascii Lia.
From stdpp Require Import base gmap strings list.

(** ** Python [str] operations *)

Module PyStr.

Definition char_in (lo hi : nat) (c : ascii) : bool :=
  (lo <=? nat_of_ascii c)%nat && (nat_of_ascii c <=? hi)%nat.

Definition is_upper (c : ascii) : bool := char_in 65 90 c.
Definition is_lower (c : ascii) : bool := char_in 97 122 c.
Definition is_digit (c : ascii) : bool := char_in 48 57 c.

(** [c.isascii() and c.isalpha()] *)
Definition is_ascii_alpha (c : ascii) : bool := is_upper c || is_lower c.

(** the upper-case letters of the Latin-1 range: [U+00C0] to [U+00DE]
    without the multiplication sign [U+00D7] *)
Definition is_latin1_upper (c : ascii) : bool :=
  char_in 192 214 c || char_in 216 222 c.

(** [c.lower()]: below [U+0100] the upper-case letters are the ASCII
    ones and the Latin-1 ones, each 32 below its lower-case letter *)
Definition lower_char (c : ascii) : ascii :=
  if is_upper c || is_latin1_upper c
  then ascii_of_nat (nat_of_ascii c + 32) else c.

(** [s.lower()] *)
Fixpoint lower (s : string) : string :=
  match s with
  | "" => ""
  | String c s' => String (lower_char c) (lower s')
  end.

(** [all(p(c) for c in s)] *)
Fixpoint all_chars (p : ascii → bool) (s : string) : bool :=
  match s with
  | "" => true
  | String c s' => p c && all_chars p s'
  end.

(** [c in s] for a single character [c] *)
Fixpoint contains (c : ascii) (s : string) : bool :=
  match s with
  | "" => false
  | String d s' => Ascii.eqb d c || contains c s'
  end.

(** [s.partition(c)] when [c in s]: the text before the first [c] and
    the text after it.  With [i = s.find(c)], these are [s[:i]] and
    [s[i+1:]]; they are also the two items of [s.split(c, 1)]. *)
Fixpoint partition (c : ascii) (s : string) : option (string * string) :=
  match s with
  | "" => None
  | String d s' =>
      if Ascii.eqb d c then Some ("", s')
      else match partition c s' with
           | Some (a, b) => Some (String d a, b)
           | None => None
           end
  end.

(** [s.rpartition(c)] when [c in s]: the text up to and including the
    last [c], and the text after it. *)
Fixpoint rsplit_keep (c : ascii) (s : string) : option (string * string) :=
  match s with
  | "" => None
  | String d s' =>
      match rsplit_keep c s' with
      | Some (a, b) => Some (String d a, b)
      | None => if Ascii.eqb d c then Some (String d "", s') else None
      end
  end.

(** the longest prefix without a character satisfying [p], and the rest *)
Fixpoint span_until (p : ascii → bool) (s : string) : string * string :=
  match s with
  | "" => ("", "")
  | String d s' =>
      if p d then ("", s)
      else let '(a, b) := span_until p s' in (String d a, b)
  end.

(** [s.lstrip(chars)] *)
Fixpoint lstrip (p : ascii → bool) (s : string) : string :=
  match s with
  | "" => ""
  | String d s' => if p d then lstrip p s' else s
  end.

(** [s.rstrip(chars)] *)
Fixpoint rstrip (p : ascii → bool) (s : string) : string :=
  match s with
  | "" => ""
  | String d s' =>
      match rstrip p s' with
      | "" => if p d then "" else String d ""
      | r => String d r
      end
  end.

(** the characters below [U+0100] for which [str.isspace()] holds:
    the ASCII ones, [U+0085] and [U+00A0] *)
Definition is_space (c : ascii) : bool :=
  char_in 9 13 c || char_in 28 32 c || char_in 133 133 c || char_in 160 160 c.

(** [s.strip()] *)
Definition strip (s : string) : string := rstrip is_space (lstrip is_space s).

(** removes every character satisfying [p]:
    [s.replace(b, "")] for each single character [b] with [p b] *)
Fixpoint remove_chars (p : ascii → bool) (s : string) : string :=
  match s with
  | "" => ""
  | String d s' => if p d then remove_chars p s' else String d (remove_chars p s')
  end.

(** [s.replace(a, b)] for single characters *)
Fixpoint replace_char (a b : ascii) (s : string) : string :=
  match s with
  | "" => ""
  | String d s' => String (if Ascii.eqb d a then b else d) (replace_char a b s')
  end.

(** [s[:n]] *)
Fixpoint take (n : nat) (s : string) : string :=
  match n, s with
  | S n', String d s' => String d (take n' s')
  | _, _ => ""
  end.

(** [s[n:]] *)
Fixpoint drop (n : nat) (s : string) : string :=
  match n, s with
  | S n', String _ s' => drop n' s'
  | _, _ => s
  end.

(** [s.startswith(p)] *)
Definition startswith (s p : string) : bool := String.prefix p s.

(** [s.endswith(suffix)] *)
Fixpoint endswith (s suffix : string) : bool :=
  String.eqb s suffix ||
  match s with
  | "" => false
  | String _ s' => endswith s' suffix
  end.

(** [needle in hay] *)
Fixpoint str_in (needle hay : string) : bool :=
  String.prefix needle hay ||
  match hay with
  | "" => false
  | String _ hay' => str_in needle hay'
  end.

(** [s in (l1, l2, ...)] *)
Definition one_of (s : string) (l : list string) : bool :=
  existsb (String.eqb s) l.

(** Python truthiness of a [str] *)
Definition nonempty (s : string) : bool := negb (String.eqb s "").

(** [a or b] on strings *)
Definition or_else (a b : string) : string := if nonempty a then a else b.

End PyStr.

(** ** [urllib.parse] *)

Module UrllibParse.
Import PyStr.

Definition uses_netloc : list string :=
  [""; "ftp"; "http"; "gopher"; "nntp"; "telnet"; "imap"; "wais"; "file";
   "mms"; "https"; "shttp"; "snews"; "prospero"; "rtsp"; "rtspu"; "rsync";
   "svn"; "svn+ssh"; "sftp"; "nfs"; "git"; "git+ssh"; "ws"; "wss"].

Definition uses_params : list string :=
  [""; "ftp"; "hdl"; "prospero"; "http"; "imap"; "https"; "shttp"; "rtsp";
   "rtspu"; "sip"; "sips"; "mms"; "sftp"; "tel"].

(** [c in scheme_chars] *)
Definition scheme_char (c : ascii) : bool :=
  is_ascii_alpha c || is_digit c ||
  Ascii.eqb c "+" || Ascii.eqb c "-" || Ascii.eqb c ".".

(** [c in _WHATWG_C0_CONTROL_OR_SPACE] *)
Definition c0_control_or_space (c : ascii) : bool := char_in 0 32 c.

(** [c in _UNSAFE_URL_BYTES_TO_REMOVE]: tab, carriage return, newline *)
Definition unsafe_url_byte (c : ascii) : bool :=
  Ascii.eqb c "009" || Ascii.eqb c "013" || Ascii.eqb c "010".

(** [c in '/?#'] *)
Definition netloc_delim (c : ascii) : bool :=
  Ascii.eqb c "/" || Ascii.eqb c "?" || Ascii.eqb c "#".

Record SplitResult := mkSplit {
  s_scheme : string; s_netloc : string; s_path : string;
  s_query : string; s_fragment : string }.

Record ParseResult := mkParse {
  scheme : string; netloc : string; path : string;
  params : string; query : string; fragment : string }.

(** [_splitnetloc(url, start)]: [(url[start:delim], url[delim:])] with
    [delim] the first of ['/?#'] at or after [start], or the end *)
Definition splitnetloc (url : string) (start : nat) : string * string :=
  span_until netloc_delim (drop start url).

(** the scheme-detection block of [urlsplit]:
    [i = url.find(':')], [i > 0], [url[0]] an ASCII letter and
    [url[:i]] made of [scheme_chars] *)
Definition split_scheme (url : string) : string * string :=
  match partition ":" url with
  | Some (String c0 pre, rest) =>
      if is_ascii_alpha c0 && all_chars scheme_char (String c0 pre)
      then (lower (String c0 pre), rest)
      else ("", url)
  | _ => ("", url)
  end.

(** [urlsplit(url)] with the default [scheme=''] and
    [allow_fragments=True] *)
Definition urlsplit (url : string) : SplitResult :=
  let url := lstrip c0_control_or_space url in
  let url := remove_chars unsafe_url_byte url in
  let '(scheme, url) := split_scheme url in
  let '(netloc, url) :=
    if String.eqb (take 2 url) "//" then splitnetloc url 2 else ("", url) in
  let '(url, fragment) :=
    match partition "#" url with Some (a, b) => (a, b) | None => (url, "") end in
  let '(url, query) :=
    match partition "?" url with Some (a, b) => (a, b) | None => (url, "") end in
  mkSplit scheme netloc url query fragment.

(** [_splitparams(url)], called only when [';' in url]: the first [;]
    at or after the last [/] ends the path *)
Definition splitparams (url : string) : string * string :=
  match rsplit_keep "/" url with
  | Some (dir, seg) =>
      match partition ";" seg with
      | Some (a, b) => (dir +:+ a, b)
      | None => (url, "")
      end
  | None =>
      match partition ";" url with
      | Some (a, b) => (a, b)
      | None => (url, "")
      end
  end.

(** [urlparse(url)] *)
Definition urlparse (url : string) : ParseResult :=
  let r := urlsplit url in
  let '(url, params) :=
    if one_of (s_scheme r) uses_params && contains ";" (s_path r)
    then splitparams (s_path r) else (s_path r, "") in
  mkParse (s_scheme r) (s_netloc r) url params (s_query r) (s_fragment r).

(** [urlunsplit((scheme, netloc, url, query, fragment))] *)
Definition urlunsplit (scheme netloc url query fragment : string) : string :=
  let url :=
    if nonempty netloc ||
       (nonempty scheme && one_of scheme uses_netloc &&
        negb (String.eqb (take 2 url) "//"))
    then
      let url :=
        if nonempty url && negb (String.eqb (take 1 url) "/")
        then "/" +:+ url else url in
      "//" +:+ netloc +:+ url
    else url in
  let url := if nonempty scheme then scheme +:+ ":" +:+ url else url in
  let url := if nonempty query then url +:+ "?" +:+ query else url in
  let url := if nonempty fragment then url +:+ "#" +:+ fragment else url in
  url.

(** [urlunparse((scheme, netloc, url, params, query, fragment))] *)
Definition urlunparse (scheme netloc url params query fragment : string) : string :=
  let url := if nonempty params then url +:+ ";" +:+ params else url in
  urlunsplit scheme netloc url query fragment.

(** [urldefrag(url)]: the pair [(defrag, frag)] *)
Definition urldefrag (url : string) : string * string :=
  if contains "#" url then
    let p := urlparse url in
    (urlunparse (scheme p) (netloc p) (path p) (params p) (query p) "",
     fragment p)
  else (url, "").

End UrllibParse.

(** ** Helper functions of the crawler *)

Import PyStr UrllibParse.

(** [normalize_url(url)] *)
Definition normalize_url (url : string) : string :=
  let '(url, _) := urldefrag url in
  let parsed := urlparse url in
  let scheme := or_else (scheme parsed) "http" in
  let netloc := netloc parsed in
  let path := or_else (path parsed) "/" in
  scheme +:+ "://" +:+ netloc +:+ path.

(** [get_domain(url)] *)
Definition get_domain (url : string) : string :=
  lower (netloc (urlparse url)).

(** [os.path.join(a, b)] of [posixpath] *)
Definition os_path_join (a b : string) : string :=
  if startswith b "/" then b
  else if negb (nonempty a) || endswith a "/" then a +:+ b
  else a +:+ "/" +:+ b.

(** ** The crawl engine *)

(** the [status] argument of [log_to_csv]: an [int] status code or a [str] *)
Inductive py_value :=
  | VInt (n : Z)
  | VStr (s : string).

(** one record of [crawl_log.csv] *)
Record row := mkRow {
  r_url : string; r_status : py_value;
  r_content_type : string; r_saved_file : string }.

(** what the crawler reads of a [requests.Response] *)
Record response := mkResponse {
  status_code : Z;
  header_content_type : option string;   (* [headers.get("Content-Type")] *)
  content : string;
  text : string }.

(** outcome of [session.get]: a response, or a [RequestException] whose
    class name is given *)
Inductive get_result :=
  | Returned (resp : response)
  | Raised (exc_name : string).

(** a [requests.Session] as [setup_session] configures it *)
Record session := mkSession {
  ua_header : string;
  proxies : list (string * string) }.

(** the effects of a run, in program order *)
Inductive event :=
  | Makedirs (dir : string)
  | WriteHeader (log_path : string)
  | ReadRobots (robots_url : string)
  | PbarOpen (total : Z)
  | RobotsCheck (url : string)
  | Get (url : string)
  | WriteFile (file : string) (data : string)
  | Enqueue (url : string) (level : Z)
  | CsvRow (log_path : string) (r : row)
  | MarkVisited (url : string)
  | PbarUpdate
  | Sleep (seconds : Q)
  | PbarClose.

(** the collaborators of the crawl engine.  [robots_read robots_url] is
    [None] when reading the robots file raises, and otherwise the
    [can_fetch] of the parser, itself [None] when it raises.  The
    response to a request may depend on everything done before it.
    [set_order] is the order in which Python iterates over a set of
    links, which the language leaves open. *)
Record world := mkWorld {
  session_get : session → list event → string → get_result;
  robots_read : string → option (string → string → option bool);
  find_all_a_href : string → list string;   (* BeautifulSoup, [<a href>] values *)
  urljoin : string → string → string;
  log_exists : bool;                        (* [os.path.exists(log_path)] *)
  set_order : gset string → list string }.

(** [for link in links] over a set: every element once, in the order
    of the [world] (in a fixed order if the [world] does not give an
    enumeration of the set) *)
Definition iter_set (W : world) (links : gset string) : list string :=
  let l := set_order W links in
  if bool_decide (NoDup l ∧ list_to_set l = links) then l else elements links.

(** the arguments of [crawl] *)
Record crawl_args := mkArgs {
  arg_start_url : string;
  depth : Z;
  delay : Q;
  use_tor : bool;
  output_dir : string;
  user_agent : string;
  respect_robots : bool;
  max_pages : Z }.

(** the variables of [crawl] and the effects so far *)
Record state := mkState {
  visited : gset string;
  queue : list (string * Z);
  processed : Z;
  trace : list event }.

Definition TOR_PROXY : string := "socks5h://127.0.0.1:9050".

Definition emit (e : event) (st : state) : state :=
  mkState (visited st) (queue st) (processed st) (trace st ++ [e]).

(** [visited.add(url)] *)
Definition visited_add (url : string) (st : state) : state :=
  mkState ({[url]} ∪ visited st) (queue st) (processed st)
          (trace st ++ [MarkVisited url]).

(** [queue.append((url, level))] *)
Definition queue_append (url : string) (level : Z) (st : state) : state :=
  mkState (visited st) (queue st ++ [(url, level)]) (processed st)
          (trace st ++ [Enqueue url level]).

(** [processed += 1] *)
Definition processed_incr (st : state) : state :=
  mkState (visited st) (queue st) (processed st + 1)%Z (trace st).

(** [log_to_csv(log_path, url, status, content_type, saved_file)] *)
Definition log_to_csv (log_path url : string) (status : py_value)
    (content_type saved_file : string) (st : state) : state :=
  emit (CsvRow log_path (mkRow url status content_type saved_file)) st.

(** [save_html(output_dir, url, content)]: the path and the file write;
    [fname[:200]] keeps 200 characters *)
Definition save_html (output_dir url data : string) (st : state) : string * state :=
  let parsed := urlparse url in
  let safe_name := netloc parsed +:+ replace_char "/" "_" (path parsed) in
  let safe_name :=
    if negb (nonempty safe_name) || endswith safe_name "_"
    then safe_name +:+ "index" else safe_name in
  let fname := safe_name +:+ ".html" in
  let path := os_path_join output_dir (take 200 fname) in
  (path, emit (WriteFile path data) st).

(** [setup_session(use_tor, user_agent)] *)
Definition setup_session (use_tor : bool) (user_agent : string) : session :=
  mkSession user_agent
    (if use_tor then [("http", TOR_PROXY); ("https", TOR_PROXY)] else []).

(** [is_allowed(rp, user_agent, url)] *)
Definition is_allowed (rp : option (string → string → option bool))
    (user_agent url : string) : bool :=
  match rp with
  | None => true
  | Some can_fetch =>
      match can_fetch user_agent url with
      | Some b => b
      | None => true
      end
  end.

Section Crawl.
Context (W : world) (A : crawl_args).

(** [load_robots_txt(url)] *)
Definition robots_url (url : string) : string :=
  let parsed := urlparse url in
  scheme parsed +:+ "://" +:+ netloc parsed +:+ "/robots.txt".

Definition load_robots_txt (url : string)
    : option (string → string → option bool) :=
  robots_read W (robots_url url).

(** [extract_links(base_url, html)]: a set *)
Definition extract_links (base_url html : string) : gset string :=
  foldl (fun links a =>
           let href := strip a in
           let full_url := urljoin W base_url href in
           let parsed := urlparse full_url in
           if one_of (scheme parsed) ["http"; "https"]
           then {[normalize_url full_url]} ∪ links
           else links)
        ∅ (find_all_a_href W html).

(** [start_url = normalize_url(start_url)] *)
Definition start_url : string := normalize_url (arg_start_url A).

Definition log_path : string := os_path_join (output_dir A) "crawl_log.csv".

Definition the_session : session := setup_session (use_tor A) (user_agent A).

Definition rp : option (string → string → option bool) :=
  if respect_robots A then load_robots_txt start_url else None.

(** the test guarding [queue.append] *)
Definition passes_guard (vis : gset string) (link : string) : bool :=
  negb (bool_decide (link ∈ vis)) &&
  endswith (get_domain link) (get_domain start_url).

(** [for link in links: if ...: queue.append((link, level + 1))] *)
Definition enqueue_links (links : list string) (level : Z) (st : state) : state :=
  foldl (fun st link =>
           if passes_guard (visited st) link
           then queue_append link (level + 1)%Z st else st)
        st links.

(** [status == 200 and "text/html" in ctype.lower()] *)
Definition is_html_200 (status : Z) (ctype : string) : bool :=
  (status =? 200)%Z && str_in "text/html" (lower ctype).

(** the [try] block and its [except RequestException] handler, when no
    other exception is raised inside it (see [interrupted]) *)
Definition fetch (url : string) (level : Z) (st : state) : state :=
  let result := session_get W the_session (trace st) url in
  let st := emit (Get url) st in
  match result with
  | Returned resp =>
      let status := status_code resp in
      let ctype := default "" (header_content_type resp) in
      let '(saved_file, st) :=
        if is_html_200 status ctype then
          let '(saved_file, st) := save_html (output_dir A) url (content resp) st in
          let st :=
            if (level <? depth A)%Z then
              let links := extract_links url (text resp) in
              enqueue_links (iter_set W links) level st
            else st in
          (saved_file, st)
        else ("", st) in
      log_to_csv log_path url (VInt status) ctype saved_file st
  | Raised exc_name =>
      log_to_csv log_path url (VStr ("error:" +:+ exc_name)) "" "" st
  end.

(** the body of the [while] loop after [url, level = queue.popleft()] *)
Definition loop_body (url : string) (level : Z) (st : state) : state :=
  if bool_decide (url ∈ visited st) || (level >? depth A)%Z then st
  else
    let st := if respect_robots A then emit (RobotsCheck url) st else st in
    if respect_robots A && negb (is_allowed rp (user_agent A) url) then
      let st := log_to_csv log_path url (VStr "robots_blocked") "" "" st in
      let st := visited_add url st in
      emit PbarUpdate st
    else
      let st := fetch url level st in
      let st := visited_add url st in
      let st := processed_incr st in
      let st := emit PbarUpdate st in
      emit (Sleep (delay A)) st.

(** [queue and processed < max_pages] *)
Definition loop_cond (st : state) : bool :=
  match queue st with
  | [] => false
  | _ :: _ => (processed st <? max_pages A)%Z
  end.

(** one iteration of the [while] loop *)
Definition iteration (st : state) : state :=
  match queue st with
  | [] => st
  | (url, level) :: rest =>
      loop_body url level (mkState (visited st) rest (processed st) (trace st))
  end.

(** the state on entry to the loop *)
Definition crawl_init : state :=
  mkState ∅ [(start_url, 0%Z)] 0%Z
    ([Makedirs (output_dir A)] ++
     (if log_exists W then [] else [WriteHeader log_path]) ++
     (if respect_robots A then [ReadRobots (robots_url start_url)] else []) ++
     [PbarOpen (max_pages A)]).

(** one turn of the [while] statement: an iteration when the loop
    condition holds; once it fails the loop has exited for good *)
Definition step (st : state) : state :=
  if loop_cond st then iteration st else st.

(** the state [n] turns after [st] *)
Fixpoint steps (n : nat) (st : state) : state :=
  match n with
  | O => st
  | S k => step (steps k st)
  end.

(** the state after at most [n] iterations of the run *)
Definition run (n : nat) : state := steps n crawl_init.

(** [crawl(...)]: the effects of the whole run, when the loop exits
    within [fuel] iterations *)
Definition crawl (fuel : nat) : option (list event) :=
  let st := run fuel in
  if loop_cond st then None else Some (trace st ++ [PbarClose]).

End Crawl.

(** ** Views of a trace *)

(** the rows appended to the audit log *)
Definition audit_log (tr : list event) : list row :=
  omap (fun e => match e with CsvRow _ r => Some r | _ => None end) tr.

(** the URLs requested with [session.get] *)
Definition requests (tr : list event) : list string :=
  omap (fun e => match e with Get u => Some u | _ => None end) tr.

(** the files written by [save_html] *)
Definition saved_files (tr : list event) : list (string * string) :=
  omap (fun e => match e with WriteFile f d => Some (f, d) | _ => None end) tr.

(** the links appended to the queue *)
Definition enqueued (tr : list event) : list (string * Z) :=
  omap (fun e => match e with Enqueue u l => Some (u, l) | _ => None end) tr.

(** the calls of [time.sleep] *)
Definition sleeps (tr : list event) : list Q :=
  omap (fun e => match e with Sleep d => Some d | _ => None end) tr.

(** the URLs added to [visited] *)
Definition marked (tr : list event) : list string :=
  omap (fun e => match e with MarkVisited u => Some u | _ => None end) tr.

(** the URLs [is_allowed] was asked about *)
Definition robots_checked (tr : list event) : list string :=
  omap (fun e => match e with RobotsCheck u => Some u | _ => None end) tr.

(** the number of [pbar.update(1)] calls *)
Definition pbar_ticks (tr : list event) : nat :=
  length (omap (fun e => match e with PbarUpdate => Some () | _ => None end) tr).

(** the rows other than [robots_blocked] ones *)
Definition is_blocked_row (r : row) : bool :=
  match r_status r with
  | VStr s => String.eqb s "robots_blocked"
  | VInt _ => false
  end.

(** ** Names for the cases of an iteration *)

Section Cases.
Context (W : world) (A : crawl_args).

(** the links that pass the queue guard, in iteration order *)
Definition accepted (vis : gset string) (links : list string) : list string :=
  filter (λ link, passes_guard A vis link = true) links.

(** the links a 200 text/html page at [level] adds to the queue *)
Definition page_links (url : string) (level : Z) (vis : gset string)
    (resp : response) : list string :=
  if (level <? depth A)%Z
  then accepted vis (iter_set W (extract_links W url (text resp)))
  else [].

(** the condition of the robots branch of [loop_body] *)
Definition blocked (url : string) : bool :=
  respect_robots A && negb (is_allowed (rp W A) (user_agent A) url).

(** [is_allowed] is called only when [respect_robots] holds *)
Definition robots_events (url : string) : list event :=
  if respect_robots A then [RobotsCheck url] else [].

(** the scoping test of the queue guard *)
Definition in_scope (url : string) : bool :=
  endswith (get_domain url) (get_domain (start_url A)).

End Cases.

(** ** Worlds for worked examples *)

(** a 200 text/html response whose body lists the page's [href]s,
    separated by spaces *)
Definition html_page (hrefs : string) : get_result :=
  Returned (mkResponse 200 (Some "text/html; charset=utf-8") hrefs hrefs).

(** a world serving [pages] (any other URL refuses the connection),
    whose robots file disallows the URLs in [disallowed]; every [href]
    is an absolute URL, which [urljoin] returns as it is *)
Definition example_world (pages : list (string * get_result))
    (disallowed : list string) : world :=
  mkWorld
    (λ _ _ url, default (Raised "ConnectionError")
                  ((list_to_map pages : gmap string get_result) !! url))
    (λ _, Some (λ _ url, Some (negb (one_of url disallowed))))
    String.words
    (λ _ href, href)
    false
    elements.

Definition example_args (start : string) (depth max_pages : Z) : crawl_args :=
  mkArgs start depth 2 false "tor_output" "ShadowCrawler/1.0" true max_pages.

(** the path [save_html] returns; it does not depend on the content *)
Definition save_html_path (output_dir url : string) : string :=
  fst (save_html output_dir url "" (mkState ∅ [] 0 [])).

Definition lookalike_world : world :=
  example_world
    [("http://example.com/",
      html_page "http://example.com/a http://evilexample.com/ http://other.com/b");
     ("http://example.com/a", html_page "");
     ("http://evilexample.com/", html_page "");
     ("http://other.com/b", html_page "")]
    [].

Definition blocked_links_world : world :=
  example_world
    [("http://example.com/",
      html_page "http://example.com/a http://example.com/b")]
    ["http://example.com/a"; "http://example.com/b"].

Definition self_link_world : world :=
  example_world [("http://example.com/", html_page "http://example.com/")] [].

Definition timeout_world : world :=
  example_world
    [("http://example.com/",
      html_page "http://example.com/a http://example.com/b");
     ("http://example.com/a", Raised "Timeout");
     ("http://example.com/b", html_page "")]
    [].

Definition pdf_world : world :=
  example_world
    [("http://example.com/",
      Returned (mkResponse 200 (Some "application/pdf") "%PDF-1.7" "%PDF-1.7"))]
    [].

(** ** The loop invariant *)

(** what every state of the loop satisfies; see [run_inv] *)
Record inv (A : crawl_args) (st : state) : Prop := mkInv {
  inv_log_visited : ∀ r, r ∈ audit_log (trace st) → r_url r ∈ visited st;
  inv_log_nodup : NoDup (r_url <$> audit_log (trace st));
  inv_req_visited : ∀ u, u ∈ requests (trace st) → u ∈ visited st;
  inv_req_nodup : NoDup (requests (trace st));
  inv_scope_queue : ∀ u l, (u, l) ∈ queue st → in_scope A u = true;
  inv_scope_visited : ∀ u, u ∈ visited st → in_scope A u = true;
  inv_normal_queue : ∀ u l, (u, l) ∈ queue st → ∃ x, u = normalize_url x;
  inv_normal_visited : ∀ u, u ∈ visited st → ∃ x, u = normalize_url x;
  inv_processed : processed st = Z.of_nat (length (requests (trace st)));
  inv_sleeps_len : length (sleeps (trace st)) = length (requests (trace st));
  inv_sleeps_val : ∀ d, d ∈ sleeps (trace st) → d = delay A;
  inv_ticks : pbar_ticks (trace st) = length (audit_log (trace st));
  inv_counted :
    length (filter (λ r, is_blocked_row r = false) (audit_log (trace st))) =
    length (requests (trace st));
  inv_budget : (processed st ≤ Z.max 0 (max_pages A))%Z }.

Definition example_seed_args : crawl_args :=
  example_args "http://example.com/" 1 10.

(** ** The stages of [urlsplit] and [urlparse], named for the proofs *)

Module UrlStages.
Import PyStr UrllibParse.

(** the first half of [urlsplit]: the scheme, the netloc and the text
    left after them *)
Definition url_head (url : string) : string * string * string :=
  let url := lstrip c0_control_or_space url in
  let url := remove_chars unsafe_url_byte url in
  let '(scheme, url) := split_scheme url in
  let '(netloc, url) :=
    if String.eqb (take 2 url) "//" then splitnetloc url 2 else ("", url) in
  (scheme, netloc, url).

(** the second half of [urlsplit]: path, query and fragment *)
Definition split_tail (url : string) : string * string * string :=
  let '(url, fragment) :=
    match partition "#" url with Some (a, b) => (a, b) | None => (url, "") end in
  let '(url, query) :=
    match partition "?" url with Some (a, b) => (a, b) | None => (url, "") end in
  (url, query, fragment).

(** the params step of [urlparse] *)
Definition params_step (scheme url : string) : string * string :=
  if one_of scheme uses_params && contains ";" url
  then splitparams url else (url, "").

(** no tab, carriage return or newline *)
Definition clean (s : string) : bool :=
  all_chars (λ c, negb (unsafe_url_byte c)) s.

(** none of ['/?#'] *)
Definition no_delim (s : string) : bool :=
  all_chars (λ c, negb (netloc_delim c)) s.

(** a scheme as [urlsplit] returns it when it finds one *)
Definition good_scheme (s : string) : bool :=
  match s with String c _ => is_ascii_alpha c | "" => false end &&
  all_chars scheme_char s && String.eqb (lower s) s.

(** empty, or starting with a character satisfying [p] *)
Definition starts_with_char (p : ascii → bool) (s : string) : bool :=
  match s with "" => true | String d _ => p d end.

(** starting with [/] *)
Definition rooted (s : string) : bool :=
  match s with String d _ => Ascii.eqb d "/" | "" => false end.

(** the string [normalize_url] builds from a parsed URL *)
Definition normal_form (parsed : ParseResult) : string :=
  or_else (scheme parsed) "http" +:+ "://" +:+ netloc parsed +:+
  or_else (path parsed) "/".

End UrlStages.

(** ** The command-line entry point and the Tor checks *)

(** the machine [main] runs on, as far as the Tor checks see it:
    whether [which tor] exits with status 0; what the [n]-th call of
    [systemctl is-active tor] prints, [None] when it exits with a
    non-zero status ([CalledProcessError]); and the exception, if any,
    that the [n]-th [check_output(...).decode()] raises instead and that
    [check_tor_service] does not catch: [FileNotFoundError] on a
    machine without [systemctl], [UnicodeDecodeError] for an output
    that is not UTF-8 *)
Record tor_host := mkTorHost {
  which_tor_ok : bool;
  is_active_output : nat → option string;
  is_active_raises : nat → option string }.

(** the commands the Tor checks run, in program order *)
Inductive tor_event :=
  | RunWhichTor                (* [subprocess.call("which tor", shell=True)] *)
  | RunIsActive                (* [systemctl is-active tor] *)
  | RunStartTor                (* [os.system("sudo systemctl start tor")] *)
  | TorSleep (seconds : Z).    (* [time.sleep(3)] *)

(** how a call ends: it returns, it leaves the program through
    [sys.exit], or it raises an exception that nobody catches *)
Inductive ended (X : Type) :=
  | Returns (x : X)
  | Exits (status : py_value)
  | Raises (exc : string).
Arguments Returns {X} x.
Arguments Exits {X} status.
Arguments Raises {X} exc.

(** the number of [systemctl is-active tor] calls made so far *)
Definition is_active_calls (tr : list tor_event) : nat :=
  length (omap (fun e => match e with RunIsActive => Some () | _ => None end) tr).

(** [check_tor_installed()] *)
Definition check_tor_installed (H : tor_host) (tr : list tor_event)
    : bool * list tor_event :=
  (which_tor_ok H, tr ++ [RunWhichTor]).

(** [check_tor_service()] *)
Definition check_tor_service (H : tor_host) (tr : list tor_event)
    : ended bool * list tor_event :=
  let call := is_active_calls tr in
  let tr := tr ++ [RunIsActive] in
  match is_active_raises H call with
  | Some exc => (Raises exc, tr)
  | None =>
      match is_active_output H call with
      | Some out => (Returns (String.eqb (strip out) "active"), tr)
      | None => (Returns false, tr)
      end
  end.

(** [start_tor_service()] *)
Definition start_tor_service (H : tor_host) (tr : list tor_event)
    : ended unit * list tor_event :=
  let tr := tr ++ [RunStartTor] in
  let tr := tr ++ [TorSleep 3] in
  match check_tor_service H tr with
  | (Returns active, tr) =>
      if negb active
      then (Exits (VStr "[-] Failed to start Tor service. Please start it manually."), tr)
      else (Returns (), tr)
  | (Exits status, tr) => (Exits status, tr)
  | (Raises exc, tr) => (Raises exc, tr)
  end.

(** the namespace [parser.parse_args()] returns *)
Record cli_args := mkCli {
  cli_url : string;
  cli_depth : Z;
  cli_delay : Q;
  cli_no_tor : bool;
  cli_no_robots : bool;
  cli_user_agent : string;
  cli_max_pages : Z;
  cli_output : string }.

(** how [main] ends: in [sys.exit], in the call of [crawl], or in the
    traceback of an uncaught exception (exit status 1) *)
Inductive main_result :=
  | SysExit (status : py_value)
  | CallCrawl (A : crawl_args)
  | Traceback (exc : string).

(** the call [crawl(start_url=args.url, ...)] at the end of [main] *)
Definition crawl_call (args : cli_args) : crawl_args :=
  mkArgs (cli_url args) (cli_depth args) (cli_delay args)
    (negb (cli_no_tor args)) (cli_output args) (cli_user_agent args)
    (negb (cli_no_robots args)) (cli_max_pages args).

(** [main()] after [parser.parse_args()] *)
Definition main (H : tor_host) (args : cli_args) : main_result * list tor_event :=
  if negb (cli_no_tor args) then
    let '(installed, tr) := check_tor_installed H [] in
    if negb installed then (SysExit (VInt 1), tr)
    else
      match check_tor_service H tr with
      | (Returns active, tr) =>
          if negb active then
            match start_tor_service H tr with
            | (Returns _, tr) => (CallCrawl (crawl_call args), tr)
            | (Exits status, tr) => (SysExit status, tr)
            | (Raises exc, tr) => (Traceback exc, tr)
            end
          else (CallCrawl (crawl_call args), tr)
      | (Exits status, tr) => (SysExit status, tr)
      | (Raises exc, tr) => (Traceback exc, tr)
      end
  else (CallCrawl (crawl_call args), []).

(** ** The shape of the queue *)

(** a breadth-first queue: entries of one level [lo], then entries of
    level [lo + 1], which exist only below the maximum depth *)
Definition two_level_queue (max_depth : Z) (q : list (string * Z)) : Prop :=
  ∃ lo q1 q2,
    q = q1 ++ q2 ∧ (0 ≤ lo)%Z ∧ (lo ≤ Z.max 0 max_depth)%Z ∧
    (∀ u l, (u, l) ∈ q1 → l = lo) ∧
    (∀ u l, (u, l) ∈ q2 → l = (lo + 1)%Z ∧ (lo < max_depth)%Z).

(** the file names of the rows that have one *)
Definition logged_files (rows : list row) : list string :=
  filter (λ f, f ≠ "") (r_saved_file <$> rows).

(** more worlds for worked examples *)

(** a world whose robots file cannot be read *)
Definition no_robots_file_world (pages : list (string * get_result)) : world :=
  mkWorld
    (λ _ _ url, default (Raised "ConnectionError")
                  ((list_to_map pages : gmap string get_result) !! url))
    (λ _, None)
    String.words
    (λ _ href, href)
    true
    elements.

Definition two_page_world : world :=
  no_robots_file_world
    [("http://example.com/", html_page "http://example.com/a");
     ("http://example.com/a", html_page "http://example.com/")].

(** whether the [k]-th call of [systemctl is-active tor] prints
    [active], as [check_tor_service] reads it *)
Definition tor_active (H : tor_host) (k : nat) : bool :=
  match is_active_raises H k, is_active_output H k with
  | None, Some out => String.eqb (strip out) "active"
  | _, _ => false
  end.


(** a machine with Tor installed whose service is inactive until it is
    started *)
Definition stopped_tor_host : tor_host :=
  mkTorHost true
    (λ k, match k with
          | O => Some ("inactive" +:+ String "010"%char "")
          | _ => Some ("active" +:+ String "010"%char "")
          end)
    (λ _, None).


(** the namespace of [-u http://example.com/ -d 1] with the defaults *)
Definition example_cli : cli_args :=
  mkCli "http://example.com/" 1 2 false false
    "ShadowCrawler/1.0 (+https://example.local)" 200 "tor_output".

(** ** The events of the loop *)

(** an event of the loop: no set-up event, rows go to the log file of
    the run, pages to files directly inside the output directory *)
Definition loop_event (A : crawl_args) (e : event) : Prop :=
  match e with
  | Makedirs _ | WriteHeader _ | ReadRobots _ | PbarOpen _ | PbarClose => False
  | CsvRow p _ => p = log_path A
  | WriteFile p _ =>
      ∃ name, contains "/" name = false ∧ name ≠ "" ∧
              p = os_path_join (output_dir A) name
  | _ => True
  end.

(** ** Fragments that [normalize_url] removes without a trace *)

(** the URLs [u] for which a fragment appended to [u] does not change
    the result of [normalize_url]: those that parse with a netloc, and
    the others unless their path starts with [//], or is relative while
    their scheme is one of [uses_netloc] *)
Definition fragment_neutral (u : string) : bool :=
  let p := urlparse u in
  nonempty (netloc p) ||
  (negb (String.eqb (take 2 (path p)) "//") &&
   (negb (nonempty (scheme p) && one_of (scheme p) uses_netloc) ||
    negb (nonempty (path p)) || String.eqb (take 1 (path p)) "/")).

(** ** Substrings up to letter case *)

(** [c] is [t], or [t] is a lower-case ASCII letter and [c] is its
    upper-case letter *)
Definition same_letter (c t : ascii) : bool :=
  Ascii.eqb c t || (is_lower t && (nat_of_ascii c + 32 =? nat_of_ascii t)%nat).

(** [s] is [pattern], character by character, up to the case of the
    letters of [pattern] *)
Fixpoint matches_ignoring_case (s pattern : string) : bool :=
  match s, pattern with
  | "", "" => true
  | String c s', String t pattern' =>
      same_letter c t && matches_ignoring_case s' pattern'
  | _, _ => false
  end.

(** [hay] contains [pattern] as a case-insensitive substring *)
Definition contains_ignoring_case (hay pattern : string) : Prop :=
  ∃ pre mid post,
    hay = pre +:+ mid +:+ post ∧ matches_ignoring_case mid pattern = true.

(** a page served with a Content-Type written in mixed case *)
Definition mixed_case_world : world :=
  example_world
    [("http://example.com/",
      Returned (mkResponse 200 (Some "Text/HTML; Charset=UTF-8")
                  "http://example.com/a" "http://example.com/a"))]
    [].

(** ** Events that leave the saved files and their log fields alone *)

(** neither a file write nor a row with a saved file *)
Definition fileless (e : event) : Prop :=
  match e with
  | WriteFile _ _ => False
  | CsvRow _ r => r_saved_file r = ""
  | _ => True
  end.

(** the files written and the saved-file fields of the log agree, but
    for the file of the page in hand *)
Definition files_logged (A : crawl_args) (tr : list event) : Prop :=
  fst <$> saved_files tr = logged_files (audit_log tr) ∨
  ∃ url, fst <$> saved_files tr =
           logged_files (audit_log tr) ++ [save_html_path (output_dir A) url].

(** ** The exceptions of [urllib.parse]

    [urlsplit] raises [ValueError] for a netloc whose square brackets do
    not enclose an IPv6 or IPvFuture address; it is the only exception
    of the functions of [UrllibParse] on a [str].  ([_checknetloc]
    raises only for characters whose NFKC normal form holds one of
    ['/?#@:']; no character below [U+0100] has such a normal form.) *)

Module Ipaddress.
Import PyStr.

(** [s.split(c)] for a single character [c] *)
Fixpoint split (c : ascii) (s : string) : list string :=
  match s with
  | "" => [""]
  | String d s' =>
      if Ascii.eqb d c then "" :: split c s'
      else match split c s' with
           | p :: ps => String d p :: ps
           | [] => [String d ""]
           end
  end.

(** [c in '0123456789ABCDEFabcdef'] *)
Definition is_hex_digit (c : ascii) : bool :=
  is_digit c || char_in 65 70 c || char_in 97 102 c.

(** [int(s, 10)] for a string of ASCII digits *)
Fixpoint decimal_from (acc : nat) (s : string) : nat :=
  match s with
  | "" => acc
  | String d s' => decimal_from (10 * acc + (nat_of_ascii d - 48)) s'
  end.

Definition decimal (s : string) : nat := decimal_from 0 s.

(** [IPv4Address._parse_octet(octet_str)] returns *)
Definition octet_ok (octet_str : string) : bool :=
  if negb (nonempty octet_str) then false
  else if negb (all_chars is_digit octet_str) then false
  else if (3 <? String.length octet_str)%nat then false
  else if negb (String.eqb octet_str "0") && startswith octet_str "0" then false
  else (decimal octet_str <=? 255)%nat.

(** [IPv4Address(address)] returns *)
Definition ipv4_valid (address : string) : bool :=
  negb (contains "/" address) &&
  nonempty address &&
  (length (split "." address) =? 4)%nat &&
  forallb octet_ok (split "." address).

(** [IPv6Address._parse_hextet(hextet_str)] returns *)
Definition hextet_ok (hextet_str : string) : bool :=
  all_chars is_hex_digit hextet_str &&
  (String.length hextet_str <=? 4)%nat &&
  nonempty hextet_str.

(** the indices [i] of [range(1, len(parts) - 1)] with [parts[i]] empty *)
Definition skip_indices (parts : list string) : list nat :=
  filter (λ i, default "x" (parts !! i) = "")
         (seq 1 (length parts - 2)).

(** [IPv6Address._ip_int_from_string(ip_str)] returns *)
Definition ipv6_int_ok (ip_str : string) : bool :=
  nonempty ip_str &&
  let parts := split ":" ip_str in
  (3 <=? length parts)%nat &&
  let parts' :=
    if contains "." (List.last parts "")
    then if ipv4_valid (List.last parts "")
         then Some (removelast parts ++ ["0"; "0"])   (* two hextets *)
         else None
    else Some parts in
  match parts' with
  | None => false
  | Some parts =>
      (length parts <=? 9)%nat &&
      let first_empty := negb (nonempty (default "" (head parts))) in
      let last_empty := negb (nonempty (List.last parts "")) in
      match skip_indices parts with
      | [] =>
          (length parts =? 8)%nat && negb first_empty && negb last_empty &&
          forallb hextet_ok parts
      | [skip_index] =>
          let parts_hi := skip_index in
          let parts_lo := (length parts - skip_index - 1)%nat in
          let parts_hi' := if first_empty then (parts_hi - 1)%nat else parts_hi in
          let parts_lo' := if last_empty then (parts_lo - 1)%nat else parts_lo in
          (if first_empty then (parts_hi' =? 0)%nat else true) &&
          (if last_empty then (parts_lo' =? 0)%nat else true) &&
          (parts_hi' + parts_lo' <? 8)%nat &&
          forallb hextet_ok (List.firstn parts_hi' parts) &&
          forallb hextet_ok (List.skipn (length parts - parts_lo') parts)
      | _ => false
      end
  end.

(** [IPv6Address(address)] returns: the scope id after [%] is split off *)
Definition ipv6_valid (address : string) : bool :=
  negb (contains "/" address) &&
  match partition "%" address with
  | None => ipv6_int_ok address
  | Some (addr, scope_id) =>
      nonempty scope_id && negb (contains "%" scope_id) && ipv6_int_ok addr
  end.

(** [re.match(r"\Av[a-fA-F0-9]+\..+\Z", hostname)] for a [hostname]
    that starts with [v] *)
Definition ipvfuture_ok (hostname : string) : bool :=
  let '(hex, rest) := span_until (λ c, negb (is_hex_digit c)) (drop 1 hostname) in
  nonempty hex && startswith rest "." && nonempty (drop 1 rest) &&
  negb (contains "010" (drop 1 rest)).

End Ipaddress.

Module UrllibErrors.
Import PyStr UrllibParse Ipaddress.

(** [_check_bracketed_host(hostname)] returns *)
Definition bracketed_host_ok (hostname : string) : bool :=
  if startswith hostname "v" then ipvfuture_ok hostname
  else negb (ipv4_valid hostname) && ipv6_valid hostname.

(** [_check_bracketed_netloc(netloc)] raises *)
Definition check_bracketed_netloc (netloc : string) : bool :=
  let hostname_and_port :=
    match rsplit_keep "@" netloc with
    | Some (_, after) => after
    | None => netloc
    end in
  match partition "[" hostname_and_port with
  | Some (before_bracket, bracketed) =>
      if nonempty before_bracket then true
      else
        let '(hostname, port) :=
          match partition "]" bracketed with
          | Some (h, p) => (h, p)
          | None => (bracketed, "")
          end in
        if nonempty port && negb (startswith port ":") then true
        else negb (bracketed_host_ok hostname)
  | None =>
      let hostname :=
        match partition ":" hostname_and_port with
        | Some (h, _) => h
        | None => hostname_and_port
        end in
      negb (bracketed_host_ok hostname)
  end.

(** the checks of [urlsplit] on the netloc it found raise [ValueError] *)
Definition netloc_error (netloc : string) : bool :=
  (contains "[" netloc && negb (contains "]" netloc)) ||
  (contains "]" netloc && negb (contains "[" netloc)) ||
  (contains "[" netloc && contains "]" netloc && check_bracketed_netloc netloc).

End UrllibErrors.

(** ** The helper functions with their exceptions

    [Py.f x] is [None] where the call [f(x)] raises [ValueError], and
    otherwise the value it returns, which is the value of the function
    [f] of the sections above. *)

Module Py.
Import PyStr UrllibErrors.

Definition urlsplit (url : string) : option UrllibParse.SplitResult :=
  let r := UrllibParse.urlsplit url in
  if netloc_error (UrllibParse.s_netloc r) then None else Some r.

Definition urlparse (url : string) : option UrllibParse.ParseResult :=
  _ ← urlsplit url; Some (UrllibParse.urlparse url).

Definition urldefrag (url : string) : option (string * string) :=
  if contains "#" url then
    p ← urlparse url;
    Some (UrllibParse.urlunparse (UrllibParse.scheme p) (UrllibParse.netloc p)
            (UrllibParse.path p) (UrllibParse.params p) (UrllibParse.query p) "",
          UrllibParse.fragment p)
  else Some (url, "").

(** [normalize_url(url)] *)
Definition normalize_url (url : string) : option string :=
  '(url, _) ← urldefrag url;
  parsed ← urlparse url;
  let scheme := or_else (UrllibParse.scheme parsed) "http" in
  let netloc := UrllibParse.netloc parsed in
  let path := or_else (UrllibParse.path parsed) "/" in
  Some (scheme +:+ "://" +:+ netloc +:+ path).

(** [get_domain(url)] *)
Definition get_domain (url : string) : option string :=
  parsed ← urlparse url; Some (lower (UrllibParse.netloc parsed)).

(** [urljoin(base, url)]: it parses both arguments unless one of them
    is empty; the value it returns is the one of the [world] *)
Definition urljoin (W : world) (base url : string) : option string :=
  if nonempty base && nonempty url then
    _ ← urlparse base; _ ← urlparse url; Some (urljoin W base url)
  else Some (urljoin W base url).

(** [save_html(output_dir, url, content)] *)
Definition save_html (output_dir url data : string) (st : state)
    : option (string * state) :=
  _ ← urlparse url; Some (save_html output_dir url data st).

(** one turn of the loop of [extract_links] *)
Definition extract_links_turn (W : world) (base_url : string)
    (acc : option (gset string)) (a : string) : option (gset string) :=
  links ← acc;
  let href := strip a in
  full_url ← urljoin W base_url href;
  parsed ← urlparse full_url;
  if one_of (UrllibParse.scheme parsed) ["http"; "https"]
  then n ← normalize_url full_url; Some ({[n]} ∪ links)
  else Some links.

(** [extract_links(base_url, html)] *)
Definition extract_links (W : world) (base_url html : string)
    : option (gset string) :=
  foldl (extract_links_turn W base_url) (Some ∅) (find_all_a_href W html).

End Py.

(** an anchor that [extract_links] gets past without an exception *)
Definition anchor_ok (W : world) (base_url a : string) : Prop :=
  let full := urljoin W base_url (strip a) in
  Py.urljoin W base_url (strip a) = Some full ∧
  Py.urlparse full = Some (urlparse full) ∧
  (one_of (scheme (urlparse full)) ["http"; "https"] = true →
   Py.normalize_url full = Some (normalize_url full)).

(** ** Runs that end early

    An exception that [crawl] does not catch ends the run where it is
    raised: a [ValueError] of [urljoin], [urlparse] or [get_domain] on a
    link of the page, an [OSError] of a file write, an exception of
    BeautifulSoup, a [ValueError] of [time.sleep] for a negative delay,
    a [KeyboardInterrupt].  The effects of such a run are the effects
    of the run up to that point: a prefix of the trace of the run that
    completes the turn. *)
Definition interrupted (W : world) (A : crawl_args) (tr : list event) : Prop :=
  ∃ n, tr `prefix_of` trace (run W A n).
(** ** Facts about one iteration *)

Section IterationFacts.
Context (W : world) (A : crawl_args).

Abbreviation start_url := (start_url A).
Abbreviation log_path := (log_path A).

Lemma enqueue_links_visited links level st :
  visited (enqueue_links A links level st) = visited st.
Proof.
  revert st. induction links as [|l links IH]; intros st; [done|].
  simpl. destruct (passes_guard A (visited st) l); rewrite IH; done.
Qed.

Lemma enqueue_links_eq links level st :
  enqueue_links A links level st =
    mkState (visited st)
      (queue st ++ ((λ l, (l, (level + 1)%Z)) <$> accepted A (visited st) links))
      (processed st)
      (trace st ++ ((λ l, Enqueue l (level + 1)%Z) <$> accepted A (visited st) links)).
Proof.
  revert st. induction links as [|l links IH]; intros st.
  - simpl. rewrite !app_nil_r. by destruct st.
  - unfold accepted. rewrite filter_cons. simpl.
    destruct (passes_guard A (visited st) l) eqn:Hl.
    + rewrite IH. simpl. rewrite <- !app_assoc. done.
    + rewrite IH. done.
Qed.

(** the iteration over a set meets its elements, each once *)
Lemma elem_of_iter_set (links : gset string) x : x ∈ iter_set W links ↔ x ∈ links.
Proof.
  unfold iter_set. cbv zeta.
  generalize (set_order W links). intros l.
  destruct (bool_decide _) eqn:Hd.
  - apply bool_decide_eq_true in Hd as [_ <-]. by rewrite elem_of_list_to_set.
  - apply elem_of_elements.
Qed.

Lemma NoDup_iter_set (links : gset string) : NoDup (iter_set W links).
Proof.
  unfold iter_set. destruct (bool_decide _) eqn:Hd.
  - by apply bool_decide_eq_true in Hd as [? _].
  - apply NoDup_elements.
Qed.

(** every extracted link is an output of [normalize_url] *)
Lemma extract_links_normal base_url html link :
  link ∈ extract_links W base_url html → ∃ x, link = normalize_url x.
Proof.
  unfold extract_links.
  assert (∀ l : string, l ∈ (∅ : gset string) → ∃ x, l = normalize_url x) as Hacc.
  { intros l Hl. by apply not_elem_of_empty in Hl. }
  revert Hacc. generalize (∅ : gset string) as acc.
  induction (find_all_a_href W html) as [|a anchors IH]; intros acc Hacc Hin.
  - by apply Hacc.
  - eapply IH; cycle 1; [exact Hin|].
    intros l Hl. cbv beta zeta in Hl.
    destruct (one_of _ _); [|by apply Hacc].
    apply elem_of_union in Hl as [Hl | Hl]; [|by apply Hacc].
    apply elem_of_singleton in Hl. by eexists.
Qed.

Lemma fetch_raised url level st exc_name :
  session_get W (the_session A) (trace st) url = Raised exc_name →
  fetch W A url level st =
    mkState (visited st) (queue st) (processed st)
      (trace st ++
       [Get url; CsvRow log_path (mkRow url (VStr ("error:" +:+ exc_name)) "" "")]).
Proof.
  intros H. unfold fetch. rewrite H. unfold log_to_csv, emit. simpl.
  by rewrite <- app_assoc.
Qed.

Lemma fetch_not_html url level st resp :
  session_get W (the_session A) (trace st) url = Returned resp →
  is_html_200 (status_code resp) (default "" (header_content_type resp)) = false →
  fetch W A url level st =
    mkState (visited st) (queue st) (processed st)
      (trace st ++
       [Get url;
        CsvRow log_path (mkRow url (VInt (status_code resp))
                           (default "" (header_content_type resp)) "")]).
Proof.
  intros H Hc. unfold fetch. rewrite H, Hc. unfold log_to_csv, emit. simpl.
  by rewrite <- app_assoc.
Qed.

Lemma fetch_html url level st resp :
  session_get W (the_session A) (trace st) url = Returned resp →
  is_html_200 (status_code resp) (default "" (header_content_type resp)) = true →
  let saved_file := fst (save_html (output_dir A) url (content resp) st) in
  let links := page_links W A url level (visited st) resp in
  fetch W A url level st =
    mkState (visited st)
      (queue st ++ ((λ l, (l, (level + 1)%Z)) <$> links))
      (processed st)
      (trace st ++
       [Get url; WriteFile saved_file (content resp)] ++
       ((λ l, Enqueue l (level + 1)%Z) <$> links) ++
       [CsvRow log_path (mkRow url (VInt (status_code resp))
                           (default "" (header_content_type resp)) saved_file)]).
Proof.
  intros H Hc. unfold fetch. rewrite H, Hc. unfold page_links.
  unfold save_html, log_to_csv, emit. simpl.
  destruct (level <? depth A)%Z.
  - rewrite enqueue_links_eq. simpl. rewrite <- !app_assoc. done.
  - simpl. rewrite app_nil_r, <- !app_assoc. done.
Qed.

(** the shape common to all three outcomes of a fetch *)
Lemma fetch_shape url level st :
  ∃ mid new r,
    fetch W A url level st =
      mkState (visited st) (queue st ++ new) (processed st)
              (trace st ++ [Get url] ++ mid ++ [CsvRow log_path r]) ∧
    r_url r = url ∧ is_blocked_row r = false ∧
    audit_log mid = [] ∧ requests mid = [] ∧ sleeps mid = [] ∧
    pbar_ticks mid = 0%nat ∧
    (∀ u l, (u, l) ∈ new → passes_guard A (visited st) u = true ∧
                            l = (level + 1)%Z ∧ (level < depth A)%Z ∧
                            ∃ x, u = normalize_url x).
Proof.
  destruct (session_get W (the_session A) (trace st) url) as [resp|exc] eqn:Hget.
  - destruct (is_html_200 (status_code resp)
                (default "" (header_content_type resp))) eqn:Hc.
    + eexists (WriteFile _ _ :: ((λ l, Enqueue l (level + 1)%Z) <$>
                 page_links W A url level (visited st) resp)), _, _.
      split; [rewrite (fetch_html _ _ _ _ Hget Hc); simpl; reflexivity|].
      split_and!; try done.
      * unfold audit_log. simpl. induction (page_links _ _ _ _); done.
      * unfold requests. simpl. induction (page_links _ _ _ _); done.
      * unfold sleeps. simpl. induction (page_links _ _ _ _); done.
      * unfold pbar_ticks. simpl. induction (page_links _ _ _ _); done.
      * intros u l (x & [= -> ->] & Hx)%list_elem_of_fmap.
        unfold page_links in Hx.
        destruct (Z.ltb_spec level (depth A)); [|by inversion Hx].
        unfold accepted in Hx. apply list_elem_of_filter in Hx as [? Hx].
        split_and!; try done.
        apply elem_of_iter_set in Hx. by apply extract_links_normal in Hx.
    + exists [], [], (mkRow url (VInt (status_code resp))
                        (default "" (header_content_type resp)) "").
      rewrite (fetch_not_html _ _ _ _ Hget Hc), app_nil_r.
      split_and!; try done. intros ? ? Hin; inversion Hin.
  - exists [], [], (mkRow url (VStr ("error:" +:+ exc)) "" "").
    rewrite (fetch_raised _ _ _ _ Hget), app_nil_r.
    split_and!; try done. intros ? ? Hin; inversion Hin.
Qed.

End IterationFacts.

(** ** The cases of [loop_body] and [iteration] *)

Section LoopCases.
Context (W : world) (A : crawl_args).

Lemma guard_false url level st :
  bool_decide (url ∈ visited st) || (level >? depth A)%Z = false ↔
  (url ∉ visited st) ∧ (level ≤ depth A)%Z.
Proof.
  rewrite orb_false_iff, bool_decide_eq_false.
  destruct (Z.gtb_spec level (depth A)); split; intros []; split; first [done | lia].
Qed.

Lemma loop_body_discard url level st :
  url ∈ visited st ∨ (depth A < level)%Z →
  loop_body W A url level st = st.
Proof.
  intros H. unfold loop_body.
  destruct (bool_decide (url ∈ visited st) || (level >? depth A)%Z) eqn:E; [done|].
  apply guard_false in E as [? ?]. destruct H; [done | lia].
Qed.

Lemma loop_body_blocked url level st :
  url ∉ visited st → (level ≤ depth A)%Z → blocked W A url = true →
  loop_body W A url level st =
    mkState ({[url]} ∪ visited st) (queue st) (processed st)
      (trace st ++
       [RobotsCheck url;
        CsvRow (log_path A) (mkRow url (VStr "robots_blocked") "" "");
        MarkVisited url; PbarUpdate]).
Proof.
  intros Hv Hl Hb. unfold loop_body.
  rewrite (proj2 (guard_false url level st)) by done.
  unfold blocked in Hb.
  destruct (respect_robots A) eqn:Hr; [|done].
  simpl in Hb. simpl. rewrite Hb.
  unfold log_to_csv, visited_add, emit. simpl. by rewrite <- !app_assoc.
Qed.

Lemma loop_body_fetch url level st :
  url ∉ visited st → (level ≤ depth A)%Z → blocked W A url = false →
  loop_body W A url level st =
    let st' := fetch W A url level
                 (mkState (visited st) (queue st) (processed st)
                          (trace st ++ robots_events A url)) in
    mkState ({[url]} ∪ visited st') (queue st') (processed st' + 1)%Z
            (trace st' ++ [MarkVisited url; PbarUpdate; Sleep (delay A)]).
Proof.
  intros Hv Hl Hb. unfold loop_body.
  rewrite (proj2 (guard_false url level st)) by done.
  unfold blocked in Hb. unfold robots_events.
  destruct (respect_robots A) eqn:Hr.
  - simpl in Hb. simpl. rewrite Hb.
    unfold visited_add, processed_incr, emit. simpl. by rewrite <- !app_assoc.
  - simpl. rewrite app_nil_r.
    unfold visited_add, processed_incr, emit. simpl.
    destruct st; simpl. by rewrite <- !app_assoc.
Qed.

(** every iteration is a discard, a robots block or a fetch *)
Lemma iteration_cases st :
  loop_cond A st = true →
  ∃ url level rest,
    queue st = (url, level) :: rest ∧
    (((url ∈ visited st ∨ (depth A < level)%Z) ∧
      iteration W A st = mkState (visited st) rest (processed st) (trace st))
     ∨
     ((url ∉ visited st) ∧ (level ≤ depth A)%Z ∧ blocked W A url = true ∧
      iteration W A st =
        mkState ({[url]} ∪ visited st) rest (processed st)
          (trace st ++
           [RobotsCheck url;
            CsvRow (log_path A) (mkRow url (VStr "robots_blocked") "" "");
            MarkVisited url; PbarUpdate]))
     ∨
     ((url ∉ visited st) ∧ (level ≤ depth A)%Z ∧ blocked W A url = false ∧
      ∃ mid new r,
        iteration W A st =
          mkState ({[url]} ∪ visited st) (rest ++ new) (processed st + 1)%Z
            (trace st ++ robots_events A url ++ [Get url] ++ mid ++
             [CsvRow (log_path A) r; MarkVisited url; PbarUpdate;
              Sleep (delay A)]) ∧
        r_url r = url ∧ is_blocked_row r = false ∧
        audit_log mid = [] ∧ requests mid = [] ∧ sleeps mid = [] ∧
        pbar_ticks mid = 0%nat ∧
        (∀ u l, (u, l) ∈ new → passes_guard A (visited st) u = true ∧
                                l = (level + 1)%Z ∧ (level < depth A)%Z ∧
                                ∃ x, u = normalize_url x))).
Proof.
  intros Hc. unfold loop_cond in Hc.
  destruct (queue st) as [|[url level] rest] eqn:Hq; [done|].
  exists url, level, rest. split; [done|].
  unfold iteration. rewrite Hq.
  destruct (decide (url ∈ visited st ∨ (depth A < level)%Z)) as [Hd|Hd].
  - left. split; [done|]. by rewrite loop_body_discard.
  - right.
    assert ((url ∉ visited st) ∧ (level ≤ depth A)%Z) as [Hv Hl].
    { split; [tauto|]. destruct (Z.le_gt_cases level (depth A)); tauto. }
    destruct (blocked W A url) eqn:Hb.
    + left. split_and!; try done. by rewrite loop_body_blocked.
    + right. split_and!; try done.
      rewrite loop_body_fetch by done. simpl.
      destruct (fetch_shape W A url level
                  (mkState (visited st) rest (processed st)
                           (trace st ++ robots_events A url)))
        as (mid & new & r & Hf & Hr).
      exists mid, new, r. rewrite Hf. simpl. split; [|done].
      f_equal. by simplify_list_eq.
Qed.

End LoopCases.

(** ** The invariant holds throughout the loop *)

Section Invariant.
Context (W : world) (A : crawl_args).

Lemma audit_log_app tr1 tr2 :
  audit_log (tr1 ++ tr2) = audit_log tr1 ++ audit_log tr2.
Proof. apply omap_app. Qed.

Lemma requests_app tr1 tr2 :
  requests (tr1 ++ tr2) = requests tr1 ++ requests tr2.
Proof. apply omap_app. Qed.

Lemma sleeps_app tr1 tr2 : sleeps (tr1 ++ tr2) = sleeps tr1 ++ sleeps tr2.
Proof. apply omap_app. Qed.

Lemma pbar_ticks_app tr1 tr2 :
  pbar_ticks (tr1 ++ tr2) = (pbar_ticks tr1 + pbar_ticks tr2)%nat.
Proof. unfold pbar_ticks. by rewrite omap_app, length_app. Qed.

Lemma robots_events_views url :
  audit_log (robots_events A url) = [] ∧ requests (robots_events A url) = [] ∧
  sleeps (robots_events A url) = [] ∧ pbar_ticks (robots_events A url) = 0%nat.
Proof. unfold robots_events. by destruct (respect_robots A). Qed.

(** the views of the trace of a fetch iteration *)
Lemma fetch_trace_views tr url mid r :
  audit_log mid = [] → requests mid = [] → sleeps mid = [] →
  pbar_ticks mid = 0%nat →
  let tr' := tr ++ robots_events A url ++ [Get url] ++ mid ++
             [CsvRow (log_path A) r; MarkVisited url; PbarUpdate;
              Sleep (delay A)] in
  audit_log tr' = audit_log tr ++ [r] ∧
  requests tr' = requests tr ++ [url] ∧
  sleeps tr' = sleeps tr ++ [delay A] ∧
  pbar_ticks tr' = S (pbar_ticks tr).
Proof.
  intros Ha Hr Hs Hp. simpl.
  destruct (robots_events_views url) as (Ra & Rr & Rs & Rp).
  split_and!.
  - rewrite !audit_log_app, Ra. simpl.
    change (Get url :: mid ++ ?l) with ([Get url] ++ mid ++ l).
    by rewrite !audit_log_app, Ha.
  - rewrite !requests_app, Rr. simpl.
    change (Get url :: mid ++ ?l) with ([Get url] ++ mid ++ l).
    by rewrite !requests_app, Hr.
  - rewrite !sleeps_app, Rs. simpl.
    change (Get url :: mid ++ ?l) with ([Get url] ++ mid ++ l).
    by rewrite !sleeps_app, Hs.
  - rewrite !pbar_ticks_app, Rp. simpl.
    change (Get url :: mid ++ ?l) with ([Get url] ++ mid ++ l).
    rewrite !pbar_ticks_app, Hp. unfold pbar_ticks. simpl. lia.
Qed.

(** the views of the trace of a robots-blocked iteration *)
Lemma blocked_trace_views tr url :
  let r := mkRow url (VStr "robots_blocked") "" "" in
  let tr' := tr ++ [RobotsCheck url; CsvRow (log_path A) r;
                    MarkVisited url; PbarUpdate] in
  audit_log tr' = audit_log tr ++ [r] ∧
  requests tr' = requests tr ∧
  sleeps tr' = sleeps tr ∧
  pbar_ticks tr' = S (pbar_ticks tr).
Proof.
  simpl. rewrite audit_log_app, requests_app, sleeps_app, pbar_ticks_app.
  unfold pbar_ticks. simpl. rewrite !app_nil_r. split_and!; try done. lia.
Qed.

Lemma endswith_refl s : endswith s s = true.
Proof. destruct s; simpl; by rewrite ?Ascii.eqb_refl, ?String.eqb_refl. Qed.

Lemma inv_init : inv A (crawl_init W A).
Proof.
  assert (audit_log (trace (crawl_init W A)) = [] ∧
          requests (trace (crawl_init W A)) = [] ∧
          sleeps (trace (crawl_init W A)) = [] ∧
          pbar_ticks (trace (crawl_init W A)) = 0%nat) as (Ha & Hr & Hs & Hp).
  { unfold crawl_init. simpl.
    by destruct (log_exists W), (respect_robots A). }
  constructor; rewrite ?Ha, ?Hr, ?Hs, ?Hp; simpl; try done.
  - intros r Hin. inversion Hin.
  - constructor.
  - intros u Hin. inversion Hin.
  - constructor.
  - intros u l Hin. apply list_elem_of_singleton in Hin as [= -> ->].
    apply endswith_refl.
  - intros u l Hin. apply list_elem_of_singleton in Hin as [= -> ->].
    by eexists.
  - intros d Hin. inversion Hin.
  - lia.
Qed.

Lemma inv_iteration st :
  inv A st → loop_cond A st = true → inv A (iteration W A st).
Proof.
  intros I Hc.
  assert (processed st < max_pages A)%Z as Hlt.
  { unfold loop_cond in Hc. destruct (queue st); [done|]. lia. }
  destruct (iteration_cases W A st Hc) as (url & level & rest & Hq & Hcase).
  assert (∀ u l, (u, l) ∈ rest → in_scope A u = true) as Hrest.
  { intros u l Hin. apply (inv_scope_queue A st I u l). rewrite Hq. by right. }
  assert (in_scope A url = true) as Hurl.
  { apply (inv_scope_queue A st I url level). rewrite Hq. by left. }
  assert (∀ u l, (u, l) ∈ rest → ∃ x, u = normalize_url x) as Hnrest.
  { intros u l Hin. apply (inv_normal_queue A st I u l). rewrite Hq. by right. }
  assert (∃ x, url = normalize_url x) as Hnurl.
  { apply (inv_normal_queue A st I url level). rewrite Hq. by left. }
  destruct Hcase as [[_ ->] | [(Hv & Hl & Hb & ->) | (Hv & Hl & Hb & Hf)]].
  - destruct I. by constructor.
  - simpl. destruct (blocked_trace_views (trace st) url) as (Ea & Er & Es & Ep).
    simpl in Ea, Er, Es, Ep.
    destruct I. constructor; simpl; rewrite ?Ea, ?Er, ?Es, ?Ep; try done.
    + intros r Hin. apply elem_of_app in Hin as [Hin | Hin].
      * apply elem_of_union_r. by auto.
      * apply list_elem_of_singleton in Hin. subst r. simpl.
        apply elem_of_union_l. by apply elem_of_singleton.
    + rewrite fmap_app. apply NoDup_app. split_and!; [done| |by apply NoDup_singleton].
      intros u Hu Hu'. apply list_elem_of_singleton in Hu'. simpl in Hu'. subst u.
      apply list_elem_of_fmap in Hu as (r & Heq & Hr).
      apply Hv. rewrite Heq. by auto.
    + intros u Hu. apply elem_of_union_r. by auto.
    + intros u Hu. apply elem_of_union in Hu as [Hu | Hu]; [|by auto].
      apply elem_of_singleton in Hu. by subst u.
    + intros u Hu. apply elem_of_union in Hu as [Hu | Hu]; [|by auto].
      apply elem_of_singleton in Hu. by subst u.
    + rewrite length_app. simpl. lia.
    + rewrite filter_app, length_app. simpl. lia.
  - destruct Hf as (mid & new & r & -> & Hru & Hrb & Ha & Hr & Hs & Hp & Hnew).
    destruct (fetch_trace_views (trace st) url mid r Ha Hr Hs Hp)
      as (Ea & Er & Es & Ep).
    simpl in Ea, Er, Es, Ep.
    destruct I. constructor; simpl; rewrite ?Ea, ?Er, ?Es, ?Ep.
    + intros r' Hin. apply elem_of_app in Hin as [Hin | Hin].
      * apply elem_of_union_r. by auto.
      * apply list_elem_of_singleton in Hin. subst r'. rewrite Hru.
        apply elem_of_union_l. by apply elem_of_singleton.
    + rewrite fmap_app. apply NoDup_app. split_and!; [done| |by apply NoDup_singleton].
      intros u Hu Hu'. apply list_elem_of_singleton in Hu'. subst u.
      apply list_elem_of_fmap in Hu as (r' & Heq & Hr').
      apply Hv. rewrite <- Hru, Heq. by auto.
    + intros u Hin. apply elem_of_app in Hin as [Hin | Hin].
      * apply elem_of_union_r. by auto.
      * apply list_elem_of_singleton in Hin. subst u.
        apply elem_of_union_l. by apply elem_of_singleton.
    + apply NoDup_app. split_and!; [done| |by apply NoDup_singleton].
      intros u Hu Hu'. apply list_elem_of_singleton in Hu'. subst u.
      by apply Hv, inv_req_visited0.
    + intros u l Hin. apply elem_of_app in Hin as [Hin | Hin]; [by eauto|].
      destruct (Hnew u l Hin) as (Hadm & _).
      unfold passes_guard in Hadm. by apply andb_true_iff in Hadm as [_ ?].
    + intros u Hu. apply elem_of_union in Hu as [Hu | Hu]; [|by auto].
      apply elem_of_singleton in Hu. by subst u.
    + intros u l Hin. apply elem_of_app in Hin as [Hin | Hin]; [by eauto|].
      by destruct (Hnew u l Hin) as (_ & _ & _ & ?).
    + intros u Hu. apply elem_of_union in Hu as [Hu | Hu]; [|by auto].
      apply elem_of_singleton in Hu. by subst u.
    + rewrite length_app. simpl. lia.
    + rewrite !length_app. simpl. lia.
    + intros d Hin. apply elem_of_app in Hin as [Hin | Hin]; [by auto|].
      by apply list_elem_of_singleton in Hin.
    + rewrite length_app. simpl. lia.
    + rewrite filter_app, !length_app, filter_cons, decide_True by done.
      simpl. lia.
    + lia.
Qed.

(** every state of the loop satisfies the invariant *)
Lemma run_inv n : inv A (run W A n).
Proof.
  induction n as [|n IH]; [apply inv_init|].
  change (run W A (S n)) with (step W A (run W A n)). unfold step.
  destruct (loop_cond A (run W A n)) eqn:Hc; [|done].
  by apply inv_iteration.
Qed.

End Invariant.

(** ** Later turns of the loop *)

Section Steps.
Context (W : world) (A : crawl_args).

(** a turn only adds to the trace and to the visited set, and it
    requests and logs only URLs that were not visited before it *)
Lemma step_extends st :
  ∃ evs,
    trace (step W A st) = trace st ++ evs ∧
    visited st ⊆ visited (step W A st) ∧
    (∀ u, u ∈ requests evs → u ∉ visited st) ∧
    (∀ r, r ∈ audit_log evs → r_url r ∉ visited st).
Proof.
  unfold step. destruct (loop_cond A st) eqn:Hc.
  - destruct (iteration_cases W A st Hc) as (url & level & rest & Hq & Hcase).
    destruct Hcase as [[_ ->] | [(Hv & Hl & Hb & ->) | (Hv & Hl & Hb & Hf)]].
    + exists []. simpl. rewrite app_nil_r.
      split_and!; [done|done| |]; intros ? Hin; inversion Hin.
    + eexists. simpl. split; [reflexivity|].
      split_and!; [apply union_subseteq_r| |].
      * intros u Hin. inversion Hin.
      * intros r Hin. apply list_elem_of_singleton in Hin. by subst r.
    + destruct Hf as (mid & new & r & -> & Hru & Hrb & Ha & Hr & Hs & Hp & Hnew).
      eexists. simpl. split; [reflexivity|].
      destruct (robots_events_views A url) as (Ra & Rr & _).
      split_and!; [apply union_subseteq_r| |].
      * intros u. rewrite requests_app, Rr. simpl.
        change (Get url :: mid ++ ?l) with ([Get url] ++ mid ++ l).
        rewrite !requests_app, Hr. simpl.
        intros Hin. apply list_elem_of_singleton in Hin. by subst u.
      * intros r'. rewrite audit_log_app, Ra. simpl.
        change (Get url :: mid ++ ?l) with ([Get url] ++ mid ++ l).
        rewrite !audit_log_app, Ha. simpl.
        intros Hin. apply list_elem_of_singleton in Hin. subst r'. by rewrite Hru.
  - exists []. rewrite app_nil_r.
    split_and!; [done|done| |]; intros ? Hin; inversion Hin.
Qed.

Lemma steps_extends k st :
  ∃ evs,
    trace (steps W A k st) = trace st ++ evs ∧
    visited st ⊆ visited (steps W A k st) ∧
    (∀ u, u ∈ requests evs → u ∉ visited st) ∧
    (∀ r, r ∈ audit_log evs → r_url r ∉ visited st).
Proof.
  induction k as [|k (evs & Ht & Hsub & Hreq & Hlog)].
  - exists []. simpl. rewrite app_nil_r.
    split_and!; [done|done| |]; intros ? Hin; inversion Hin.
  - destruct (step_extends (steps W A k st)) as (evs' & Ht' & Hsub' & Hreq' & Hlog').
    exists (evs ++ evs'). simpl. rewrite Ht', Ht, <- app_assoc.
    split_and!; [done|by etrans| |].
    + intros u. rewrite requests_app. intros [Hin | Hin]%elem_of_app; [by auto|].
      intros Hv. by apply (Hreq' u Hin), Hsub.
    + intros r. rewrite audit_log_app. intros [Hin | Hin]%elem_of_app; [by auto|].
      intros Hv. by apply (Hlog' r Hin), Hsub.
Qed.

(** a visited URL is never requested or logged again *)
Lemma visited_is_final k st url :
  url ∈ visited st →
  ∃ evs,
    trace (steps W A k st) = trace st ++ evs ∧
    (url ∉ requests evs) ∧ (url ∉ (r_url <$> audit_log evs)).
Proof.
  intros Hv. destruct (steps_extends k st) as (evs & Ht & _ & Hreq & Hlog).
  exists evs. split_and!; [done| |].
  - intros Hin. by apply (Hreq url Hin).
  - intros (r & -> & Hin)%list_elem_of_fmap. by apply (Hlog r Hin).
Qed.

End Steps.

(** ** The outcome of a turn, case by case *)

Section Outcomes.
Context (W : world) (A : crawl_args).
Context (st : state) (url : string) (level : Z) (rest : list (string * Z)).
Hypothesis Hqueue : queue st = (url, level) :: rest.
Hypothesis Hcond : loop_cond A st = true.

Lemma step_iteration :
  step W A st =
    loop_body W A url level (mkState (visited st) rest (processed st) (trace st)).
Proof. unfold step, iteration. by rewrite Hcond, Hqueue. Qed.

Lemma step_discard :
  url ∈ visited st ∨ (depth A < level)%Z →
  step W A st = mkState (visited st) rest (processed st) (trace st).
Proof. intros H. rewrite step_iteration. by apply loop_body_discard. Qed.

Lemma step_blocked :
  (url ∉ visited st) → (level ≤ depth A)%Z → blocked W A url = true →
  step W A st =
    mkState ({[url]} ∪ visited st) rest (processed st)
      (trace st ++
       [RobotsCheck url;
        CsvRow (log_path A) (mkRow url (VStr "robots_blocked") "" "");
        MarkVisited url; PbarUpdate]).
Proof. intros. rewrite step_iteration. by rewrite loop_body_blocked. Qed.

Lemma step_raised exc_name :
  (url ∉ visited st) → (level ≤ depth A)%Z → blocked W A url = false →
  session_get W (the_session A) (trace st ++ robots_events A url) url
    = Raised exc_name →
  step W A st =
    mkState ({[url]} ∪ visited st) rest (processed st + 1)%Z
      (trace st ++ robots_events A url ++
       [Get url;
        CsvRow (log_path A) (mkRow url (VStr ("error:" +:+ exc_name)) "" "");
        MarkVisited url; PbarUpdate; Sleep (delay A)]).
Proof.
  intros Hv Hl Hb Hget. rewrite step_iteration, loop_body_fetch by done.
  simpl. rewrite (fetch_raised W A _ _ _ exc_name) by done. simpl.
  f_equal. by simplify_list_eq.
Qed.

Lemma step_not_html resp :
  (url ∉ visited st) → (level ≤ depth A)%Z → blocked W A url = false →
  session_get W (the_session A) (trace st ++ robots_events A url) url
    = Returned resp →
  is_html_200 (status_code resp) (default "" (header_content_type resp)) = false →
  step W A st =
    mkState ({[url]} ∪ visited st) rest (processed st + 1)%Z
      (trace st ++ robots_events A url ++
       [Get url;
        CsvRow (log_path A)
          (mkRow url (VInt (status_code resp))
             (default "" (header_content_type resp)) "");
        MarkVisited url; PbarUpdate; Sleep (delay A)]).
Proof.
  intros Hv Hl Hb Hget Hc. rewrite step_iteration, loop_body_fetch by done.
  simpl. rewrite (fetch_not_html W A _ _ _ resp) by done. simpl.
  f_equal. by simplify_list_eq.
Qed.

Lemma step_html resp :
  (url ∉ visited st) → (level ≤ depth A)%Z → blocked W A url = false →
  session_get W (the_session A) (trace st ++ robots_events A url) url
    = Returned resp →
  is_html_200 (status_code resp) (default "" (header_content_type resp)) = true →
  let saved_file := save_html_path (output_dir A) url in
  let links := page_links W A url level (visited st) resp in
  step W A st =
    mkState ({[url]} ∪ visited st)
      (rest ++ ((λ l, (l, (level + 1)%Z)) <$> links))
      (processed st + 1)%Z
      (trace st ++ robots_events A url ++
       [Get url; WriteFile saved_file (content resp)] ++
       ((λ l, Enqueue l (level + 1)%Z) <$> links) ++
       [CsvRow (log_path A)
          (mkRow url (VInt (status_code resp))
             (default "" (header_content_type resp)) saved_file);
        MarkVisited url; PbarUpdate; Sleep (delay A)]).
Proof.
  intros Hv Hl Hb Hget Hc. rewrite step_iteration, loop_body_fetch by done.
  simpl. rewrite (fetch_html W A _ _ _ resp) by done. simpl.
  f_equal. by simplify_list_eq.
Qed.

End Outcomes.

(** ** Reading the views off the trace of a turn *)

Section ViewFacts.
Context (A : crawl_args).

Lemma saved_files_app tr1 tr2 :
  saved_files (tr1 ++ tr2) = saved_files tr1 ++ saved_files tr2.
Proof. apply omap_app. Qed.

Lemma enqueued_app tr1 tr2 :
  enqueued (tr1 ++ tr2) = enqueued tr1 ++ enqueued tr2.
Proof. apply omap_app. Qed.

Lemma robots_events_more url :
  saved_files (robots_events A url) = [] ∧ enqueued (robots_events A url) = [].
Proof. unfold robots_events. by destruct (respect_robots A). Qed.

Lemma enqueue_events_views (links : list string) (lv : Z) :
  let evs := (λ l, Enqueue l lv) <$> links in
  audit_log evs = [] ∧ requests evs = [] ∧ sleeps evs = [] ∧
  saved_files evs = [] ∧ enqueued evs = (λ l, (l, lv)) <$> links.
Proof.
  simpl. induction links as [|l links (Ha & Hr & Hs & Hf & He)]; [done|].
  split_and!; try done. rewrite fmap_cons. unfold enqueued at 1.
  simpl. f_equal. exact He.
Qed.

(** the views of a turn that ends in the tail of the loop body *)
Lemma fetch_turn_views tr url file data links lv r :
  let tr' := tr ++ robots_events A url ++
             [Get url; WriteFile file data] ++
             ((λ l, Enqueue l lv) <$> links) ++
             [CsvRow (log_path A) r; MarkVisited url; PbarUpdate;
              Sleep (delay A)] in
  audit_log tr' = audit_log tr ++ [r] ∧
  requests tr' = requests tr ++ [url] ∧
  sleeps tr' = sleeps tr ++ [delay A] ∧
  saved_files tr' = saved_files tr ++ [(file, data)] ∧
  enqueued tr' = enqueued tr ++ ((λ l, (l, lv)) <$> links).
Proof.
  simpl.
  destruct (robots_events_views A url) as (Ra & Rr & Rs & _).
  destruct (robots_events_more url) as (Rf & Re).
  destruct (enqueue_events_views links lv) as (Ha & Hr & Hs & Hf & He).
  simpl in Ha, Hr, Hs, Hf, He.
  change (Get url :: WriteFile file data :: ?l) with ([Get url; WriteFile file data] ++ l).
  rewrite !audit_log_app, !requests_app, !sleeps_app, !saved_files_app,
    !enqueued_app, Ra, Rr, Rs, Rf, Re, Ha, Hr, Hs, Hf, He.
  simpl. by rewrite !app_nil_r.
Qed.

Lemma plain_turn_views tr url r :
  let tr' := tr ++ robots_events A url ++
             [Get url; CsvRow (log_path A) r; MarkVisited url; PbarUpdate;
              Sleep (delay A)] in
  audit_log tr' = audit_log tr ++ [r] ∧
  requests tr' = requests tr ++ [url] ∧
  sleeps tr' = sleeps tr ++ [delay A] ∧
  saved_files tr' = saved_files tr ∧
  enqueued tr' = enqueued tr.
Proof.
  simpl.
  destruct (robots_events_views A url) as (Ra & Rr & Rs & _).
  destruct (robots_events_more url) as (Rf & Re).
  rewrite !audit_log_app, !requests_app, !sleeps_app, !saved_files_app,
    !enqueued_app, Ra, Rr, Rs, Rf, Re.
  simpl. by rewrite !app_nil_r.
Qed.

Lemma save_html_fst output_dir url data st :
  fst (save_html output_dir url data st) = save_html_path output_dir url.
Proof. reflexivity. Qed.

End ViewFacts.

(** ** Specifications of the string tests *)

Lemma prefix_spec (p s : string) :
  String.prefix p s = true ↔ ∃ post, s = p +:+ post.
Proof.
  revert s. induction p as [|c p IH]; intros [|d s]; simpl.
  - split; [intros _; by exists "" | done].
  - split; [intros _; by exists (String d s) | done].
  - split; [discriminate | intros [post Hp]; discriminate].
  - destruct (ascii_dec c d) as [->|Hne].
    + rewrite IH. split; intros [post Hp]; exists post.
      * by rewrite Hp.
      * by injection Hp.
    + split; [discriminate|]. intros [post Hp]. injection Hp as Hcd _. by subst.
Qed.

Lemma str_in_cons (needle : string) (c : ascii) (hay : string) :
  str_in needle (String c hay) =
  String.prefix needle (String c hay) || str_in needle hay.
Proof. reflexivity. Qed.

Lemma str_in_spec (needle hay : string) :
  str_in needle hay = true ↔ ∃ pre post, hay = pre +:+ needle +:+ post.
Proof.
  induction hay as [|c hay IH].
  - change (str_in needle "") with (String.prefix needle "" || false).
    rewrite orb_false_r, prefix_spec. split.
    + intros [post Hp]. exists "", post. exact Hp.
    + intros (pre & post & Hp). destruct pre; [by exists post | discriminate].
  - rewrite str_in_cons, orb_true_iff, IH, prefix_spec. split.
    + intros [[post Hp] | (pre & post & Hp)].
      * exists "", post. exact Hp.
      * exists (String c pre), post. simpl. by rewrite Hp.
    + intros (pre & post & Hp). destruct pre as [|d pre].
      * left. by exists post.
      * right. simpl in Hp. injection Hp as _ Hp. by exists pre, post.
Qed.

Lemma endswith_cons (c : ascii) (s suffix : string) :
  endswith (String c s) suffix =
  String.eqb (String c s) suffix || endswith s suffix.
Proof. reflexivity. Qed.

Lemma endswith_spec (s suffix : string) :
  endswith s suffix = true ↔ ∃ pre, s = pre +:+ suffix.
Proof.
  induction s as [|c s IH].
  - change (endswith "" suffix) with (String.eqb "" suffix || false).
    rewrite orb_false_r, String.eqb_eq. split.
    + intros <-. by exists "".
    + intros (pre & Hp). destruct pre; [exact Hp | discriminate].
  - rewrite endswith_cons, orb_true_iff, IH, String.eqb_eq. split.
    + intros [<- | (pre & ->)]; [by exists "" | by exists (String c pre)].
    + intros (pre & Hp). destruct pre as [|d pre]; [by left|].
      right. simpl in Hp. injection Hp as _ Hp. by exists pre.
Qed.

Lemma append_nonempty_r (a b : string) : b ≠ "" → a +:+ b ≠ "".
Proof. intros Hb. destruct a; [done | discriminate]. Qed.

Lemma take_app_nonempty (n : nat) (s t : string) :
  t ≠ "" → take (S n) (s +:+ t) ≠ "".
Proof. intros Ht. destruct s; simpl; [destruct t; [done | discriminate] | discriminate]. Qed.

(** the path [save_html] returns is never the empty string, which is
    the [saved_file] of a response that was not saved *)
Lemma save_html_path_nonempty (output_dir url : string) :
  save_html_path output_dir url ≠ "".
Proof.
  unfold save_html_path, save_html. lazy beta zeta iota delta [fst].
  set (fname := take 200 _).
  assert (fname ≠ "") as Hf by (apply take_app_nonempty; discriminate).
  unfold os_path_join.
  destruct (startswith fname "/"); [done|].
  destruct (negb (nonempty output_dir) || endswith output_dir "/").
  - by apply append_nonempty_r.
  - apply append_nonempty_r. discriminate.
Qed.

Section OrderFacts.
Context (A : crawl_args).

Lemma marked_app tr1 tr2 : marked (tr1 ++ tr2) = marked tr1 ++ marked tr2.
Proof. apply omap_app. Qed.

Lemma robots_checked_app tr1 tr2 :
  robots_checked (tr1 ++ tr2) = robots_checked tr1 ++ robots_checked tr2.
Proof. apply omap_app. Qed.

Lemma robots_events_order url :
  marked (robots_events A url) = [] ∧
  robots_checked (robots_events A url) =
    (if respect_robots A then [url] else []).
Proof. unfold robots_events. by destruct (respect_robots A). Qed.

Lemma enqueue_events_order (links : list string) (lv : Z) :
  marked ((λ l, Enqueue l lv) <$> links) = [] ∧
  robots_checked ((λ l, Enqueue l lv) <$> links) = [].
Proof. induction links as [|l links [Hm Hr]]; done. Qed.

(** what precedes [visited.add(url)] in a turn that fetches *)
Lemma before_mark_views url mid r :
  marked mid = [] → robots_checked mid = [] →
  audit_log mid = [] → requests mid = [] → sleeps mid = [] →
  let before := robots_events A url ++ [Get url] ++ mid ++
                [CsvRow (log_path A) r] in
  marked before = [] ∧
  robots_checked before = (if respect_robots A then [url] else []) ∧
  requests before = [url] ∧ audit_log before = [r] ∧ sleeps before = [].
Proof.
  intros Hm Hc Ha Hr Hs. simpl.
  destruct (robots_events_order url) as (Rm & Rc).
  destruct (robots_events_views A url) as (Ra & Rr & Rs & _).
  change (Get url :: mid ++ ?l) with ([Get url] ++ mid ++ l).
  rewrite !marked_app, !robots_checked_app, !requests_app, !audit_log_app,
    !sleeps_app, Rm, Rc, Ra, Rr, Rs, Hm, Hc, Ha, Hr, Hs.
  simpl. by rewrite !app_nil_r.
Qed.

End OrderFacts.

(** ** The order of effects within a turn *)

Section TurnOrder.
Context (W : world) (A : crawl_args).

(** a turn that fetches: everything it does comes before
    [visited.add(url)], which is followed by the progress-bar tick and
    the sleep; the queue guard is evaluated on the visited set of the
    start of the turn *)
Lemma fetch_turn_order st url level rest :
  queue st = (url, level) :: rest → loop_cond A st = true →
  (url ∉ visited st) → (level ≤ depth A)%Z → blocked W A url = false →
  ∃ mid new r,
    step W A st =
      mkState ({[url]} ∪ visited st) (rest ++ new) (processed st + 1)%Z
        (trace st ++
         (robots_events A url ++ [Get url] ++ mid ++ [CsvRow (log_path A) r]) ++
         [MarkVisited url; PbarUpdate; Sleep (delay A)]) ∧
    r_url r = url ∧
    marked mid = [] ∧ robots_checked mid = [] ∧ audit_log mid = [] ∧
    requests mid = [] ∧ sleeps mid = [] ∧
    (∀ u l, (u, l) ∈ new → passes_guard A (visited st) u = true ∧ l = (level + 1)%Z).
Proof.
  intros Hq Hc Hv Hl Hb.
  destruct (session_get W (the_session A) (trace st ++ robots_events A url) url)
    as [resp|exc] eqn:Hget.
  - destruct (is_html_200 (status_code resp)
                (default "" (header_content_type resp))) eqn:Hhtml.
    + pose proof (step_html W A st url level rest Hq Hc resp Hv Hl Hb Hget Hhtml)
        as Hs. simpl in Hs.
      set (links := page_links W A url level (visited st) resp) in *.
      eexists (WriteFile (save_html_path (output_dir A) url) (content resp) ::
                ((λ l, Enqueue l (level + 1)%Z) <$> links)),
             ((λ l, (l, (level + 1)%Z)) <$> links), _.
      split; [rewrite Hs; f_equal; by simplify_list_eq|].
      destruct (enqueue_events_views links (level + 1)) as (Ea & Er & Es & _ & _).
      destruct (enqueue_events_order links (level + 1)) as (Em & Ec).
      simpl in Ea, Er, Es.
      split_and!; try done.
      intros u l (x & [= -> ->] & Hx)%list_elem_of_fmap. split; [|done].
      unfold links, page_links in Hx.
      destruct (level <? depth A)%Z; [|by inversion Hx].
      unfold accepted in Hx. by apply list_elem_of_filter in Hx as [? _].
    + pose proof (step_not_html W A st url level rest Hq Hc resp Hv Hl Hb Hget Hhtml)
        as Hs.
      eexists [], [], _. rewrite app_nil_r.
      split; [rewrite Hs; f_equal; by simplify_list_eq|].
      split_and!; try done. intros ? ? Hin. inversion Hin.
  - pose proof (step_raised W A st url level rest Hq Hc exc Hv Hl Hb Hget) as Hs.
    eexists [], [], _. rewrite app_nil_r.
    split; [rewrite Hs; f_equal; by simplify_list_eq|].
    split_and!; try done. intros ? ? Hin. inversion Hin.
Qed.

(** the sleeps of a run are one per request, each of the configured
    delay *)
Lemma one_sleep_per_request n :
  sleeps (trace (run W A n)) =
  replicate (length (requests (trace (run W A n)))) (delay A).
Proof.
  pose proof (run_inv W A n) as I.
  rewrite <- (inv_sleeps_len A _ I).
  pose proof (inv_sleeps_val A _ I) as Hval.
  induction (sleeps (trace (run W A n))) as [|d l IH]; [done|].
  simpl. f_equal.
  - apply Hval. by left.
  - apply IH. intros d' Hd'. apply Hval. by right.
Qed.

End TurnOrder.

(** ** Facts about the string operations *)

Ltac ascii_cases c := destruct c as [[] [] [] [] [] [] [] []].

Lemma str_app_cons (x : ascii) (a b : string) :
  String x a +:+ b = String x (a +:+ b).
Proof. reflexivity. Qed.

Lemma str_app_nil_l (b : string) : "" +:+ b = b.
Proof. reflexivity. Qed.

Ltac ssimpl := rewrite ?str_app_cons, ?str_app_nil_l; simpl.

Lemma str_app_assoc (a b c : string) : (a +:+ b) +:+ c = a +:+ b +:+ c.
Proof. induction a as [|x a IH]; [done|]. rewrite !str_app_cons. by rewrite IH. Qed.

Lemma str_app_nil_r (a : string) : a +:+ "" = a.
Proof. induction a as [|x a IH]; [done|]. rewrite !str_app_cons. by rewrite IH. Qed.

Lemma all_chars_app p a b :
  all_chars p (a +:+ b) = all_chars p a && all_chars p b.
Proof.
  induction a as [|x a IH]; [done|]. ssimpl. rewrite IH. by rewrite andb_assoc.
Qed.

Lemma all_chars_impl (p q : ascii → bool) s :
  (∀ c, p c = true → q c = true) → all_chars p s = true → all_chars q s = true.
Proof.
  intros Hpq. induction s as [|x s IH]; [done|]. ssimpl.
  intros [Hx Hs]%andb_true_iff. by rewrite (Hpq x Hx), IH.
Qed.

Lemma contains_app c a b : contains c (a +:+ b) = contains c a || contains c b.
Proof.
  induction a as [|x a IH]; [done|]. ssimpl. rewrite IH. by rewrite orb_assoc.
Qed.

(** a string of characters satisfying [p] holds no character outside [p] *)
Lemma all_chars_contains p c s :
  p c = false → all_chars p s = true → contains c s = false.
Proof.
  intros Hc. induction s as [|x s IH]; [done|]. ssimpl.
  intros [Hx Hs]%andb_true_iff. rewrite (IH Hs), orb_false_r.
  destruct (Ascii.eqb_spec x c) as [->|]; [congruence | done].
Qed.

Lemma partition_some c s a b :
  partition c s = Some (a, b) → s = a +:+ String c b ∧ contains c a = false.
Proof.
  revert a. induction s as [|x s IH]; intros a; ssimpl; [done|].
  destruct (Ascii.eqb_spec x c) as [->|Hne].
  - by intros [= <- <-].
  - destruct (partition c s) as [[a' b']|]; [|done].
    intros [= <- <-]. destruct (IH a' eq_refl) as [-> Ha'].
    split; [done|]. ssimpl. rewrite Ha', orb_false_r.
    by apply Ascii.eqb_neq.
Qed.

Lemma partition_none c s : contains c s = false → partition c s = None.
Proof.
  induction s as [|x s IH]; ssimpl; [done|].
  intros [Hx Hs]%orb_false_iff. by rewrite Hx, (IH Hs).
Qed.

Lemma partition_none_inv c s : partition c s = None → contains c s = false.
Proof.
  induction s as [|x s IH]; ssimpl; [done|].
  destruct (Ascii.eqb x c); [done|].
  destruct (partition c s) as [[a b]|]; [done|]. intros _. by apply IH.
Qed.

Lemma partition_app c a b :
  contains c a = false → partition c (a +:+ String c b) = Some (a, b).
Proof.
  induction a as [|x a IH]; ssimpl.
  - intros _. by rewrite Ascii.eqb_refl.
  - intros [Hx Ha]%orb_false_iff. by rewrite Hx, (IH Ha).
Qed.

Lemma partition_app_l c s t a b :
  partition c s = Some (a, b) → partition c (s +:+ t) = Some (a, b +:+ t).
Proof.
  intros [-> Ha]%partition_some.
  rewrite str_app_assoc. ssimpl. by apply partition_app.
Qed.

Lemma span_until_spec p s :
  let '(a, b) := span_until p s in
  s = a +:+ b ∧ all_chars (λ c, negb (p c)) a = true ∧
  match b with "" => True | String d _ => p d = true end.
Proof.
  induction s as [|x s IH]; ssimpl; [done|].
  destruct (p x) eqn:Hx; [done|].
  destruct (span_until p s) as [a b]. destruct IH as (-> & Ha & Hb).
  ssimpl. by rewrite Hx.
Qed.

Lemma span_until_app p a b :
  all_chars (λ c, negb (p c)) a = true →
  match b with "" => True | String d _ => p d = true end →
  span_until p (a +:+ b) = (a, b).
Proof.
  intros Ha Hb. induction a as [|x a IH]; ssimpl.
  - destruct b as [|d b]; [done|]. ssimpl. by rewrite Hb.
  - simpl in Ha. apply andb_true_iff in Ha as [Hx Ha].
    apply negb_true_iff in Hx. by rewrite Hx, (IH Ha).
Qed.

(** appending text that starts with a delimiter does not move the split *)
Lemma span_until_app_tail p s d t :
  p d = true →
  span_until p (s +:+ String d t) =
    (fst (span_until p s), snd (span_until p s) +:+ String d t).
Proof.
  intros Hd. induction s as [|x s IH]; ssimpl.
  - by rewrite Hd.
  - destruct (p x); [done|]. rewrite IH. by destruct (span_until p s).
Qed.

Lemma remove_chars_app p a b :
  remove_chars p (a +:+ b) = remove_chars p a +:+ remove_chars p b.
Proof.
  induction a as [|x a IH]; [done|]. ssimpl. rewrite IH. by destruct (p x).
Qed.

Lemma remove_chars_cons_keep p d t :
  p d = false → remove_chars p (String d t) = String d (remove_chars p t).
Proof. intros Hd. simpl. by rewrite Hd. Qed.

Lemma remove_chars_clean p s : all_chars (λ c, negb (p c)) (remove_chars p s) = true.
Proof.
  induction s as [|x s IH]; [done|]. ssimpl.
  destruct (p x) eqn:Hx; [done|]. ssimpl. by rewrite Hx.
Qed.

Lemma remove_chars_id p s :
  all_chars (λ c, negb (p c)) s = true → remove_chars p s = s.
Proof.
  induction s as [|x s IH]; [done|]. ssimpl.
  intros [Hx Hs]%andb_true_iff. apply negb_true_iff in Hx.
  by rewrite Hx, (IH Hs).
Qed.

Lemma remove_chars_contains p c s :
  contains c s = false → contains c (remove_chars p s) = false.
Proof.
  induction s as [|x s IH]; [done|]. ssimpl.
  intros [Hx Hs]%orb_false_iff. destruct (p x); [by apply IH|].
  ssimpl. by rewrite Hx, (IH Hs).
Qed.

Lemma lstrip_app_tail p s d t :
  p d = false → lstrip p (s +:+ String d t) = lstrip p s +:+ String d t.
Proof.
  intros Hd. induction s as [|x s IH]; ssimpl.
  - by rewrite Hd.
  - by destruct (p x).
Qed.

Lemma lstrip_contains p c s :
  contains c s = false → contains c (lstrip p s) = false.
Proof.
  induction s as [|x s IH]; [done|]. ssimpl.
  intros [Hx Hs]%orb_false_iff. destruct (p x); [by apply IH|].
  ssimpl. by rewrite Hx, Hs.
Qed.

Lemma lower_char_idem c : lower_char (lower_char c) = lower_char c.
Proof. ascii_cases c; reflexivity. Qed.

Lemma lower_idem s : lower (lower s) = lower s.
Proof.
  induction s as [|x s IH]; [done|]. ssimpl. by rewrite lower_char_idem, IH.
Qed.

Lemma nonempty_true s : nonempty s = true ↔ s ≠ "".
Proof. unfold nonempty. rewrite negb_true_iff. apply String.eqb_neq. Qed.

Lemma or_else_nonempty a b : b ≠ "" → or_else a b ≠ "".
Proof.
  intros Hb. unfold or_else. destruct (nonempty a) eqn:Ha; [|done].
  by apply nonempty_true.
Qed.

Lemma or_else_id a b : a ≠ "" → or_else a b = a.
Proof. intros Ha. unfold or_else. by rewrite (proj2 (nonempty_true a) Ha). Qed.

(** ** Facts about the character classes *)

Import UrlStages.

Lemma scheme_char_safe c : scheme_char c = true → unsafe_url_byte c = false.
Proof. ascii_cases c; vm_compute; intros H; first [reflexivity | discriminate H]. Qed.

Lemma scheme_char_not_delim c : scheme_char c = true → netloc_delim c = false.
Proof. ascii_cases c; vm_compute; intros H; first [reflexivity | discriminate H]. Qed.

Lemma scheme_char_lower c : scheme_char c = true → scheme_char (lower_char c) = true.
Proof. ascii_cases c; vm_compute; intros H; first [reflexivity | discriminate H]. Qed.

Lemma alpha_lower c : is_ascii_alpha c = true → is_ascii_alpha (lower_char c) = true.
Proof. ascii_cases c; vm_compute; intros H; first [reflexivity | discriminate H]. Qed.

Lemma alpha_not_c0 c : is_ascii_alpha c = true → c0_control_or_space c = false.
Proof. ascii_cases c; vm_compute; intros H; first [reflexivity | discriminate H]. Qed.

Lemma delim_not_c0 c : netloc_delim c = true → c0_control_or_space c = false.
Proof. ascii_cases c; vm_compute; intros H; first [reflexivity | discriminate H]. Qed.

Lemma delim_safe c : netloc_delim c = true → unsafe_url_byte c = false.
Proof. ascii_cases c; vm_compute; intros H; first [reflexivity | discriminate H]. Qed.

Lemma delim_not_scheme_char c : netloc_delim c = true → scheme_char c = false.
Proof. ascii_cases c; vm_compute; intros H; first [reflexivity | discriminate H]. Qed.

Lemma delim_cases c :
  netloc_delim c = true → c = "/"%char ∨ c = "?"%char ∨ c = "#"%char.
Proof.
  unfold netloc_delim. rewrite !orb_true_iff, !Ascii.eqb_eq. tauto.
Qed.

Lemma lower_safe c : unsafe_url_byte c = false → unsafe_url_byte (lower_char c) = false.
Proof. ascii_cases c; vm_compute; intros H; first [reflexivity | discriminate H]. Qed.

(** ** [urlsplit] and [urlparse], stage by stage *)

Lemma urlsplit_stages url :
  urlsplit url =
    let '(scheme, netloc, rest) := url_head url in
    let '(path, query, fragment) := split_tail rest in
    mkSplit scheme netloc path query fragment.
Proof.
  unfold urlsplit, url_head, split_tail.
  destruct (split_scheme _) as [s r].
  destruct (if String.eqb (take 2 r) "//" then _ else _) as [n r2].
  destruct (partition "#" r2) as [[a b]|];
    [destruct (partition "?" a) as [[a' b']|] | destruct (partition "?" r2) as [[a' b']|]];
    reflexivity.
Qed.

Lemma urlparse_stages url :
  urlparse url =
    let r := urlsplit url in
    let '(path, params) := params_step (s_scheme r) (s_path r) in
    mkParse (s_scheme r) (s_netloc r) path params (s_query r) (s_fragment r).
Proof. reflexivity. Qed.

(** *** The scheme *)

Lemma good_scheme_lower c0 pre :
  is_ascii_alpha c0 = true → all_chars scheme_char (String c0 pre) = true →
  good_scheme (lower (String c0 pre)) = true.
Proof.
  intros Ha Hs. unfold good_scheme.
  rewrite lower_idem, String.eqb_refl, andb_true_r.
  apply andb_true_iff. split; [by apply alpha_lower|].
  clear Ha. induction (String c0 pre) as [|x s IH]; [done|].
  simpl in *. apply andb_true_iff in Hs as [Hx Hs].
  by rewrite (scheme_char_lower x Hx), (IH Hs).
Qed.

Lemma split_scheme_spec url :
  let '(s, r) := split_scheme url in
  (s = "" ∧ r = url) ∨
  (good_scheme s = true ∧ ∃ s0, url = s0 +:+ String ":" r).
Proof.
  unfold split_scheme.
  destruct (partition ":" url) as [[[|c0 pre] rest]|] eqn:Hp; try by left.
  destruct (is_ascii_alpha c0 && all_chars scheme_char (String c0 pre)) eqn:Hc;
    [|by left].
  apply andb_true_iff in Hc as [Ha Hs]. right.
  split; [by apply good_scheme_lower|].
  apply partition_some in Hp as [-> _]. by eexists.
Qed.

Lemma good_scheme_inv s :
  good_scheme s = true →
  ∃ c0 pre, s = String c0 pre ∧ is_ascii_alpha c0 = true ∧
            all_chars scheme_char s = true ∧ lower s = s.
Proof.
  unfold good_scheme. intros [[Ha Hs]%andb_true_iff He%String.eqb_eq]%andb_true_iff.
  destruct s as [|c0 pre]; [done|]. by exists c0, pre.
Qed.

Lemma good_scheme_nonempty s : good_scheme s = true → s ≠ "".
Proof. by intros (c0 & pre & -> & _)%good_scheme_inv. Qed.

Lemma split_scheme_built s r :
  good_scheme s = true → split_scheme (s +:+ String ":" r) = (s, r).
Proof.
  intros (c0 & pre & -> & Ha & Hs & Hl)%good_scheme_inv.
  unfold split_scheme. rewrite partition_app.
  - by rewrite Ha, Hs, Hl.
  - by apply (all_chars_contains scheme_char).
Qed.

(** text starting with a delimiter, appended to the URL, stays out of
    the scheme *)
Lemma split_scheme_app_tail url d t :
  netloc_delim d = true →
  split_scheme (url +:+ String d t) =
    (fst (split_scheme url), snd (split_scheme url) +:+ String d t).
Proof.
  intros Hd. unfold split_scheme.
  destruct (partition ":" url) as [[pre rest]|] eqn:Hp.
  - rewrite (partition_app_l _ _ _ _ _ Hp).
    destruct pre as [|c0 pre]; [done|].
    by destruct (is_ascii_alpha c0 && all_chars scheme_char (String c0 pre)).
  - apply partition_none_inv in Hp.
    destruct (partition ":" (url +:+ String d t)) as [[pre rest]|] eqn:Hp2; [|done].
    destruct pre as [|c0 pre]; [done|].
    apply partition_some in Hp2 as [Heq Hpre].
    assert (all_chars scheme_char (String c0 pre) = false) as ->;
      [|by rewrite andb_false_r].
    apply not_true_is_false. intros Hall.
    (* [pre] would be a prefix of [url], which has no colon *)
    assert (∀ u p, contains ":" u = false → all_chars scheme_char p = true →
                   u +:+ String d t = p +:+ String ":" rest → False) as Habs.
    { clear -Hd. induction u as [|x u IH]; intros p Hu Hp Heq.
      - destruct p as [|y p]; [by injection Heq as -> _|].
        injection Heq as -> _. simpl in Hp.
        by rewrite (delim_not_scheme_char _ Hd) in Hp.
      - destruct p as [|y p].
        + injection Heq as -> _. simpl in Hu. discriminate Hu.
        + injection Heq as -> Heq. simpl in Hu, Hp.
          apply orb_false_iff in Hu as [_ Hu]. apply andb_true_iff in Hp as [_ Hp].
          by apply (IH p). }
    by apply (Habs url (String c0 pre)).
Qed.

(** *** The netloc *)

Lemma contains_drop c n s : contains c s = false → contains c (drop n s) = false.
Proof.
  revert s. induction n as [|n IH]; intros [|x s]; simpl; try done.
  intros [_ Hs]%orb_false_iff. by apply IH.
Qed.

Lemma all_chars_drop p n s : all_chars p s = true → all_chars p (drop n s) = true.
Proof.
  revert s. induction n as [|n IH]; intros [|x s]; simpl; try done.
  intros [_ Hs]%andb_true_iff. by apply IH.
Qed.

Lemma span_until_all_chars p q s :
  all_chars q s = true →
  all_chars q (fst (span_until p s)) = true ∧
  all_chars q (snd (span_until p s)) = true.
Proof.
  intros Hs. pose proof (span_until_spec p s) as H.
  destruct (span_until p s) as [a b]. destruct H as (-> & _ & _).
  rewrite all_chars_app in Hs. by apply andb_true_iff in Hs.
Qed.

Lemma span_until_contains p c s :
  contains c s = false →
  contains c (fst (span_until p s)) = false ∧
  contains c (snd (span_until p s)) = false.
Proof.
  intros Hs. pose proof (span_until_spec p s) as H.
  destruct (span_until p s) as [a b]. destruct H as (-> & _ & _).
  rewrite contains_app in Hs. by apply orb_false_iff in Hs.
Qed.

Lemma split_scheme_all_chars p url :
  all_chars p url = true → all_chars p (snd (split_scheme url)) = true.
Proof.
  intros Hu. pose proof (split_scheme_spec url) as H.
  destruct (split_scheme url) as [s r]. simpl.
  destruct H as [[_ ->] | (_ & s0 & ->)]; [done|].
  rewrite all_chars_app in Hu. apply andb_true_iff in Hu as [_ Hu].
  simpl in Hu. by apply andb_true_iff in Hu as [_ Hu].
Qed.

Lemma split_scheme_contains c url :
  contains c url = false → contains c (snd (split_scheme url)) = false.
Proof.
  intros Hu. pose proof (split_scheme_spec url) as H.
  destruct (split_scheme url) as [s r]. simpl.
  destruct H as [[_ ->] | (_ & s0 & ->)]; [done|].
  rewrite contains_app in Hu. apply orb_false_iff in Hu as [_ Hu].
  simpl in Hu. by apply orb_false_iff in Hu as [_ Hu].
Qed.

(** what [url_head] returns, for any input *)
Lemma url_head_spec url :
  let '(s, n, r) := url_head url in
  (s = "" ∨ good_scheme s = true) ∧
  no_delim n = true ∧ clean n = true ∧ clean r = true ∧
  (n ≠ "" → starts_with_char netloc_delim r = true) ∧
  (∀ c, contains c url = false → contains c n = false ∧ contains c r = false).
Proof.
  unfold url_head.
  set (u1 := remove_chars unsafe_url_byte (lstrip c0_control_or_space url)).
  assert (clean u1 = true) as Hclean by apply remove_chars_clean.
  assert (∀ c, contains c url = false → contains c u1 = false) as Hcont.
  { intros c Hc. by apply remove_chars_contains, lstrip_contains. }
  pose proof (split_scheme_spec u1) as Hs.
  pose proof (split_scheme_all_chars _ u1 Hclean) as Hrc.
  pose proof (λ c, split_scheme_contains c u1) as Hrn.
  destruct (split_scheme u1) as [s r]. simpl in Hrc, Hrn.
  assert (s = "" ∨ good_scheme s = true) as Hgood.
  { destruct Hs as [[-> _] | [? _]]; [by left | by right]. }
  destruct (String.eqb (take 2 r) "//").
  - unfold splitnetloc.
    pose proof (span_until_spec netloc_delim (drop 2 r)) as Hsp.
    pose proof (span_until_all_chars netloc_delim _ (drop 2 r)
                  (all_chars_drop _ 2 r Hrc)) as [Hcn Hcr].
    pose proof (λ c H, span_until_contains netloc_delim c (drop 2 r)
                         (contains_drop c 2 r H)) as Hcc.
    destruct (span_until netloc_delim (drop 2 r)) as [n r2].
    destruct Hsp as (_ & Hn & Hr2). simpl in Hcn, Hcr, Hcc.
    split_and!; try done.
    + intros _. by destruct r2.
    + intros c Hc. by apply Hcc, Hrn, Hcont.
  - split_and!; try done. intros c Hc. split; [done|]. by apply Hrn, Hcont.
Qed.

Lemma take2_slashes r :
  String.eqb (take 2 r) "//" = true → ∃ r', r = String "/" (String "/" r').
Proof.
  intros H%String.eqb_eq. destruct r as [|x [|y r']]; try discriminate H.
  injection H as -> ->. by eexists.
Qed.

Lemma take2_app_tail r d t :
  Ascii.eqb d "/" = false →
  String.eqb (take 2 (r +:+ String d t)) "//" = String.eqb (take 2 r) "//".
Proof.
  intros Hd. destruct r as [|x [|y r']]; [| |reflexivity].
  - transitivity false; [|reflexivity].
    apply String.eqb_neq. intros H. destruct t; [discriminate H|].
    injection H as -> _. discriminate Hd.
  - transitivity false.
    + apply String.eqb_neq. intros H. injection H as _ ->. discriminate Hd.
    + symmetry. apply String.eqb_neq. intros H. discriminate H.
Qed.

(** text starting with [?] or [#], appended to the URL, ends up after
    the netloc *)
Lemma url_head_app_tail url d t :
  netloc_delim d = true → Ascii.eqb d "/" = false →
  url_head (url +:+ String d t) =
    let '(s, n, r) := url_head url in
    (s, n, r +:+ String d (remove_chars unsafe_url_byte t)).
Proof.
  intros Hd Hslash. unfold url_head.
  rewrite (lstrip_app_tail _ _ _ _ (delim_not_c0 d Hd)), remove_chars_app.
  rewrite (remove_chars_cons_keep _ d t (delim_safe d Hd)).
  rewrite (split_scheme_app_tail _ _ _ Hd).
  destruct (split_scheme _) as [s r]. cbn [fst snd].
  rewrite (take2_app_tail _ _ _ Hslash).
  destruct (String.eqb (take 2 r) "//") eqn:H2; [|done].
  apply take2_slashes in H2 as [r' ->].
  unfold splitnetloc. rewrite !str_app_cons. cbn [drop].
  rewrite (span_until_app_tail _ _ _ _ Hd).
  by destruct (span_until netloc_delim r').
Qed.

Lemma good_scheme_clean s : good_scheme s = true → clean s = true.
Proof.
  intros (c0 & pre & _ & _ & Hs & _)%good_scheme_inv.
  unfold clean. apply (all_chars_impl scheme_char); [|done].
  intros c Hc. by rewrite (scheme_char_safe c Hc).
Qed.

(** the head of [scheme://rest] *)
Lemma url_head_built s r0 :
  good_scheme s = true → clean r0 = true →
  url_head (s +:+ "://" +:+ r0) =
    (s, fst (span_until netloc_delim r0), snd (span_until netloc_delim r0)).
Proof.
  intros Hs Hr. unfold url_head.
  assert (lstrip c0_control_or_space (s +:+ "://" +:+ r0) = s +:+ "://" +:+ r0) as ->.
  { destruct (good_scheme_inv s Hs) as (c0 & pre & -> & Ha & _).
    rewrite str_app_cons. simpl. by rewrite (alpha_not_c0 c0 Ha). }
  rewrite remove_chars_id.
  2:{ change (clean (s +:+ "://" +:+ r0) = true). unfold clean.
      rewrite !all_chars_app. apply andb_true_iff. split; [by apply good_scheme_clean|].
      apply andb_true_iff. split; [done|exact Hr]. }
  change (s +:+ "://" +:+ r0) with (s +:+ String ":" (String "/" (String "/" r0))).
  rewrite (split_scheme_built s _ Hs). simpl.
  unfold splitnetloc. simpl. by destruct (span_until netloc_delim r0).
Qed.

(** *** Path, query and fragment *)

Lemma partition_head c d s a b :
  partition c (String d s) = Some (a, b) →
  (Ascii.eqb d c = true ∧ a = "") ∨
  (Ascii.eqb d c = false ∧ ∃ a', a = String d a').
Proof.
  simpl. destruct (Ascii.eqb d c); [intros [= <- _]; by left|].
  destruct (partition c s) as [[a' b']|]; [|done].
  intros [= <- _]. right. split; [done | by eexists].
Qed.

Lemma partition_all_chars p c s a b :
  partition c s = Some (a, b) → all_chars p s = true →
  all_chars p a = true ∧ all_chars p b = true.
Proof.
  intros [-> _]%partition_some. rewrite all_chars_app. simpl.
  intros [Ha [_ Hb]%andb_true_iff]%andb_true_iff. done.
Qed.

Lemma partition_contains c e s a b :
  partition c s = Some (a, b) → contains e s = false →
  contains e a = false ∧ contains e b = false.
Proof.
  intros [-> _]%partition_some. rewrite contains_app. simpl.
  intros [Ha [_ Hb]%orb_false_iff]%orb_false_iff. done.
Qed.

Lemma split_tail_spec r :
  let '(p, q, f) := split_tail r in
  contains "?" p = false ∧ contains "#" p = false ∧ contains "#" q = false ∧
  (∀ P, all_chars P r = true → all_chars P p = true) ∧
  (starts_with_char netloc_delim r = true → p = "" ∨ rooted p = true).
Proof.
  unfold split_tail.
  assert (∀ a, contains "#" a = false →
               (starts_with_char netloc_delim a = true) →
               let '(p, q) := match partition "?" a with
                              | Some (x, y) => (x, y) | None => (a, "") end in
               contains "?" p = false ∧ contains "#" p = false ∧
               contains "#" q = false ∧
               (∀ P, all_chars P a = true → all_chars P p = true) ∧
               (p = "" ∨ rooted p = true)) as Hq.
  { intros a Ha Hst. destruct (partition "?" a) as [[x y]|] eqn:Hp.
    - destruct (partition_contains _ "#" _ _ _ Hp Ha) as [Hx Hy].
      destruct (partition_some _ _ _ _ Hp) as [_ Hx'].
      split_and!; try done.
      + intros P HP. by destruct (partition_all_chars P _ _ _ _ Hp HP).
      + destruct a as [|d a']; [done|].
        destruct (partition_head _ _ _ _ _ Hp) as [[_ ->] | [Hd [x' ->]]]; [by left|].
        right. simpl in Hst. simpl.
        destruct (delim_cases d Hst) as [-> | [-> | ->]]; done.
    - apply partition_none_inv in Hp. split_and!; try done.
      destruct a as [|d a']; [by left|]. right. simpl in Hst, Hp, Ha. simpl.
      apply orb_false_iff in Hp as [Hp _]. apply orb_false_iff in Ha as [Ha _].
      destruct (delim_cases d Hst) as [-> | [-> | ->]]; done. }
  destruct (partition "#" r) as [[a b]|] eqn:Hp.
  - destruct (partition_some _ _ _ _ Hp) as [Hr Ha].
    destruct (decide (starts_with_char netloc_delim r = true)) as [Hst|Hst].
    + assert (starts_with_char netloc_delim a = true) as Hsta.
      { destruct r as [|d r']; [done|].
        destruct (partition_head _ _ _ _ _ Hp) as [[_ ->] | [_ [a' ->]]]; done. }
      specialize (Hq a Ha Hsta).
      destruct (match partition "?" a with Some (x, y) => (x, y) | None => (a, "") end)
        as [p q].
      destruct Hq as (H1 & H2 & H3 & H4 & H5). split_and!; try done.
      intros P HP. apply H4. by destruct (partition_all_chars P _ _ _ _ Hp HP).
    + destruct (partition "?" a) as [[x y]|] eqn:Hp2.
      * destruct (partition_contains _ "#" _ _ _ Hp2 Ha) as [Hx Hy].
        destruct (partition_some _ _ _ _ Hp2) as [_ Hx'].
        split_and!; try done.
        intros P HP. destruct (partition_all_chars P _ _ _ _ Hp HP) as [HPa _].
        by destruct (partition_all_chars P _ _ _ _ Hp2 HPa).
      * apply partition_none_inv in Hp2. split_and!; try done.
        intros P HP. by destruct (partition_all_chars P _ _ _ _ Hp HP).
  - apply partition_none_inv in Hp.
    destruct (decide (starts_with_char netloc_delim r = true)) as [Hst|Hst].
    + specialize (Hq r Hp Hst).
      destruct (match partition "?" r with Some (x, y) => (x, y) | None => (r, "") end)
        as [p q].
      destruct Hq as (H1 & H2 & H3 & H4 & H5). split_and!; done.
    + destruct (partition "?" r) as [[x y]|] eqn:Hp2.
      * destruct (partition_contains _ "#" _ _ _ Hp2 Hp) as [Hx Hy].
        destruct (partition_some _ _ _ _ Hp2) as [_ Hx'].
        split_and!; try done.
        intros P HP. by destruct (partition_all_chars P _ _ _ _ Hp2 HP).
      * apply partition_none_inv in Hp2. split_and!; done.
Qed.

Lemma split_tail_plain r :
  contains "?" r = false → contains "#" r = false → split_tail r = (r, "", "").
Proof.
  intros Hq Hf. unfold split_tail.
  by rewrite (partition_none _ _ Hf), (partition_none _ _ Hq).
Qed.

Lemma split_tail_query r q :
  contains "?" r = false → contains "#" r = false → contains "#" q = false →
  split_tail (r +:+ String "?" q) = (r, q, "").
Proof.
  intros Hq Hf Hfq. unfold split_tail.
  rewrite partition_none, (partition_app _ _ _ Hq); [done|].
  rewrite contains_app. simpl. by rewrite Hf, Hfq.
Qed.

Lemma split_tail_frag r f :
  contains "#" r = false →
  split_tail (r +:+ String "#" f) =
    (fst (fst (split_tail r)), snd (fst (split_tail r)), f).
Proof.
  intros Hf. unfold split_tail.
  rewrite (partition_app _ _ _ Hf), (partition_none _ _ Hf).
  by destruct (partition "?" r) as [[x y]|].
Qed.

(** *** The params *)

Lemma rsplit_keep_none c s : contains c s = false → rsplit_keep c s = None.
Proof.
  induction s as [|x s IH]; simpl; [done|].
  intros [Hx Hs]%orb_false_iff. by rewrite (IH Hs), Hx.
Qed.

Lemma rsplit_keep_spec c s dir seg :
  rsplit_keep c s = Some (dir, seg) →
  s = dir +:+ seg ∧ contains c seg = false ∧ ∃ d0, dir = d0 +:+ String c "".
Proof.
  revert dir. induction s as [|x s IH]; intros dir; simpl; [done|].
  destruct (rsplit_keep c s) as [[a b]|] eqn:Hr.
  - intros [= <- <-]. destruct (IH a eq_refl) as (-> & Hb & d0 & ->).
    split_and!; [done|done|]. by exists (String x d0).
  - destruct (Ascii.eqb_spec x c) as [->|]; [|done].
    intros [= <- <-]. split_and!; [done| |by exists ""].
    clear IH. induction s as [|y s IH]; [done|]. simpl in Hr. simpl.
    destruct (rsplit_keep c s) as [[a b]|]; [done|].
    destruct (Ascii.eqb y c); [done|]. by apply IH.
Qed.

Lemma rsplit_keep_app c d0 a :
  contains c a = false →
  rsplit_keep c ((d0 +:+ String c "") +:+ a) = Some (d0 +:+ String c "", a).
Proof.
  intros Ha. induction d0 as [|x d0 IH].
  - change (rsplit_keep c (String c a) = Some (String c "", a)).
    simpl. by rewrite (rsplit_keep_none _ _ Ha), Ascii.eqb_refl.
  - rewrite !str_app_cons. simpl. rewrite <- !str_app_cons.
    change (String x d0 +:+ String c "") with (String x (d0 +:+ String c "")).
    by rewrite IH.
Qed.

(** [_splitparams] returns the text before a [;] of the last segment,
    or the whole text; either way a second call finds nothing to split *)
Lemma splitparams_spec url :
  let '(p, a) := splitparams url in
  ((p = url ∧ a = "") ∨ url = p +:+ String ";" a) ∧
  (contains ";" p = false ∨ splitparams p = (p, "")).
Proof.
  unfold splitparams at 1.
  destruct (rsplit_keep "/" url) as [[dir seg]|] eqn:Hr.
  - destruct (rsplit_keep_spec _ _ _ _ Hr) as (-> & Hseg & d0 & ->).
    destruct (partition ";" seg) as [[a b]|] eqn:Hp.
    + destruct (partition_some _ _ _ _ Hp) as [-> Ha].
      split; [right; by rewrite !str_app_assoc|].
      right. unfold splitparams.
      rewrite contains_app in Hseg. apply orb_false_iff in Hseg as [Hseg _].
      by rewrite (rsplit_keep_app _ _ _ Hseg), (partition_none _ _ Ha).
    + split; [by left|]. right. unfold splitparams. by rewrite Hr, Hp.
  - destruct (partition ";" url) as [[a b]|] eqn:Hp.
    + destruct (partition_some _ _ _ _ Hp) as [-> Ha]. split; [by right | by left].
    + split; [by left|]. right. unfold splitparams. by rewrite Hr, Hp.
Qed.

Lemma params_step_spec sch url :
  let '(p, a) := params_step sch url in
  ((p = url ∧ a = "") ∨ url = p +:+ String ";" a) ∧
  params_step sch p = (p, "").
Proof.
  unfold params_step at 1.
  destruct (one_of sch uses_params && contains ";" url) eqn:Hc.
  - pose proof (splitparams_spec url) as H.
    destruct (splitparams url) as [p a]. destruct H as [H1 H2].
    split; [done|]. unfold params_step.
    destruct H2 as [-> | ->]; [by rewrite andb_false_r|].
    by destruct (one_of sch uses_params && contains ";" p).
  - split; [by left|]. unfold params_step. by rewrite Hc.
Qed.

Lemma params_step_prefix sch url :
  ∃ rest, url = fst (params_step sch url) +:+ rest ∧
          (rest = "" ∨ ∃ a, rest = String ";" a).
Proof.
  pose proof (params_step_spec sch url) as H.
  destruct (params_step sch url) as [p a]. simpl.
  destruct H as [[[-> ->] | ->] _].
  - exists "". by rewrite str_app_nil_r; split; [|left].
  - eexists. split; [done|]. right. by eexists.
Qed.

Lemma one_of_or_else_http s0 :
  one_of (or_else s0 "http") uses_params = one_of s0 uses_params.
Proof.
  destruct (String.eqb_spec s0 "") as [->|Hne]; [done|].
  by rewrite or_else_id.
Qed.

Lemma params_step_or_else_http s0 url :
  params_step (or_else s0 "http") url = params_step s0 url.
Proof. unfold params_step. by rewrite one_of_or_else_http. Qed.

(** ** [normalize_url] *)

Lemma normalize_url_eq x :
  normalize_url x = normal_form (urlparse (fst (urldefrag x))).
Proof. unfold normalize_url. by destruct (urldefrag x). Qed.

Lemma rooted_prefix p rest :
  rooted (p +:+ rest) = true → (rest = "" ∨ ∃ a, rest = String ";" a) →
  rooted p = true.
Proof.
  intros Hr [-> | [a ->]]; [by rewrite str_app_nil_r in Hr|].
  destruct p as [|d p]; [done | exact Hr].
Qed.

(** what [urlparse] returns, for any input *)
Lemma urlparse_spec url :
  let parsed := urlparse url in
  (scheme parsed = "" ∨ good_scheme (scheme parsed) = true) ∧
  no_delim (netloc parsed) = true ∧ clean (netloc parsed) = true ∧
  clean (path parsed) = true ∧
  contains "?" (path parsed) = false ∧ contains "#" (path parsed) = false ∧
  params_step (scheme parsed) (path parsed) = (path parsed, "") ∧
  (netloc parsed ≠ "" → path parsed = "" ∨ rooted (path parsed) = true).
Proof.
  simpl. rewrite urlparse_stages, urlsplit_stages.
  pose proof (url_head_spec url) as Hh.
  destruct (url_head url) as [[s n] r]. destruct Hh as (Hs & Hn & Hcn & Hcr & Hst & _).
  pose proof (split_tail_spec r) as Ht.
  destruct (split_tail r) as [[p0 q] f]. destruct Ht as (Hq & Hf & _ & Hall & Hroot).
  cbn [s_scheme s_netloc s_path s_query s_fragment].
  pose proof (params_step_spec s p0) as Hp.
  destruct (params_step_prefix s p0) as (rest & Hp0 & Hrest).
  destruct (params_step s p0) as [p a]. destruct Hp as [_ Hstable].
  cbn [fst] in Hp0. cbn [scheme netloc path].
  assert (contains "?" p = false ∧ contains "#" p = false) as [Hqp Hfp].
  { rewrite Hp0, !contains_app in Hq, Hf.
    apply orb_false_iff in Hq as [? _]. by apply orb_false_iff in Hf as [? _]. }
  assert (clean p = true) as Hcp.
  { pose proof (Hall _ Hcr) as Hc. rewrite Hp0, all_chars_app in Hc.
    by apply andb_true_iff in Hc as [? _]. }
  split_and!; try done.
  intros Hne. destruct (Hroot (Hst Hne)) as [Hp0e | Hp0r].
  - left. rewrite Hp0e in Hp0. by destruct p.
  - right. rewrite Hp0 in Hp0r. by apply (rooted_prefix p rest).
Qed.

Lemma no_delim_contains n :
  no_delim n = true → contains "?" n = false ∧ contains "#" n = false.
Proof.
  intros Hn. split; by apply (all_chars_contains (λ c, negb (netloc_delim c))).
Qed.

Lemma good_scheme_contains s :
  good_scheme s = true → contains "?" s = false ∧ contains "#" s = false.
Proof.
  intros (c0 & pre & _ & _ & Hs & _)%good_scheme_inv.
  split; by apply (all_chars_contains scheme_char).
Qed.

Lemma or_else_http_good s0 :
  s0 = "" ∨ good_scheme s0 = true → good_scheme (or_else s0 "http") = true.
Proof.
  intros [-> | Hs]; [done|]. by rewrite (or_else_id _ _ (good_scheme_nonempty _ Hs)).
Qed.

Lemma or_else_slash_props p :
  clean p = true → contains "?" p = false → contains "#" p = false →
  clean (or_else p "/") = true ∧ contains "?" (or_else p "/") = false ∧
  contains "#" (or_else p "/") = false ∧ or_else p "/" ≠ "".
Proof.
  intros Hc Hq Hf. unfold or_else. destruct (nonempty p) eqn:Hp; [|done].
  split_and!; try done. by apply nonempty_true.
Qed.

(** the normal form holds neither [?] nor [#] *)
Lemma normal_form_no_query_fragment url :
  contains "?" (normal_form (urlparse url)) = false ∧
  contains "#" (normal_form (urlparse url)) = false.
Proof.
  destruct (urlparse_spec url) as (Hs & Hn & _ & Hcp & Hq & Hf & _ & _).
  destruct (good_scheme_contains _ (or_else_http_good _ Hs)) as [Hsq Hsf].
  destruct (no_delim_contains _ Hn) as [Hnq Hnf].
  destruct (or_else_slash_props _ Hcp Hq Hf) as (_ & Hpq & Hpf & _).
  unfold normal_form. rewrite !contains_app, Hsq, Hsf, Hnq, Hnf, Hpq, Hpf. done.
Qed.

Lemma urldefrag_no_fragment url :
  contains "#" url = false → urldefrag url = (url, "").
Proof. intros H. unfold urldefrag. by rewrite H. Qed.

(** parsing [scheme://rest] when [rest] holds no [?], [#] or unsafe byte *)
Lemma urlparse_built s r0 :
  good_scheme s = true → clean r0 = true →
  contains "?" r0 = false → contains "#" r0 = false →
  urlparse (s +:+ "://" +:+ r0) =
    let b := snd (span_until netloc_delim r0) in
    mkParse s (fst (span_until netloc_delim r0))
      (fst (params_step s b)) (snd (params_step s b)) "" "".
Proof.
  intros Hs Hc Hq Hf.
  rewrite urlparse_stages, urlsplit_stages, (url_head_built s r0 Hs Hc).
  destruct (span_until_contains netloc_delim "?" r0 Hq) as [_ Hbq].
  destruct (span_until_contains netloc_delim "#" r0 Hf) as [_ Hbf].
  rewrite (split_tail_plain _ Hbq Hbf). simpl.
  by destruct (params_step s (snd (span_until netloc_delim r0))).
Qed.

(** re-parsing a normal form: the scheme is the one written, the query,
    the fragment are empty, and the path is empty or starts with [/] *)
Lemma reparse_normal_form url :
  let y := normal_form (urlparse url) in
  scheme (urlparse y) = or_else (scheme (urlparse url)) "http" ∧
  scheme (urlparse y) ≠ "" ∧
  query (urlparse y) = "" ∧ fragment (urlparse y) = "" ∧
  (path (urlparse y) = "" ∨ rooted (path (urlparse y)) = true).
Proof.
  simpl.
  destruct (urlparse_spec url) as (Hs & Hn & Hcn & Hcp & Hq & Hf & _ & _).
  pose proof (or_else_http_good _ Hs) as Hgood.
  destruct (no_delim_contains _ Hn) as [Hnq Hnf].
  destruct (or_else_slash_props _ Hcp Hq Hf) as (Hpc & Hpq & Hpf & _).
  unfold normal_form. rewrite urlparse_built; try done.
  2:{ unfold clean in *. rewrite all_chars_app. by rewrite Hcn, Hpc. }
  2:{ rewrite contains_app. by rewrite Hnq, Hpq. }
  2:{ rewrite contains_app. by rewrite Hnf, Hpf. }
  cbn [scheme query fragment path].
  split_and!; try done; [by apply good_scheme_nonempty|].
  set (r0 := netloc (urlparse url) +:+ or_else (path (urlparse url)) "/").
  assert (contains "?" r0 = false ∧ contains "#" r0 = false) as [Hrq Hrf].
  { unfold r0. rewrite !contains_app. by rewrite Hnq, Hnf, Hpq, Hpf. }
  pose proof (span_until_spec netloc_delim r0) as Hsp.
  destruct (span_until_contains netloc_delim "?" r0 Hrq) as [_ Hbq].
  destruct (span_until_contains netloc_delim "#" r0 Hrf) as [_ Hbf].
  destruct (span_until netloc_delim r0) as [a b]. destruct Hsp as (_ & _ & Hb).
  cbn [snd] in *.
  destruct (params_step_prefix (or_else (scheme (urlparse url)) "http") b)
    as (rest & Hpre & Hrest).
  destruct b as [|d b'].
  - left. by destruct (fst (params_step _ "")).
  - right. apply (rooted_prefix _ rest); [|done]. rewrite <- Hpre.
    simpl in Hbq, Hbf. apply orb_false_iff in Hbq as [Hd1 _].
    apply orb_false_iff in Hbf as [Hd2 _].
    destruct (delim_cases d Hb) as [-> | [-> | ->]]; done.
Qed.

(** a parsed URL with a netloc, or with an empty or rooted path, is
    parsed back from its normal form *)
Lemma reparse_rooted url :
  let parsed := urlparse url in
  netloc parsed ≠ "" ∨ path parsed = "" ∨ rooted (path parsed) = true →
  urlparse (normal_form parsed) =
    mkParse (or_else (scheme parsed) "http") (netloc parsed)
      (or_else (path parsed) "/") "" "" "".
Proof.
  simpl. intros Hyp.
  destruct (urlparse_spec url) as (Hs & Hn & Hcn & Hcp & Hq & Hf & Hstable & Hnr).
  pose proof (or_else_http_good _ Hs) as Hgood.
  destruct (no_delim_contains _ Hn) as [Hnq Hnf].
  destruct (or_else_slash_props _ Hcp Hq Hf) as (Hpc & Hpq & Hpf & _).
  assert (rooted (or_else (path (urlparse url)) "/") = true ∧
          params_step (or_else (scheme (urlparse url)) "http")
            (or_else (path (urlparse url)) "/")
          = (or_else (path (urlparse url)) "/", "")) as [Hroot Hpar].
  { destruct (String.eqb_spec (path (urlparse url)) "") as [->|Hne].
    - split; [done|]. unfold params_step. simpl. by rewrite andb_false_r.
    - rewrite (or_else_id _ _ Hne), params_step_or_else_http.
      split; [|done]. destruct Hyp as [H | [H | H]]; [|done|done].
      by destruct (Hnr H). }
  unfold normal_form. rewrite urlparse_built; try done.
  2:{ unfold clean in *. rewrite all_chars_app. by rewrite Hcn, Hpc. }
  2:{ rewrite contains_app. by rewrite Hnq, Hpq. }
  2:{ rewrite contains_app. by rewrite Hnf, Hpf. }
  rewrite span_until_app; [|exact Hn|].
  - cbn [fst snd]. by rewrite Hpar.
  - destruct (or_else (path (urlparse url)) "/") as [|d p']; [done|].
    simpl in Hroot. apply Ascii.eqb_eq in Hroot. by subst d.
Qed.


(** ** Queries and fragments under [normalize_url] *)

(** a query appended to a URL changes only the query of its parse *)
Lemma urlsplit_app_query u q :
  contains "?" u = false → contains "#" u = false → contains "#" q = false →
  urlsplit (u +:+ String "?" q) =
    mkSplit (s_scheme (urlsplit u)) (s_netloc (urlsplit u)) (s_path (urlsplit u))
      (remove_chars unsafe_url_byte q) "" ∧
  s_query (urlsplit u) = "" ∧ s_fragment (urlsplit u) = "".
Proof.
  intros Hq Hf Hfq. rewrite !urlsplit_stages, (url_head_app_tail u "?" q) by done.
  pose proof (url_head_spec u) as Hh.
  destruct (url_head u) as [[s n] r]. destruct Hh as (_ & _ & _ & _ & _ & Hc).
  destruct (Hc "?"%char Hq) as [_ Hrq]. destruct (Hc "#"%char Hf) as [_ Hrf].
  rewrite (split_tail_query r _ Hrq Hrf (remove_chars_contains _ _ _ Hfq)).
  by rewrite (split_tail_plain r Hrq Hrf).
Qed.

(** a fragment appended to a URL changes only the fragment of its parse *)
Lemma urlsplit_app_fragment u f :
  contains "#" u = false →
  urlsplit (u +:+ String "#" f) =
    let r := urlsplit u in
    mkSplit (s_scheme r) (s_netloc r) (s_path r) (s_query r)
      (remove_chars unsafe_url_byte f).
Proof.
  intros Hf. rewrite !urlsplit_stages, (url_head_app_tail u "#" f) by done.
  pose proof (url_head_spec u) as Hh.
  destruct (url_head u) as [[s n] r]. destruct Hh as (_ & _ & _ & _ & _ & Hc).
  destruct (Hc "#"%char Hf) as [_ Hrf].
  rewrite (split_tail_frag r _ Hrf).
  by destruct (split_tail r) as [[p q] f0].
Qed.

Lemma urlparse_app_fragment u f :
  contains "#" u = false →
  urlparse (u +:+ String "#" f) =
    let p := urlparse u in
    mkParse (scheme p) (netloc p) (path p) (params p) (query p)
      (remove_chars unsafe_url_byte f).
Proof.
  intros Hf. rewrite !urlparse_stages, (urlsplit_app_fragment u f Hf).
  cbn [s_scheme s_netloc s_path s_query s_fragment].
  by destruct (params_step (s_scheme (urlsplit u)) (s_path (urlsplit u))).
Qed.

(** [urldefrag] of a URL with a fragment rebuilds the URL from the
    components of the URL without it *)
Lemma urldefrag_app_fragment u f :
  contains "#" u = false →
  fst (urldefrag (u +:+ String "#" f)) =
    let p := urlparse u in
    urlunparse (scheme p) (netloc p) (path p) (params p) (query p) "".
Proof.
  intros Hf. unfold urldefrag.
  assert (contains "#" (u +:+ String "#" f) = true) as ->.
  { rewrite contains_app. simpl. by rewrite orb_true_r. }
  by rewrite (urlparse_app_fragment u f Hf).
Qed.

Lemma normalize_url_drops_query u q :
  contains "?" u = false → contains "#" u = false → contains "#" q = false →
  normalize_url (u +:+ String "?" q) = normalize_url u.
Proof.
  intros Hq Hf Hfq. rewrite !normalize_url_eq.
  rewrite (urldefrag_no_fragment u Hf), urldefrag_no_fragment.
  2:{ rewrite contains_app. simpl. by rewrite Hf, Hfq. }
  cbn [fst]. rewrite !urlparse_stages.
  destruct (urlsplit_app_query u q Hq Hf Hfq) as (-> & _ & _).
  cbn [s_scheme s_netloc s_path s_query s_fragment].
  by destruct (params_step (s_scheme (urlsplit u)) (s_path (urlsplit u))).
Qed.

Lemma normalize_url_fragment_text u f1 f2 :
  contains "#" u = false →
  normalize_url (u +:+ String "#" f1) = normalize_url (u +:+ String "#" f2).
Proof.
  intros Hf. rewrite !normalize_url_eq.
  by rewrite !(urldefrag_app_fragment u _ Hf).
Qed.

(** *** Removing a fragment from a URL with a scheme and a netloc *)

Lemma split_tail_query_spec r :
  contains "#" (snd (fst (split_tail r))) = false ∧
  ∀ P, all_chars P r = true → all_chars P (snd (fst (split_tail r))) = true.
Proof.
  unfold split_tail.
  destruct (partition "#" r) as [[a b]|] eqn:Hp.
  - destruct (partition_some _ _ _ _ Hp) as [_ Ha].
    destruct (partition "?" a) as [[x y]|] eqn:Hp2; [|done].
    cbn [fst snd]. split.
    + by destruct (partition_contains _ "#" _ _ _ Hp2 Ha).
    + intros P HP. destruct (partition_all_chars P _ _ _ _ Hp HP) as [HPa _].
      by destruct (partition_all_chars P _ _ _ _ Hp2 HPa).
  - apply partition_none_inv in Hp.
    destruct (partition "?" r) as [[x y]|] eqn:Hp2; [|done].
    cbn [fst snd]. split.
    + by destruct (partition_contains _ "#" _ _ _ Hp2 Hp).
    + intros P HP. by destruct (partition_all_chars P _ _ _ _ Hp2 HP).
Qed.

(** the path with its params put back, as [urlunparse] writes it *)
Lemma urlparse_params_query url :
  let parsed := urlparse url in
  let path' := if nonempty (params parsed)
               then path parsed +:+ String ";" (params parsed)
               else path parsed in
  clean path' = true ∧ contains "?" path' = false ∧ contains "#" path' = false ∧
  params_step (scheme parsed) path' = (path parsed, params parsed) ∧
  (netloc parsed ≠ "" → path' = "" ∨ rooted path' = true) ∧
  clean (query parsed) = true ∧ contains "#" (query parsed) = false.
Proof.
  simpl.
  destruct (urlparse_spec url) as (_ & _ & _ & Hcp & Hqp & Hfp & Hstable & Hroot).
  revert Hcp Hqp Hfp Hstable Hroot.
  rewrite urlparse_stages, urlsplit_stages.
  pose proof (url_head_spec url) as Hh.
  destruct (url_head url) as [[s n] r]. destruct Hh as (_ & _ & _ & Hcr & Hst & _).
  pose proof (split_tail_spec r) as Ht.
  destruct (split_tail_query_spec r) as [Hqf Hqall].
  destruct (split_tail r) as [[p0 q] f]. destruct Ht as (Hq & Hf & _ & Hall & Hroot0).
  cbn [fst snd] in Hqf, Hqall.
  cbn [s_scheme s_netloc s_path s_query s_fragment].
  pose proof (params_step_spec s p0) as Hp.
  destruct (params_step s p0) as [p a] eqn:Hstep. destruct Hp as [Hdec _].
  cbn [scheme netloc path params query].
  intros Hcp Hqp Hfp Hstable Hroot.
  destruct (nonempty a) eqn:Ha.
  - destruct Hdec as [[_ Hae] | Hp0].
    { rewrite Hae in Ha. discriminate Ha. }
    rewrite <- Hp0. split_and!; try done.
    + by apply Hall.
    + intros Hn. by apply Hroot0, Hst.
    + by apply Hqall.
  - assert (a = "") as ->.
    { unfold nonempty in Ha. apply negb_false_iff in Ha. by apply String.eqb_eq. }
    split_and!; try done. by apply Hqall.
Qed.

Lemma nonempty_false s : nonempty s = false → s = "".
Proof.
  unfold nonempty. intros H%negb_false_iff. by apply String.eqb_eq.
Qed.

Lemma rooted_take1 p : p = "" ∨ rooted p = true →
  nonempty p && negb (String.eqb (take 1 p) "/") = false.
Proof.
  intros [-> | Hr]; [done|]. destruct p as [|d p]; [done|].
  simpl in Hr. apply Ascii.eqb_eq in Hr. subst d. done.
Qed.

(** [urlunparse] of a scheme, a netloc and a path that is empty or rooted *)
Lemma urlunparse_authority s n p a q :
  s ≠ "" → n ≠ "" →
  let path' := if nonempty a then p +:+ String ";" a else p in
  path' = "" ∨ rooted path' = true →
  urlunparse s n p a q "" =
    (s +:+ "://" +:+ n +:+ path') +:+ (if nonempty q then String "?" q else "").
Proof.
  intros Hs Hn path' Hr. unfold urlunparse.
  assert ((if nonempty a then p +:+ ";" +:+ a else p) = path') as -> by reflexivity.
  unfold urlunsplit.
  rewrite (proj2 (nonempty_true n) Hn), (proj2 (nonempty_true s) Hs).
  rewrite orb_true_l, (rooted_take1 _ Hr).
  change (nonempty "") with false. cbv iota.
  destruct (nonempty q).
  - reflexivity.
  - rewrite str_app_nil_r. reflexivity.
Qed.

(** parsing [scheme://rest?query] *)
Lemma urlparse_built_query s r0 q :
  good_scheme s = true → clean r0 = true →
  contains "?" r0 = false → contains "#" r0 = false →
  clean q = true → contains "#" q = false →
  urlparse ((s +:+ "://" +:+ r0) +:+ String "?" q) =
    let b := snd (span_until netloc_delim r0) in
    mkParse s (fst (span_until netloc_delim r0))
      (fst (params_step s b)) (snd (params_step s b)) q "".
Proof.
  intros Hs Hc Hq Hf Hcq Hfq.
  rewrite urlparse_stages, urlsplit_stages.
  rewrite (url_head_app_tail _ "?" q) by done.
  rewrite (url_head_built s r0 Hs Hc).
  rewrite (remove_chars_id _ q Hcq).
  destruct (span_until_contains netloc_delim "?" r0 Hq) as [_ Hbq].
  destruct (span_until_contains netloc_delim "#" r0 Hf) as [_ Hbf].
  rewrite (split_tail_query _ q Hbq Hbf Hfq). simpl.
  by destruct (params_step s (snd (span_until netloc_delim r0))).
Qed.

(** for a URL with a scheme and a netloc, the URL that [urldefrag]
    rebuilds has the scheme, netloc and path of the URL itself *)
Lemma reparse_unparsed url :
  let parsed := urlparse url in
  scheme parsed ≠ "" → netloc parsed ≠ "" →
  let d := urlunparse (scheme parsed) (netloc parsed) (path parsed)
             (params parsed) (query parsed) "" in
  scheme (urlparse d) = scheme parsed ∧ netloc (urlparse d) = netloc parsed ∧
  path (urlparse d) = path parsed.
Proof.
  simpl. intros Hs Hn.
  destruct (urlparse_spec url) as (Hgood & Hnd & Hcn & _).
  destruct Hgood as [Hgood | Hgood]; [done|].
  destruct (urlparse_params_query url) as (Hc & Hq & Hf & Hstep & Hroot & Hcq & Hfq).
  simpl in Hc, Hq, Hf, Hstep, Hroot.
  destruct (no_delim_contains _ Hnd) as [Hnq Hnf].
  rewrite (urlunparse_authority _ _ _ _ _ Hs Hn (Hroot Hn)).
  set (path' := if nonempty (params (urlparse url))
                then path (urlparse url) +:+ String ";" (params (urlparse url))
                else path (urlparse url)) in *.
  assert (span_until netloc_delim (netloc (urlparse url) +:+ path')
          = (netloc (urlparse url), path')) as Hspan.
  { apply span_until_app; [exact Hnd|].
    destruct (Hroot Hn) as [-> | Hr]; [done|].
    destruct path' as [|c p']; [done|].
    simpl in Hr. apply Ascii.eqb_eq in Hr. by subst c. }
  assert (clean (netloc (urlparse url) +:+ path') = true) as Hcr.
  { unfold clean in *. by rewrite all_chars_app, Hcn, Hc. }
  assert (contains "?" (netloc (urlparse url) +:+ path') = false) as Hrq.
  { by rewrite contains_app, Hnq, Hq. }
  assert (contains "#" (netloc (urlparse url) +:+ path') = false) as Hrf.
  { by rewrite contains_app, Hnf, Hf. }
  destruct (nonempty (query (urlparse url))).
  - rewrite urlparse_built_query by done.
    cbv zeta. rewrite Hspan. cbn [fst snd]. by rewrite Hstep.
  - rewrite str_app_nil_r, urlparse_built by done.
    cbv zeta. rewrite Hspan. cbn [fst snd]. by rewrite Hstep.
Qed.

(** a URL with a scheme and a netloc normalizes the same with and
    without a fragment *)
Lemma normalize_url_drops_fragment u f :
  contains "#" u = false →
  scheme (urlparse u) ≠ "" → netloc (urlparse u) ≠ "" →
  normalize_url (u +:+ String "#" f) = normalize_url u.
Proof.
  intros Hf Hs Hn. rewrite !normalize_url_eq.
  rewrite (urldefrag_app_fragment u f Hf), (urldefrag_no_fragment u Hf).
  cbn [fst]. destruct (reparse_unparsed u Hs Hn) as (H1 & H2 & H3).
  unfold normal_form. by rewrite H1, H2, H3.
Qed.

(** ** The helper functions with their exceptions *)

Import UrllibErrors.

Lemma netloc_urlparse url : netloc (urlparse url) = s_netloc (urlsplit url).
Proof.
  rewrite urlparse_stages. cbv zeta.
  by destruct (params_step (s_scheme (urlsplit url)) (s_path (urlsplit url))).
Qed.

Lemma netloc_error_nil : netloc_error "" = false.
Proof. reflexivity. Qed.

Lemma py_urlparse_eq url :
  Py.urlparse url =
    if netloc_error (netloc (urlparse url)) then None else Some (urlparse url).
Proof.
  unfold Py.urlparse, Py.urlsplit. rewrite netloc_urlparse.
  by destruct (netloc_error _).
Qed.

Lemma py_urlparse_some url p :
  Py.urlparse url = Some p ↔
  netloc_error (netloc (urlparse url)) = false ∧ p = urlparse url.
Proof.
  rewrite py_urlparse_eq. destruct (netloc_error _).
  - split; [done | by intros [? _]].
  - split; [by intros [= <-] | by intros [_ ->]].
Qed.

Lemma py_urlparse_none url :
  Py.urlparse url = None ↔ netloc_error (netloc (urlparse url)) = true.
Proof. rewrite py_urlparse_eq. by destruct (netloc_error _). Qed.

Lemma py_urldefrag_eq url :
  Py.urldefrag url =
    if contains "#" url && netloc_error (netloc (urlparse url))
    then None else Some (urldefrag url).
Proof.
  unfold Py.urldefrag, urldefrag. destruct (contains "#" url); [|done].
  rewrite py_urlparse_eq. by destruct (netloc_error _).
Qed.

Lemma py_normalize_url_eq x :
  Py.normalize_url x =
    if (contains "#" x && netloc_error (netloc (urlparse x))) ||
       netloc_error (netloc (urlparse (fst (urldefrag x))))
    then None else Some (normalize_url x).
Proof.
  unfold Py.normalize_url. rewrite py_urldefrag_eq.
  destruct (contains "#" x && netloc_error (netloc (urlparse x))); [done|].
  cbn [mbind option_bind orb]. unfold normalize_url.
  destruct (urldefrag x) as [d f]. cbn [fst].
  rewrite py_urlparse_eq. by destruct (netloc_error _).
Qed.

Lemma py_normalize_url_some x y :
  Py.normalize_url x = Some y →
  y = normalize_url x ∧
  netloc_error (netloc (urlparse (fst (urldefrag x)))) = false.
Proof.
  rewrite py_normalize_url_eq.
  destruct (contains "#" x && netloc_error (netloc (urlparse x))); [done|].
  destruct (netloc_error _); [done|]. by intros [= <-].
Qed.


Lemma py_get_domain_eq url :
  Py.get_domain url =
    if netloc_error (netloc (urlparse url)) then None else Some (get_domain url).
Proof.
  unfold Py.get_domain. rewrite py_urlparse_eq. by destruct (netloc_error _).
Qed.

Lemma py_urljoin_some W base url full :
  Py.urljoin W base url = Some full → full = urljoin W base url.
Proof.
  unfold Py.urljoin. destruct (nonempty base && nonempty url); [|by intros [= <-]].
  destruct (Py.urlparse base); [|done]. destruct (Py.urlparse url); [|done].
  by intros [= <-].
Qed.

Lemma py_save_html_eq output_dir url data st :
  Py.save_html output_dir url data st =
    if netloc_error (netloc (urlparse url)) then None
    else Some (save_html output_dir url data st).
Proof.
  unfold Py.save_html. rewrite py_urlparse_eq. by destruct (netloc_error _).
Qed.

Section PyLinks.
Context (W : world) (base_url : string).

Lemma py_turn_some acc a links :
  Py.extract_links_turn W base_url (Some acc) a = Some links →
  links =
    (if one_of (scheme (urlparse (urljoin W base_url (strip a)))) ["http"; "https"]
     then {[normalize_url (urljoin W base_url (strip a))]} ∪ acc
     else acc) ∧
  anchor_ok W base_url a.
Proof.
  unfold Py.extract_links_turn, anchor_ok. cbn [mbind option_bind]. cbv zeta.
  destruct (Py.urljoin W base_url (strip a)) as [full|] eqn:Hj; [|done].
  pose proof (py_urljoin_some _ _ _ _ Hj) as ->. cbn [mbind option_bind].
  destruct (Py.urlparse (urljoin W base_url (strip a))) as [p|] eqn:Hp; [|done].
  apply py_urlparse_some in Hp as Hp'. destruct Hp' as [_ ->].
  cbn [mbind option_bind].
  destruct (one_of _ _).
  - destruct (Py.normalize_url (urljoin W base_url (strip a))) as [y|] eqn:Hn; [|done].
    destruct (py_normalize_url_some _ _ Hn) as [-> _]. cbn [mbind option_bind].
    intros [= <-]. done.
  - intros [= <-]. split_and!; done.
Qed.

Lemma py_fold_none anchors :
  foldl (Py.extract_links_turn W base_url) None anchors = None.
Proof. by induction anchors. Qed.

Lemma py_fold_some anchors acc links :
  foldl (Py.extract_links_turn W base_url) (Some acc) anchors = Some links →
  links =
    foldl (λ links a,
             if one_of (scheme (urlparse (urljoin W base_url (strip a))))
                  ["http"; "https"]
             then {[normalize_url (urljoin W base_url (strip a))]} ∪ links
             else links) acc anchors ∧
  ∀ a, a ∈ anchors → anchor_ok W base_url a.
Proof.
  revert acc. induction anchors as [|a anchors IH]; intros acc.
  - intros [= <-]. split; [done|]. by intros a ?%elem_of_nil.
  - cbn [foldl].
    destruct (Py.extract_links_turn W base_url (Some acc) a) as [acc'|] eqn:Ht.
    + destruct (py_turn_some _ _ _ Ht) as [-> Hok].
      intros H. destruct (IH _ H) as [-> Hall]. split; [done|].
      intros b [-> | Hb]%elem_of_cons; [done | by apply Hall].
    + by rewrite py_fold_none.
Qed.

(** when [extract_links] returns, it returns the set of the total
    function, and no anchor raised *)
Lemma py_extract_links_some html links :
  Py.extract_links W base_url html = Some links →
  links = extract_links W base_url html ∧
  ∀ a, a ∈ find_all_a_href W html → anchor_ok W base_url a.
Proof. apply py_fold_some. Qed.

End PyLinks.

(** ** A second application of [normalize_url] *)

Lemma str_length_app (a b : string) :
  String.length (a +:+ b) = (String.length a + String.length b)%nat.
Proof. induction a as [|x a IH]; [done|]. rewrite str_app_cons. simpl. by rewrite IH. Qed.

Lemma str_app_inv_head (a b c : string) : a +:+ b = a +:+ c → b = c.
Proof.
  induction a as [|x a IH]; [done|]. rewrite !str_app_cons. intros [= H]. by apply IH.
Qed.


Lemma rsplit_keep_some c s :
  contains c s = true → ∃ dir seg, rsplit_keep c s = Some (dir, seg).
Proof.
  induction s as [|x s IH]; simpl; [done|].
  destruct (rsplit_keep c s) as [[a b]|]; [by eexists _, _|].
  intros [Hx | Hs]%orb_true_iff; [rewrite Hx; by eexists _, _|].
  by destruct (IH Hs) as (? & ? & ?).
Qed.








(** ** Re-parsing what [urldefrag] rebuilds *)

(** text starting with a character that no scheme holds, appended to
    the URL, stays out of the scheme *)
Lemma split_scheme_app_nonscheme url d t :
  scheme_char d = false → Ascii.eqb d ":" = false →
  split_scheme (url +:+ String d t) =
    (fst (split_scheme url), snd (split_scheme url) +:+ String d t).
Proof.
  intros Hd Hcolon. unfold split_scheme.
  destruct (partition ":" url) as [[pre rest]|] eqn:Hp.
  - rewrite (partition_app_l _ _ _ _ _ Hp).
    destruct pre as [|c0 pre]; [done|].
    by destruct (is_ascii_alpha c0 && all_chars scheme_char (String c0 pre)).
  - apply partition_none_inv in Hp.
    destruct (partition ":" (url +:+ String d t)) as [[pre rest]|] eqn:Hp2; [|done].
    destruct pre as [|c0 pre]; [done|].
    apply partition_some in Hp2 as [Heq Hpre].
    assert (all_chars scheme_char (String c0 pre) = false) as ->;
      [|by rewrite andb_false_r].
    apply not_true_is_false. intros Hall.
    assert (∀ u p, contains ":" u = false → all_chars scheme_char p = true →
                   u +:+ String d t = p +:+ String ":" rest → False) as Habs.
    { clear -Hd Hcolon. induction u as [|x u IH]; intros p Hu Hp Heq.
      - destruct p as [|y p].
        + injection Heq as -> _. by rewrite Ascii.eqb_refl in Hcolon.
        + injection Heq as -> _. simpl in Hp. by rewrite Hd in Hp.
      - destruct p as [|y p].
        + injection Heq as -> _. simpl in Hu. discriminate Hu.
        + injection Heq as -> Heq. simpl in Hu, Hp.
          apply orb_false_iff in Hu as [_ Hu]. apply andb_true_iff in Hp as [_ Hp].
          by apply (IH p). }
    by apply (Habs url (String c0 pre)).
Qed.

(** a string that starts with [/] has no scheme *)
Lemma split_scheme_rooted r : split_scheme (String "/" r) = ("", String "/" r).
Proof.
  unfold split_scheme.
  destruct (partition ":" (String "/" r)) as [[[|c0 pre] rest]|] eqn:Hp; try done.
  apply partition_some in Hp as [Heq _]. by injection Heq as <- _.
Qed.

(** what is left of a URL after [lstrip] and the removal of the unsafe
    characters does not start with a control character or a space *)
Lemma cleaned_head url :
  starts_with_char (λ c, negb (c0_control_or_space c))
    (remove_chars unsafe_url_byte (lstrip c0_control_or_space url)) = true.
Proof.
  induction url as [|x url IH]; [done|]. simpl.
  destruct (c0_control_or_space x) eqn:Hx; [done|].
  simpl. destruct (unsafe_url_byte x) eqn:Hu; [|by simpl; rewrite Hx].
  exfalso. revert Hx Hu. by ascii_cases x.
Qed.

Lemma lstrip_id p s :
  starts_with_char (λ c, negb (p c)) s = true → lstrip p s = s.
Proof. destruct s as [|x s]; [done|]. simpl. by intros ->%negb_true_iff. Qed.

(** the head of [//rest], without a scheme *)
Lemma url_head_slashes r0 :
  clean r0 = true →
  url_head ("//" +:+ r0) =
    ("", fst (span_until netloc_delim r0), snd (span_until netloc_delim r0)).
Proof.
  intros Hr. unfold url_head.
  change ("//" +:+ r0) with (String "/" (String "/" r0)).
  assert (lstrip c0_control_or_space (String "/" (String "/" r0))
          = String "/" (String "/" r0)) as -> by reflexivity.
  rewrite (remove_chars_cons_keep _ "/" _ eq_refl).
  rewrite (remove_chars_cons_keep _ "/" _ eq_refl), (remove_chars_id _ r0 Hr).
  rewrite split_scheme_rooted.
  change (String.eqb (take 2 (String "/" (String "/" r0))) "//") with true.
  cbv iota. unfold splitnetloc. cbn [drop].
  by destruct (span_until netloc_delim r0).
Qed.

(** the head of [scheme:rest] when [rest] does not start with [//] *)
Lemma url_head_no_authority s r :
  good_scheme s = true → clean r = true →
  String.eqb (take 2 r) "//" = false →
  url_head (s +:+ String ":" r) = (s, "", r).
Proof.
  intros Hs Hr H2. unfold url_head.
  assert (lstrip c0_control_or_space (s +:+ String ":" r) = s +:+ String ":" r) as ->.
  { destruct (good_scheme_inv s Hs) as (c0 & pre & -> & Ha & _).
    rewrite str_app_cons. simpl. by rewrite (alpha_not_c0 c0 Ha). }
  rewrite remove_chars_app, (remove_chars_id _ s (good_scheme_clean s Hs)).
  rewrite (remove_chars_cons_keep _ ":" r eq_refl), (remove_chars_id _ r Hr).
  rewrite (split_scheme_built s _ Hs). by rewrite H2.
Qed.

(** the head of a string without scheme and without authority *)
Lemma url_head_bare r :
  clean r = true → starts_with_char (λ c, negb (c0_control_or_space c)) r = true →
  fst (split_scheme r) = "" → String.eqb (take 2 r) "//" = false →
  url_head r = ("", "", r).
Proof.
  intros Hr Hc0 Hs H2. unfold url_head.
  rewrite (lstrip_id _ r Hc0), (remove_chars_id _ r Hr).
  pose proof (split_scheme_spec r) as Hsp.
  destruct (split_scheme r) as [s r']. cbn [fst] in Hs. subst s.
  destruct Hsp as [[_ ->] | [Hg _]]; [|done]. by rewrite H2.
Qed.

(** a query put after a URL that has neither [?] nor [#] after its
    netloc, the way [urlunsplit] puts it *)
Lemma urlparse_with_query base s n r q :
  url_head base = (s, n, r) →
  contains "?" r = false → contains "#" r = false →
  clean q = true → contains "#" q = false →
  urlparse (if nonempty q then base +:+ "?" +:+ q else base) =
    mkParse s n (fst (params_step s r)) (snd (params_step s r)) q "".
Proof.
  intros Hh Hrq Hrf Hcq Hfq.
  rewrite urlparse_stages, urlsplit_stages.
  destruct (nonempty q) eqn:Hq.
  - change (base +:+ "?" +:+ q) with (base +:+ String "?" q).
    rewrite (url_head_app_tail _ "?" q) by done. rewrite Hh.
    rewrite (remove_chars_id _ q Hcq), (split_tail_query _ q Hrq Hrf Hfq).
    cbn [s_scheme s_netloc s_path s_query s_fragment].
    by destruct (params_step s r).
  - apply nonempty_false in Hq. subst q.
    rewrite Hh, (split_tail_plain _ Hrq Hrf).
    cbn [s_scheme s_netloc s_path s_query s_fragment].
    by destruct (params_step s r).
Qed.

Lemma split_tail_prefix r :
  ∃ T, r = fst (fst (split_tail r)) +:+ T ∧
       (T = "" ∨ ∃ d t, T = String d t ∧ (d = "?"%char ∨ d = "#"%char)).
Proof.
  unfold split_tail.
  destruct (partition "#" r) as [[a b]|] eqn:Hp.
  - apply partition_some in Hp as [-> _].
    destruct (partition "?" a) as [[x y]|] eqn:Hp2.
    + apply partition_some in Hp2 as [-> _]. cbn [fst].
      exists (String "?" (y +:+ String "#" b)).
      split; [by rewrite str_app_assoc | right; eexists _, _; split; [done | by left]].
    + cbn [fst]. exists (String "#" b).
      split; [done | right; eexists _, _; split; [done | by right]].
  - destruct (partition "?" r) as [[x y]|] eqn:Hp2.
    + apply partition_some in Hp2 as [-> _]. cbn [fst].
      exists (String "?" y).
      split; [done | right; eexists _, _; split; [done | by left]].
    + cbn [fst]. exists "". split; [by rewrite str_app_nil_r | by left].
Qed.

Lemma rooted_app p t : rooted (p +:+ t) = true → p ≠ "" → rooted p = true.
Proof. by destruct p. Qed.

Lemma starts_with_char_app P p t :
  starts_with_char P (p +:+ t) = true → p ≠ "" → starts_with_char P p = true.
Proof. by destruct p. Qed.

(** the path with its params, as [urlunparse] writes it, starts the
    text after the netloc; what follows it starts with [;], [?] or [#] *)
Lemma tail_starts_with_path s r :
  let p0 := fst (fst (split_tail r)) in
  let p := fst (params_step s p0) in
  let a := snd (params_step s p0) in
  let path' := if nonempty a then p +:+ String ";" a else p in
  contains "?" path' = false ∧ contains "#" path' = false ∧
  ∃ T, r = path' +:+ T ∧
       (T = "" ∨ ∃ d t, T = String d t ∧ scheme_char d = false ∧
                         Ascii.eqb d ":" = false).
Proof.
  cbv zeta.
  pose proof (split_tail_spec r) as Ht.
  destruct (split_tail_prefix r) as (T & HT & HTd).
  destruct (split_tail r) as [[p0 q] f]. cbn [fst] in *.
  destruct Ht as (Hq0 & Hf0 & _).
  pose proof (params_step_spec s p0) as Hp.
  destruct (params_step s p0) as [p a]. destruct Hp as [Hdec _]. cbn [fst snd].
  set (path' := if nonempty a then p +:+ String ";" a else p).
  assert (∃ t, p0 = path' +:+ t ∧ (t = "" ∨ t = ";")) as (t & Ht & Htd).
  { unfold path'. destruct (nonempty a) eqn:Ha.
    - destruct Hdec as [[_ ->] | ->]; [done|]. exists "".
      by rewrite str_app_nil_r; split; [|left].
    - apply nonempty_false in Ha. subst a.
      destruct Hdec as [[-> _] | ->].
      + exists "". by rewrite str_app_nil_r; split; [|left].
      + exists ";". split; [done | by right]. }
  rewrite Ht, contains_app in Hq0, Hf0.
  apply orb_false_iff in Hq0 as [Hq0 _]. apply orb_false_iff in Hf0 as [Hf0 _].
  split_and!; [done|done|].
  rewrite HT, Ht, str_app_assoc. eexists. split; [done|].
  destruct Htd as [-> | ->].
  - rewrite str_app_nil_l.
    destruct HTd as [-> | (d & t' & -> & [-> | ->])];
      [by left | right; by eexists _, _ ..].
  - right. by eexists _, _.
Qed.

Lemma bare_path u :
  let parsed := urlparse u in
  let path' :=
    if nonempty (params parsed)
    then path parsed +:+ String ";" (params parsed) else path parsed in
  scheme parsed = "" → netloc parsed = "" → path' ≠ "" → rooted path' = false →
  starts_with_char (λ c, negb (c0_control_or_space c)) path' = true ∧
  fst (split_scheme path') = "".
Proof.
  cbv zeta. rewrite urlparse_stages, urlsplit_stages. unfold url_head.
  pose proof (cleaned_head u) as Hhead.
  set (u1 := remove_chars unsafe_url_byte (lstrip c0_control_or_space u)) in *.
  pose proof (split_scheme_spec u1) as Hsp.
  destruct (split_scheme u1) as [s r1] eqn:Hss.
  assert (∃ n r, (if String.eqb (take 2 r1) "//" then splitnetloc r1 2 else ("", r1))
                 = (n, r) ∧
                 (n = "" → r = r1 ∨ starts_with_char netloc_delim r = true))
    as (n & r & -> & Hr).
  { destruct (String.eqb (take 2 r1) "//").
    - unfold splitnetloc.
      pose proof (span_until_spec netloc_delim (drop 2 r1)) as Hspan.
      destruct (span_until netloc_delim (drop 2 r1)) as [n r].
      exists n, r. split; [done|]. intros _. right.
      destruct Hspan as (_ & _ & Hd). by destruct r.
    - exists "", r1. split; [done|]. by left. }
  destruct (tail_starts_with_path s r) as (Hq & Hf & T & HT & HTd).
  revert Hq Hf HT.
  destruct (split_tail r) as [[p0 q] f]. cbn [fst snd].
  cbn [s_scheme s_netloc s_path s_query s_fragment].
  destruct (params_step s p0) as [p a]. cbn [fst snd scheme netloc path params].
  set (path' := if nonempty a then p +:+ String ";" a else p).
  intros Hq Hf HT -> -> Hne Hnr.
  destruct Hsp as [[_ ->] | [Hg _]]; [|done].
  destruct (Hr eq_refl) as [-> | Hdelim].
  - split.
    + rewrite HT in Hhead. by apply (starts_with_char_app _ _ T).
    + destruct HTd as [-> | (d & t & -> & Hd & Hc)].
      * rewrite str_app_nil_r in HT. rewrite <- HT. by rewrite Hss.
      * rewrite HT, (split_scheme_app_nonscheme _ _ _ Hd Hc) in Hss.
        by injection Hss as Hs1 _.
  - exfalso. rewrite HT in Hdelim.
    apply (starts_with_char_app _ _ T) in Hdelim; [|done].
    destruct path' as [|c p']; [done|].
    simpl in Hdelim, Hnr, Hq, Hf.
    apply orb_false_iff in Hq as [Hq _]. apply orb_false_iff in Hf as [Hf _].
    destruct (delim_cases c Hdelim) as [-> | [-> | ->]]; done.
Qed.

Lemma urlunparse_query s n p a q :
  urlunparse s n p a q "" =
    let base := urlunsplit s n (if nonempty a then p +:+ String ";" a else p) "" "" in
    if nonempty q then base +:+ "?" +:+ q else base.
Proof. unfold urlunparse, urlunsplit. by destruct (nonempty q). Qed.

Lemma take2_params p a :
  String.eqb (take 2 (if nonempty a then p +:+ String ";" a else p)) "//"
  = String.eqb (take 2 p) "//".
Proof. destruct (nonempty a); [|done]. by apply take2_app_tail. Qed.

Lemma rsplit_keep_none_inv c s : rsplit_keep c s = None → contains c s = false.
Proof.
  intros Hr. destruct (contains c s) eqn:Hc; [|done].
  destruct (rsplit_keep_some c s Hc) as (? & ? & ?). congruence.
Qed.

(** params without a path: [urlunsplit] puts a [/] in front, which the
    next parse reads as the path *)
Lemma params_step_empty_path s a :
  a ≠ "" → params_step s (String ";" a) = ("", a) →
  params_step s (String "/" (String ";" a)) = ("/", a).
Proof.
  intros Ha. unfold params_step.
  destruct (one_of s uses_params); [|by intros [= ?]].
  change (contains ";" (String ";" a)) with true.
  change (contains ";" (String "/" (String ";" a))) with true. cbn [andb].
  unfold splitparams at 1.
  destruct (rsplit_keep "/" (String ";" a)) as [[dir seg]|] eqn:Hr.
  { destruct (rsplit_keep_spec _ _ _ _ Hr) as (_ & _ & d0 & ->).
    destruct (partition ";" seg) as [[x y]|]; [|by intros [= ?]].
    intros [= Habs _]. by destruct d0. }
  intros _. apply rsplit_keep_none_inv in Hr.
  unfold splitparams.
  pose proof (rsplit_keep_app "/" "" (String ";" a) Hr) as Hk.
  change (("" +:+ String "/" "") +:+ String ";" a)
    with (String "/" (String ";" a)) in Hk.
  rewrite Hk.
  pose proof (partition_app ";" "" a eq_refl) as Hpa.
  change ("" +:+ String ";" a) with (String ";" a) in Hpa.
  by rewrite Hpa.
Qed.

Lemma span_until_delim_head r :
  starts_with_char netloc_delim r = true → span_until netloc_delim r = ("", r).
Proof. destruct r as [|d r]; [done|]. simpl. by intros ->. Qed.

Lemma rooted_delim r : r = "" ∨ rooted r = true → starts_with_char netloc_delim r = true.
Proof.
  intros [-> | Hr]; [done|]. destruct r as [|d r]; [done|].
  simpl in Hr. apply Ascii.eqb_eq in Hr. by subst d.
Qed.

Lemma rooted_take1_eq p : String.eqb (take 1 p) "/" = rooted p.
Proof.
  destruct p as [|d p]; [done|]. simpl.
  by destruct (Ascii.eqb d "/").
Qed.

Lemma url_head_unsplit_gen s n p a :
  let path' := if nonempty a then p +:+ String ";" a else p in
  (s = "" ∨ good_scheme s = true) → no_delim n = true → clean n = true →
  clean path' = true → contains "?" path' = false → contains "#" path' = false →
  params_step s path' = (p, a) →
  (n ≠ "" → path' = "" ∨ rooted path' = true) →
  (s = "" → n = "" → path' ≠ "" → rooted path' = false →
   starts_with_char (λ c, negb (c0_control_or_space c)) path' = true ∧
   fst (split_scheme path') = "") →
  nonempty n ||
  (negb (String.eqb (take 2 p) "//") &&
   (negb (nonempty s && one_of s uses_netloc) ||
    negb (nonempty p) || String.eqb (take 1 p) "/")) = true →
  ∃ r, url_head (urlunsplit s n path' "" "") = (s, n, r) ∧
       contains "?" r = false ∧ contains "#" r = false ∧
       or_else (fst (params_step s r)) "/" = or_else p "/".
Proof.
  intros path' Hs Hn Hcn Hc Hq Hf Hstep Hroot Hbare Hneu.
  assert (String.eqb (take 2 path') "//" = String.eqb (take 2 p) "//") as Htake
    by apply take2_params.
  unfold urlunsplit. change (nonempty "") with false. cbv iota.
  destruct (nonempty n) eqn:Hnn.
  - (* a netloc *)
    apply nonempty_true in Hnn. specialize (Hroot Hnn).
    cbn [orb]. rewrite (rooted_take1 _ Hroot).
    exists path'. rewrite Hstep. cbn [fst]. split_and!; try done.
    assert (span_until netloc_delim (n +:+ path') = (n, path')) as Hspan.
    { apply span_until_app; [done|].
      pose proof (rooted_delim _ Hroot) as Hd. by destruct path'. }
    assert (clean (n +:+ path') = true) as Hcr.
    { unfold clean in *. by rewrite all_chars_app, Hcn, Hc. }
    destruct Hs as [-> | Hg].
    + change (nonempty "") with false. cbv iota.
      rewrite (url_head_slashes _ Hcr). by rewrite Hspan.
    + rewrite (proj2 (nonempty_true s) (good_scheme_nonempty s Hg)).
      change (s +:+ ":" +:+ "//" +:+ n +:+ path')
        with (s +:+ "://" +:+ n +:+ path').
      rewrite (url_head_built s _ Hg Hcr). by rewrite Hspan.
  - apply nonempty_false in Hnn. subst n. cbn [orb] in Hneu |- *.
    apply andb_true_iff in Hneu as [H2 Hneu]. apply negb_true_iff in H2.
    rewrite Htake, H2. cbn [negb]. rewrite andb_true_r.
    destruct (nonempty s && one_of s uses_netloc) eqn:Huses.
    + (* a scheme that takes a netloc: [//] is written *)
      apply andb_true_iff in Huses as [Hsne _]. rewrite Hsne.
      apply nonempty_true in Hsne. destruct Hs as [? | Hg]; [done|].
      cbn [negb orb] in Hneu. rewrite rooted_take1_eq in Hneu.
      set (X := if nonempty path' && negb (String.eqb (take 1 path') "/")
                then "/" +:+ path' else path').
      assert (clean X = true ∧ contains "?" X = false ∧ contains "#" X = false ∧
              starts_with_char netloc_delim X = true ∧
              or_else (fst (params_step s X)) "/" = or_else p "/")
        as (HcX & HqX & HfX & HdX & HpX).
      { unfold X. rewrite rooted_take1_eq.
        destruct (rooted path') eqn:Hr.
        - rewrite andb_false_r. rewrite Hstep. split_and!; try done.
          by apply rooted_delim; right.
        - rewrite andb_true_r.
          assert (p = "") as ->.
          { apply orb_true_iff in Hneu as [Hp | Hp].
            - apply negb_true_iff in Hp. by apply nonempty_false.
            - exfalso. unfold path' in Hr. destruct (nonempty a).
              + destruct p; [done|]. simpl in Hr, Hp. congruence.
              + congruence. }
          unfold path' in *. destruct (nonempty a) eqn:Ha.
          + rewrite str_app_nil_l in *.
            change (nonempty (String ";" a)) with true. cbv iota.
            change ("/" +:+ String ";" a) with (String "/" (String ";" a)).
            apply nonempty_true in Ha.
            rewrite (params_step_empty_path s a Ha Hstep).
            split_and!; try done.
          + change (nonempty "") with false. cbv iota.
            rewrite Hstep. split_and!; done. }
      exists X. split_and!; try done.
      change (s +:+ ":" +:+ "//" +:+ "" +:+ X) with (s +:+ "://" +:+ X).
      rewrite (url_head_built s _ Hg HcX). by rewrite (span_until_delim_head _ HdX).
    + (* no [//] is written *)
      exists path'. rewrite Hstep. cbn [fst]. split_and!; try done.
      rewrite <- Htake in H2.
      destruct Hs as [-> | Hg].
      * change (nonempty "") with false. cbv iota.
        destruct (String.eqb_spec path' "") as [-> | Hne]; [done|].
        destruct (rooted path') eqn:Hr.
        -- destruct path' as [|d r]; [done|]. simpl in Hr.
           apply Ascii.eqb_eq in Hr. subst d.
           apply url_head_bare; try done. by rewrite split_scheme_rooted.
        -- destruct (Hbare eq_refl eq_refl Hne eq_refl) as [Hc0 Hss].
           by apply url_head_bare.
      * rewrite (proj2 (nonempty_true s) (good_scheme_nonempty s Hg)).
        change (s +:+ ":" +:+ path') with (s +:+ String ":" path').
        by apply url_head_no_authority.
Qed.

(** the parse of a URL, as the lemmas on [urlunparse] need it *)
Lemma urlparse_for_unparse u :
  let parsed := urlparse u in
  let path' :=
    if nonempty (params parsed)
    then path parsed +:+ String ";" (params parsed) else path parsed in
  (scheme parsed = "" ∨ good_scheme (scheme parsed) = true) ∧
  no_delim (netloc parsed) = true ∧ clean (netloc parsed) = true ∧
  clean path' = true ∧ contains "?" path' = false ∧ contains "#" path' = false ∧
  params_step (scheme parsed) path' = (path parsed, params parsed) ∧
  (netloc parsed ≠ "" → path' = "" ∨ rooted path' = true) ∧
  clean (query parsed) = true ∧ contains "#" (query parsed) = false ∧
  ∃ t, path' = path parsed +:+ t ∧ (t = "" ∨ ∃ a, t = String ";" a).
Proof.
  cbv zeta.
  destruct (urlparse_spec u) as (Hs & Hn & Hcn & _).
  destruct (urlparse_params_query u) as (Hc & Hq & Hf & Hstep & Hroot & Hcq & Hfq).
  split_and!; try done.
  destruct (nonempty (params (urlparse u))).
  - eexists. split; [done|]. right. by eexists.
  - exists "". by rewrite str_app_nil_r; split; [|left].
Qed.

(** for a URL that [fragment_neutral] accepts, the URL that [urldefrag]
    rebuilds parses with the same scheme and netloc, and with the same
    path up to the default [/] *)
Lemma reparse_defrag u :
  fragment_neutral u = true →
  let parsed := urlparse u in
  let d := urlunparse (scheme parsed) (netloc parsed) (path parsed)
             (params parsed) (query parsed) "" in
  scheme (urlparse d) = scheme parsed ∧ netloc (urlparse d) = netloc parsed ∧
  or_else (path (urlparse d)) "/" = or_else (path parsed) "/".
Proof.
  intros Hneu. cbv zeta.
  destruct (urlparse_for_unparse u)
    as (Hs & Hn & Hcn & Hc & Hq & Hf & Hstep & Hroot & Hcq & Hfq & _).
  destruct (url_head_unsplit_gen _ _ _ _ Hs Hn Hcn Hc Hq Hf Hstep Hroot
              (bare_path u) Hneu) as (r & Hhead & Hrq & Hrf & Hpath).
  rewrite urlunparse_query. cbv zeta.
  rewrite (urlparse_with_query _ _ _ _ _ Hhead Hrq Hrf Hcq Hfq).
  by cbn [scheme netloc path].
Qed.

Lemma normalize_url_neutral_fragment u f :
  contains "#" u = false → fragment_neutral u = true →
  normalize_url (u +:+ String "#" f) = normalize_url u ∧
  Py.normalize_url (u +:+ String "#" f) = Py.normalize_url u.
Proof.
  intros Hf Hneu.
  destruct (reparse_defrag u Hneu) as (H1 & H2 & H3).
  assert (normalize_url (u +:+ String "#" f) = normalize_url u) as Heq.
  { rewrite !normalize_url_eq.
    rewrite (urldefrag_app_fragment u f Hf), (urldefrag_no_fragment u Hf).
    cbn [fst]. unfold normal_form. by rewrite H1, H2, H3. }
  split; [done|].
  rewrite !py_normalize_url_eq, Heq.
  rewrite (urldefrag_app_fragment u f Hf), (urldefrag_no_fragment u Hf).
  cbn [fst]. rewrite H2, Hf, (urlparse_app_fragment u f Hf). cbn [netloc andb orb].
  assert (contains "#" (u +:+ String "#" f) = true) as ->.
  { rewrite contains_app. simpl. by rewrite orb_true_r. }
  cbn [andb]. by destruct (netloc_error (netloc (urlparse u))).
Qed.

Lemma py_normalize_url_drops_query u q :
  contains "?" u = false → contains "#" u = false → contains "#" q = false →
  Py.normalize_url (u +:+ String "?" q) = Py.normalize_url u.
Proof.
  intros Hq Hf Hfq.
  assert (contains "#" (u +:+ String "?" q) = false) as Hf2.
  { rewrite contains_app. simpl. by rewrite Hf, Hfq. }
  rewrite !py_normalize_url_eq, (normalize_url_drops_query u q Hq Hf Hfq).
  rewrite Hf, Hf2, (urldefrag_no_fragment u Hf), (urldefrag_no_fragment _ Hf2).
  cbn [fst andb orb]. rewrite !netloc_urlparse.
  by destruct (urlsplit_app_query u q Hq Hf Hfq) as (-> & _ & _).
Qed.

Lemma py_normalize_url_fragment_text u f1 f2 :
  contains "#" u = false →
  Py.normalize_url (u +:+ String "#" f1) = Py.normalize_url (u +:+ String "#" f2).
Proof.
  intros Hf. rewrite !py_normalize_url_eq.
  rewrite (normalize_url_fragment_text u f1 f2 Hf).
  rewrite !(urldefrag_app_fragment u _ Hf), !(urlparse_app_fragment u _ Hf).
  cbn [netloc].
  assert (∀ f, contains "#" (u +:+ String "#" f) = true) as Hc.
  { intros f. rewrite contains_app. simpl. by rewrite orb_true_r. }
  by rewrite !Hc.
Qed.

Lemma slashes_shift w p t r :
  w ≠ "" → all_chars (λ c, Ascii.eqb c "/") w = true →
  p +:+ t = w +:+ p +:+ r → t = "" ∨ rooted t = true.
Proof.
  revert w. induction p as [|c p IH]; intros w Hw Hall.
  - rewrite !str_app_nil_l. intros ->. right.
    destruct w as [|d w]; [done|]. simpl in Hall.
    apply andb_true_iff in Hall as [Hd _]. by rewrite str_app_cons.
  - destruct w as [|d w]; [done|]. rewrite !str_app_cons. intros [= -> Heq].
    simpl in Hall. apply andb_true_iff in Hall as [Hd Hall].
    apply (IH (w +:+ String d "")).
    + by destruct w.
    + by rewrite all_chars_app, Hall; simpl; rewrite Hd.
    + by rewrite Heq, !str_app_assoc.
Qed.

Lemma normal_form_inj s1 n1 p1 q1 a1 f1 n2 p2 q2 a2 f2 :
  normal_form (mkParse s1 n1 p1 a1 q1 f1) = normal_form (mkParse s1 n2 p2 a2 q2 f2) →
  n1 +:+ or_else p1 "/" = n2 +:+ or_else p2 "/".
Proof.
  unfold normal_form. cbn [scheme netloc path]. intros H.
  apply str_app_inv_head in H.
  change ("://" +:+ n1 +:+ or_else p1 "/") with (String ":" (String "/" (String "/" (n1 +:+ or_else p1 "/")))) in H.
  change ("://" +:+ n2 +:+ or_else p2 "/") with (String ":" (String "/" (String "/" (n2 +:+ or_else p2 "/")))) in H.
  by injection H.
Qed.

(** for the other URLs the URL that [urldefrag] rebuilds parses, if it
    parses, into another normal form *)
Lemma reparse_defrag_differs u :
  fragment_neutral u = false →
  let parsed := urlparse u in
  let d := urlunparse (scheme parsed) (netloc parsed) (path parsed)
             (params parsed) (query parsed) "" in
  netloc parsed = "" ∧ normal_form (urlparse d) ≠ normal_form parsed.
Proof.
  intros Hneu. cbv zeta.
  destruct (urlparse_for_unparse u)
    as (Hs & Hn & Hcn & Hc & Hq & Hf & Hstep & Hroot & Hcq & Hfq & t & Hpt & Ht).
  unfold fragment_neutral in Hneu. cbv zeta in Hneu.
  apply orb_false_iff in Hneu as [Hnn Hneu]. apply nonempty_false in Hnn.
  split; [done|].
  revert Hs Hn Hcn Hc Hq Hf Hstep Hroot Hcq Hfq Hpt Hneu.
  rewrite urlunparse_query. cbv zeta.
  destruct (urlparse u) as [s n p a q f] eqn:Hparse.
  cbn [scheme netloc path params query] in *. subst n.
  set (path' := if nonempty a then p +:+ String ";" a else p).
  intros Hs _ _ Hc Hq Hf Hstep _ Hcq Hfq Hpt Hneu.
  assert (String.eqb (take 2 path') "//" = String.eqb (take 2 p) "//") as Htake
    by apply take2_params.
  unfold urlunsplit. change (nonempty "") with false. cbv iota. cbn [orb].
  rewrite Htake.
  destruct (String.eqb (take 2 p) "//") eqn:H2.
  - (* the path starts with [//]: it is read as a netloc *)
    cbn [negb]. rewrite andb_false_r.
    destruct (take2_slashes _ H2) as [p2 Hp2].
    destruct (take2_slashes _ Htake) as [r0 Hr0].
    assert (clean r0 = true ∧ contains "?" r0 = false ∧ contains "#" r0 = false)
      as (Hcr0 & Hqr0 & Hfr0).
    { rewrite Hr0 in Hc, Hq, Hf. unfold clean in *. simpl in Hc, Hq, Hf. done. }
    pose proof (span_until_spec netloc_delim r0) as Hspan.
    destruct (span_until_contains netloc_delim "?" r0 Hqr0) as [_ Hbq].
    destruct (span_until_contains netloc_delim "#" r0 Hfr0) as [_ Hbf].
    destruct (span_until netloc_delim r0) as [n' r] eqn:Hsp.
    destruct Hspan as (Hr0eq & Hn' & Hrd). cbn [snd] in Hbq, Hbf.
    assert (url_head (if nonempty s then s +:+ ":" +:+ path' else path')
            = (s, n', r)) as Hhead.
    { rewrite Hr0. destruct Hs as [-> | Hg].
      - change (nonempty "") with false. cbv iota.
        change (String "/" (String "/" r0)) with ("//" +:+ r0).
        by rewrite (url_head_slashes _ Hcr0), Hsp.
      - rewrite (proj2 (nonempty_true s) (good_scheme_nonempty s Hg)).
        change (s +:+ ":" +:+ String "/" (String "/" r0))
          with (s +:+ "://" +:+ r0).
        by rewrite (url_head_built s _ Hg Hcr0), Hsp. }
    rewrite (urlparse_with_query _ _ _ _ _ Hhead Hbq Hbf Hcq Hfq).
    intros Heq. apply normal_form_inj in Heq. rewrite str_app_nil_l in Heq.
    destruct (params_step_prefix s r) as (rest & Hrest & _).
    set (path'' := fst (params_step s r)) in *.
    assert (or_else p "/" = p) as Hp by (rewrite Hp2; reflexivity).
    rewrite Hp in Heq.
    destruct n' as [|c n''].
    + rewrite str_app_nil_l in Heq, Hr0eq. subst r0.
      destruct (nonempty path'') eqn:Hne.
      * unfold or_else in Heq. rewrite Hne in Heq.
        assert (p +:+ t = "//" +:+ p +:+ rest) as Hshift.
        { rewrite <- Hpt, Hr0, Hrest, Heq. reflexivity. }
        destruct (slashes_shift "//" p t rest) as [-> | Hrt]; try done.
        -- apply (f_equal String.length) in Hshift.
           rewrite str_app_nil_r in Hshift.
           change ("//" +:+ p +:+ rest) with (String "/" (String "/" (p +:+ rest))) in Hshift.
           simpl in Hshift. rewrite str_length_app in Hshift. lia.
        -- destruct Ht as [-> | [a' ->]]; done.
      * unfold or_else in Heq. rewrite Hne in Heq. rewrite Hp2 in Heq. done.
    + rewrite Hp2, str_app_cons in Heq. injection Heq as -> _.
      simpl in Hn'. done.
  - (* a relative path after a scheme that takes a netloc *)
    cbn [negb andb] in Hneu |- *. rewrite andb_true_r.
    apply orb_false_iff in Hneu as [Hneu Hr1].
    apply orb_false_iff in Hneu as [Huses Hpne].
    apply negb_false_iff in Huses, Hpne. rewrite Huses.
    apply andb_true_iff in Huses as [Hsne _]. rewrite Hsne.
    apply nonempty_true in Hsne, Hpne. destruct Hs as [? | Hg]; [done|].
    rewrite rooted_take1_eq in Hr1.
    assert (nonempty path' && negb (String.eqb (take 1 path') "/") = true) as ->.
    { rewrite rooted_take1_eq, Hpt.
      destruct p as [|c p']; [done|]. simpl in Hr1. rewrite str_app_cons. simpl.
      by rewrite Hr1. }
    change (s +:+ ":" +:+ "//" +:+ "" +:+ "/" +:+ path')
      with (s +:+ "://" +:+ String "/" path').
    assert (clean (String "/" path') = true) as HcX by (unfold clean in *; simpl; done).
    assert (url_head (s +:+ "://" +:+ String "/" path') = (s, "", String "/" path'))
      as Hhead by by rewrite (url_head_built s _ Hg HcX).
    assert (contains "?" (String "/" path') = false) as HqX by (simpl; done).
    assert (contains "#" (String "/" path') = false) as HfX by (simpl; done).
    rewrite (urlparse_with_query _ _ _ _ _ Hhead HqX HfX Hcq Hfq).
    intros Heq. apply normal_form_inj in Heq. rewrite !str_app_nil_l in Heq.
    destruct (params_step_prefix s (String "/" path')) as (rest & Hrest & _).
    rewrite (or_else_id p "/" Hpne) in Heq.
    destruct (fst (params_step s (String "/" path'))) as [|c x].
    + change (or_else "" "/") with "/" in Heq. subst p. done.
    + rewrite str_app_cons in Hrest. injection Hrest as <- _.
      change (or_else (String "/" x) "/") with (String "/" x) in Heq.
      subst p. done.
Qed.

(** a fragment changes what [normalize_url] returns exactly for the
    URLs that [fragment_neutral] rejects *)
Lemma py_normalize_url_fragment_iff u f :
  contains "#" u = false →
  Py.normalize_url (u +:+ String "#" f) = Py.normalize_url u ↔
  fragment_neutral u = true.
Proof.
  intros Hf. split.
  - intros Heq. destruct (fragment_neutral u) eqn:Hneu; [done|]. exfalso.
    destruct (reparse_defrag_differs u Hneu) as [Hn Hdiff].
    revert Heq. rewrite !py_normalize_url_eq, !normalize_url_eq.
    rewrite (urldefrag_app_fragment u f Hf), (urldefrag_no_fragment u Hf).
    cbn [fst]. rewrite Hf, (urlparse_app_fragment u f Hf). cbn [netloc andb orb].
    rewrite Hn, netloc_error_nil, andb_false_r. cbn [orb].
    rewrite Hn in Hdiff. destruct (netloc_error _); [done|]. by intros [= ?].
  - intros Hneu. by apply normalize_url_neutral_fragment.
Qed.

(** ** [lower] and substrings up to letter case *)

Lemma lower_app a b : lower (a +:+ b) = lower a +:+ lower b.
Proof. induction a as [|x a IH]; [done|]. rewrite str_app_cons. simpl. by rewrite IH. Qed.

Lemma lower_app_inv s a b :
  lower s = a +:+ b → ∃ s1 s2, s = s1 +:+ s2 ∧ lower s1 = a ∧ lower s2 = b.
Proof.
  revert s. induction a as [|x a IH]; intros s Hs.
  - by exists "", s.
  - destruct s as [|c s]; [done|]. rewrite str_app_cons in Hs. simpl in Hs.
    injection Hs as Hc Hs. destruct (IH s Hs) as (s1 & s2 & -> & H1 & H2).
    exists (String c s1), s2. split_and!; [done| |done]. simpl. by rewrite Hc, H1.
Qed.

(** a character that [lower] maps to an ASCII character is that
    character or its upper-case letter *)
Lemma lower_char_same_letter c t :
  lower_char c = t → char_in 0 127 t = true → same_letter c t = true.
Proof. intros <-. by ascii_cases c. Qed.

Lemma same_letter_lower_char c t :
  same_letter c t = true → lower_char c = lower_char t.
Proof.
  unfold same_letter.
  intros [->%Ascii.eqb_eq | [Hl Hn]%andb_true_iff]%orb_true_iff; [done|].
  apply Nat.eqb_eq in Hn.
  assert (c = ascii_of_nat (nat_of_ascii t - 32)) as ->.
  { rewrite <- Hn, Nat.add_sub. by rewrite ascii_nat_embedding. }
  revert Hl. clear. by ascii_cases t.
Qed.

Lemma lower_matches s pattern :
  all_chars (char_in 0 127) pattern = true →
  lower s = pattern → matches_ignoring_case s pattern = true.
Proof.
  revert pattern. induction s as [|c s IH]; intros [|t pattern]; try done.
  simpl. intros [Ht Hall]%andb_true_iff [= Hc Hs].
  by rewrite (lower_char_same_letter c t Hc Ht), (IH pattern Hall Hs).
Qed.

Lemma matches_lower s pattern :
  matches_ignoring_case s pattern = true → lower s = lower pattern.
Proof.
  revert pattern. induction s as [|c s IH]; intros [|t pattern]; try done.
  simpl. intros [Hc Hs]%andb_true_iff.
  by rewrite (same_letter_lower_char c t Hc), (IH pattern Hs).
Qed.

(** [pattern in hay.lower()], for a lower-case ASCII [pattern], is
    containment up to letter case *)
Lemma str_in_lower pattern hay :
  all_chars (char_in 0 127) pattern = true → lower pattern = pattern →
  str_in pattern (lower hay) = true ↔ contains_ignoring_case hay pattern.
Proof.
  intros Hascii Hlow. rewrite str_in_spec. split.
  - intros (pre & post & Heq).
    destruct (lower_app_inv _ _ _ Heq) as (s1 & s' & -> & _ & Heq').
    destruct (lower_app_inv _ _ _ Heq') as (s2 & s3 & -> & Hmid & _).
    exists s1, s2, s3. split; [done|]. by apply lower_matches.
  - intros (pre & mid & post & -> & Hm).
    exists (lower pre), (lower post).
    by rewrite !lower_app, (matches_lower _ _ Hm), Hlow.
Qed.

(** ** Properties of the crawl loop *)

(** C6: in every crawl run, at every moment of the run and at its end,
    no URL appears in more than one row of the audit log; each logged
    URL is in the visited set, which is what the membership test at
    dequeue time consults. *)
Theorem audit_log_urls_unique (W : world) (A : crawl_args) (n : nat) :
  NoDup (r_url <$> audit_log (trace (run W A n))) ∧
  (∀ r, r ∈ audit_log (trace (run W A n)) → r_url r ∈ visited (run W A n)) ∧
  match crawl W A n with
  | Some tr => NoDup (r_url <$> audit_log tr)
  | None => True
  end.
Proof.
  pose proof (run_inv W A n) as I. split_and!.
  - apply (inv_log_nodup A _ I).
  - apply (inv_log_visited A _ I).
  - unfold crawl. destruct (loop_cond A (run W A n)); [done|].
    rewrite audit_log_app. simpl. rewrite app_nil_r.
    apply (inv_log_nodup A _ I).
Qed.

(** the rows of fetched and errored targets, which are the ones
    [processed] counts, never exceed the page budget *)
Lemma counted_rows_within_budget (W : world) (A : crawl_args) (n : nat) :
  (Z.of_nat (length (filter (λ r, is_blocked_row r = false)
                            (audit_log (trace (run W A n)))))
   ≤ Z.max 0 (max_pages A))%Z.
Proof.
  pose proof (run_inv W A n) as I.
  rewrite (inv_counted A _ I), <- (inv_processed A _ I).
  apply (inv_budget A _ I).
Qed.

(** the progress bar, opened with [total=max_pages], ticks once per
    audit row, robots-blocked rows included *)
Lemma pbar_counts_every_row (W : world) (A : crawl_args) (n : nat) :
  pbar_ticks (trace (run W A n)) = length (audit_log (trace (run W A n))).
Proof. apply (inv_ticks A _ (run_inv W A n)). Qed.

(** C2: with a page budget of 2, a seed page whose two links are both
    disallowed by robots.txt yields three audit rows: the robots branch
    logs a row and ticks the progress bar but leaves [processed]
    unchanged, so the run ends with [processed = 1] and three rows. *)
Theorem blocked_rows_escape_the_budget :
  let A := example_args "http://example.com/" 1 2 in
  max_pages A = 2%Z ∧
  ∃ tr, crawl blocked_links_world A 5 = Some tr ∧
        length (audit_log tr) = 3%nat ∧
        r_status <$> audit_log tr =
          [VInt 200; VStr "robots_blocked"; VStr "robots_blocked"] ∧
        pbar_ticks tr = 3%nat ∧
        processed (run blocked_links_world A 5) = 1%Z.
Proof.
  simpl. split; [done|].
  eexists. split; [vm_compute; reflexivity|].
  split_and!; vm_compute; reflexivity.
Qed.

(** every URL that is queued, requested or logged passes the scoping
    test of the source: its lower-cased netloc has the seed's
    lower-cased netloc as a string suffix *)
Lemma scope_is_netloc_suffix (W : world) (A : crawl_args) (n : nat) :
  let st := run W A n in
  (∀ u l, (u, l) ∈ queue st →
     ∃ pre, get_domain u = pre +:+ get_domain (start_url A)) ∧
  (∀ u, u ∈ requests (trace st) →
     ∃ pre, get_domain u = pre +:+ get_domain (start_url A)) ∧
  (∀ r, r ∈ audit_log (trace st) →
     ∃ pre, get_domain (r_url r) = pre +:+ get_domain (start_url A)).
Proof.
  pose proof (run_inv W A n) as I. simpl. split_and!.
  - intros u l Hin. apply endswith_spec, (inv_scope_queue A _ I u l Hin).
  - intros u Hin. apply endswith_spec, (inv_scope_visited A _ I).
    by apply (inv_req_visited A _ I).
  - intros r Hin. apply endswith_spec, (inv_scope_visited A _ I).
    by apply (inv_log_visited A _ I).
Qed.

(** C1: seeded at [http://example.com/], a page linking to
    [http://evilexample.com/] gets that link enqueued, fetched, saved
    and logged, although its host is neither the seed's host nor a
    dot-separated subdomain of it: the queue guard compares netlocs
    with [endswith], without a dot boundary.  (The link to
    [http://other.com/b] on the same page is dropped.) *)
Theorem lookalike_host_is_crawled :
  let A := example_args "http://example.com/" 1 10 in
  let host := get_domain "http://evilexample.com/" in
  let seed_host := get_domain (start_url A) in
  host = "evilexample.com" ∧ seed_host = "example.com" ∧
  host ≠ seed_host ∧ (¬ ∃ pre, host = pre +:+ "." +:+ seed_host) ∧
  ∃ tr, crawl lookalike_world A 10 = Some tr ∧
        enqueued tr =
          [("http://evilexample.com/", 1%Z); ("http://example.com/a", 1%Z)] ∧
        requests tr =
          ["http://example.com/"; "http://evilexample.com/";
           "http://example.com/a"] ∧
        r_url <$> audit_log tr =
          ["http://example.com/"; "http://evilexample.com/";
           "http://example.com/a"].
Proof.
  simpl. split_and!; [vm_compute; reflexivity|vm_compute; reflexivity| | |].
  - vm_compute. discriminate.
  - intros H. apply endswith_spec in H. vm_compute in H. discriminate.
  - eexists. split; [vm_compute; reflexivity|].
    split_and!; vm_compute; reflexivity.
Qed.

(** C9: when [session.get] raises a [RequestException] for a target
    that is neither discarded nor robots-blocked, the turn completes:
    it appends the row [url, "error:<class name>", "", ""], marks the
    URL visited, counts it, ticks the progress bar and sleeps, and it
    leaves the rest of the queue for the following turns; in no later
    turn is the URL requested or logged again. *)
Theorem request_error_is_logged_once (W : world) (A : crawl_args)
    (st : state) (url : string) (level : Z) (rest : list (string * Z))
    (exc_name : string) :
  queue st = (url, level) :: rest →
  loop_cond A st = true →
  (url ∉ visited st) → (level ≤ depth A)%Z → blocked W A url = false →
  session_get W (the_session A) (trace st ++ robots_events A url) url
    = Raised exc_name →
  step W A st =
    mkState ({[url]} ∪ visited st) rest (processed st + 1)%Z
      (trace st ++ robots_events A url ++
       [Get url;
        CsvRow (log_path A) (mkRow url (VStr ("error:" +:+ exc_name)) "" "");
        MarkVisited url; PbarUpdate; Sleep (delay A)]) ∧
  audit_log (trace (step W A st)) =
    audit_log (trace st) ++ [mkRow url (VStr ("error:" +:+ exc_name)) "" ""] ∧
  ∀ k, ∃ evs,
    trace (steps W A k (step W A st)) = trace (step W A st) ++ evs ∧
    (url ∉ requests evs) ∧ (url ∉ (r_url <$> audit_log evs)).
Proof.
  intros Hq Hc Hv Hl Hb Hget.
  pose proof (step_raised W A st url level rest Hq Hc exc_name Hv Hl Hb Hget) as Hs.
  split_and!; [done| |].
  - rewrite Hs. simpl.
    by destruct (plain_turn_views A (trace st) url
                   (mkRow url (VStr ("error:" +:+ exc_name)) "" "")) as (-> & _).
  - intros k. apply visited_is_final. rewrite Hs. simpl.
    apply elem_of_union_l. by apply elem_of_singleton.
Qed.

Lemma request_error_is_logged_once_witness :
  let W := timeout_world in
  let A := example_seed_args in
  let st := run W A 1 in
  audit_log (trace (step W A st)) =
    audit_log (trace st) ++ [mkRow "http://example.com/a" (VStr "error:Timeout") "" ""] ∧
  queue (step W A st) = [("http://example.com/b", 1%Z)].
Proof.
  simpl.
  destruct (request_error_is_logged_once timeout_world example_seed_args
              (run timeout_world example_seed_args 1)
              "http://example.com/a" 1 [("http://example.com/b", 1%Z)] "Timeout")
    as (Hs & Hlog & _).
  - vm_compute. reflexivity.
  - vm_compute. reflexivity.
  - apply (bool_decide_eq_false_1 _). vm_compute. reflexivity.
  - vm_compute. discriminate.
  - vm_compute. reflexivity.
  - vm_compute. reflexivity.
  - split; [exact Hlog | by rewrite Hs].
Defined.

(** C7: a target whose depth equals the max depth (and that is neither
    visited nor robots-blocked) is requested, and a 200 text/html body
    is written to a file, but the turn adds no entry to the queue and
    appends no link; a target whose depth exceeds the max depth is
    dropped with no effect at all: no audit row, no request, no event. *)
Theorem max_depth_is_fetched_but_not_expanded (W : world) (A : crawl_args)
    (st : state) (url : string) (level : Z) (rest : list (string * Z)) :
  queue st = (url, level) :: rest →
  loop_cond A st = true →
  ((url ∉ visited st) → level = depth A → blocked W A url = false →
   requests (trace (step W A st)) = requests (trace st) ++ [url] ∧
   queue (step W A st) = rest ∧
   enqueued (trace (step W A st)) = enqueued (trace st) ∧
   ∀ resp,
     session_get W (the_session A) (trace st ++ robots_events A url) url
       = Returned resp →
     is_html_200 (status_code resp) (default "" (header_content_type resp))
       = true →
     saved_files (trace (step W A st)) =
       saved_files (trace st) ++
       [(save_html_path (output_dir A) url, content resp)]) ∧
  ((depth A < level)%Z →
   step W A st = mkState (visited st) rest (processed st) (trace st)).
Proof.
  intros Hq Hc. split.
  - intros Hv Hl Hb. assert (level ≤ depth A)%Z as Hle by lia.
    assert (∀ resp, page_links W A url level (visited st) resp = []) as Hnil.
    { intros resp. unfold page_links.
      destruct (Z.ltb_spec level (depth A)); [lia | done]. }
    destruct (session_get W (the_session A) (trace st ++ robots_events A url) url)
      as [resp|exc] eqn:Hget.
    + destruct (is_html_200 (status_code resp)
                  (default "" (header_content_type resp))) eqn:Hhtml.
      * pose proof (step_html W A st url level rest Hq Hc resp Hv Hle Hb Hget Hhtml)
          as Hs. simpl in Hs. rewrite Hnil in Hs. simpl in Hs.
        rewrite Hs. simpl. rewrite app_nil_r.
        destruct (fetch_turn_views A (trace st) url
                    (save_html_path (output_dir A) url) (content resp) [] (level + 1)
                    (mkRow url (VInt (status_code resp))
                       (default "" (header_content_type resp))
                       (save_html_path (output_dir A) url)))
          as (_ & Hr & _ & Hf & He).
        simpl in Hr, Hf, He. rewrite Hr, He, app_nil_r.
        split_and!; try done. intros resp' [= <-] _. exact Hf.
      * pose proof (step_not_html W A st url level rest Hq Hc resp Hv Hle Hb Hget Hhtml)
          as Hs. rewrite Hs. simpl.
        destruct (plain_turn_views A (trace st) url
                    (mkRow url (VInt (status_code resp))
                       (default "" (header_content_type resp)) ""))
          as (_ & Hr & _ & _ & He).
        simpl in Hr, He. rewrite Hr, He.
        split_and!; try done. intros resp' [= <-] Hc'. congruence.
    + pose proof (step_raised W A st url level rest Hq Hc exc Hv Hle Hb Hget) as Hs.
      rewrite Hs. simpl.
      destruct (plain_turn_views A (trace st) url
                  (mkRow url (VStr ("error:" +:+ exc)) "" ""))
        as (_ & Hr & _ & _ & He).
      simpl in Hr, He. rewrite Hr, He.
      split_and!; try done.
  - intros Hgt. apply (step_discard W A st url level rest Hq Hc). by right.
Qed.

Lemma max_depth_is_fetched_but_not_expanded_witness :
  let W := lookalike_world in
  let A := example_seed_args in
  let st := run W A 1 in
  let deep := mkState ∅ [("http://example.com/deep", 2%Z)] 0 [] in
  (requests (trace (step W A st)) =
     requests (trace st) ++ ["http://evilexample.com/"] ∧
   queue (step W A st) = [("http://example.com/a", 1%Z)] ∧
   saved_files (trace (step W A st)) =
     saved_files (trace st) ++ [("tor_output/evilexample.com_index.html", "")]) ∧
  step W A deep = mkState ∅ [] 0 [].
Proof.
  simpl. split.
  - destruct (max_depth_is_fetched_but_not_expanded lookalike_world example_seed_args
                (run lookalike_world example_seed_args 1)
                "http://evilexample.com/" 1 [("http://example.com/a", 1%Z)])
      as (Hfetch & _).
    + vm_compute. reflexivity.
    + vm_compute. reflexivity.
    + destruct Hfetch as (Hr & Hq & _ & Hsave).
      * apply (bool_decide_eq_false_1 _). vm_compute. reflexivity.
      * vm_compute. reflexivity.
      * vm_compute. reflexivity.
      * split_and!; [exact Hr | exact Hq |].
        apply (Hsave (mkResponse 200 (Some "text/html; charset=utf-8") "" "")).
        -- vm_compute. reflexivity.
        -- vm_compute. reflexivity.
  - apply (max_depth_is_fetched_but_not_expanded lookalike_world example_seed_args
             (mkState ∅ [("http://example.com/deep", 2%Z)] 0 [])
             "http://example.com/deep" 2 []).
    + reflexivity.
    + vm_compute. reflexivity.
    + vm_compute. reflexivity.
Defined.

(** C8: for a response that [session.get] returns, the body is written
    to a file and the page's links are considered (accepted through the
    queue guard when the depth allows) exactly when the status code is
    200 and the Content-Type contains [text/html] as a substring up to
    the case of its letters ([Text/HTML] as well as [text/html]); any
    other response is logged with its status and content type and an
    empty saved-file field, writes no file and appends no link.  The
    saved-file field of a saved page is never empty. *)
Theorem only_html_200_is_saved_and_expanded (W : world) (A : crawl_args)
    (st : state) (url : string) (level : Z) (rest : list (string * Z))
    (resp : response) :
  queue st = (url, level) :: rest →
  loop_cond A st = true →
  (url ∉ visited st) → (level ≤ depth A)%Z → blocked W A url = false →
  session_get W (the_session A) (trace st ++ robots_events A url) url
    = Returned resp →
  let status := status_code resp in
  let ctype := default "" (header_content_type resp) in
  let file := save_html_path (output_dir A) url in
  let links :=
    if (level <? depth A)%Z
    then accepted A (visited st) (iter_set W (extract_links W url (text resp)))
    else [] in
  let new := (λ l, (l, (level + 1)%Z)) <$> links in
  let st' := step W A st in
  (is_html_200 status ctype = true ↔
   status = 200%Z ∧ contains_ignoring_case ctype "text/html") ∧
  (is_html_200 status ctype = true →
   saved_files (trace st') = saved_files (trace st) ++ [(file, content resp)] ∧
   queue st' = rest ++ new ∧
   enqueued (trace st') = enqueued (trace st) ++ new ∧
   audit_log (trace st') =
     audit_log (trace st) ++ [mkRow url (VInt status) ctype file] ∧
   file ≠ "") ∧
  (is_html_200 status ctype = false →
   saved_files (trace st') = saved_files (trace st) ∧
   queue st' = rest ∧
   enqueued (trace st') = enqueued (trace st) ∧
   audit_log (trace st') =
     audit_log (trace st) ++ [mkRow url (VInt status) ctype ""]).
Proof.
  intros Hq Hc Hv Hl Hb Hget. simpl. split_and!.
  - unfold is_html_200. by rewrite andb_true_iff, Z.eqb_eq, str_in_lower.
  - intros Hhtml.
    pose proof (step_html W A st url level rest Hq Hc resp Hv Hl Hb Hget Hhtml) as Hs.
    simpl in Hs. unfold page_links in Hs. rewrite Hs. simpl.
    destruct (fetch_turn_views A (trace st) url
                (save_html_path (output_dir A) url) (content resp)
                (if (level <? depth A)%Z
                 then accepted A (visited st) (iter_set W (extract_links W url (text resp)))
                 else [])
                (level + 1)
                (mkRow url (VInt (status_code resp))
                   (default "" (header_content_type resp))
                   (save_html_path (output_dir A) url)))
      as (Ha & _ & _ & Hf & He).
    simpl in Ha, Hf, He. rewrite Ha, Hf, He.
    split_and!; try done. apply save_html_path_nonempty.
  - intros Hhtml.
    pose proof (step_not_html W A st url level rest Hq Hc resp Hv Hl Hb Hget Hhtml)
      as Hs. rewrite Hs. simpl.
    destruct (plain_turn_views A (trace st) url
                (mkRow url (VInt (status_code resp))
                   (default "" (header_content_type resp)) ""))
      as (Ha & _ & _ & Hf & He).
    simpl in Ha, Hf, He. rewrite Ha, Hf, He. done.
Qed.

Lemma only_html_200_is_saved_and_expanded_witness :
  let A := example_seed_args in
  (let st' := step pdf_world A (crawl_init pdf_world A) in
   saved_files (trace st') = [] ∧ queue st' = [] ∧
   audit_log (trace st') =
     [mkRow "http://example.com/" (VInt 200) "application/pdf" ""]) ∧
  (let st' := step lookalike_world A (crawl_init lookalike_world A) in
   queue st' =
     [("http://evilexample.com/", 1%Z); ("http://example.com/a", 1%Z)] ∧
   audit_log (trace st') =
     [mkRow "http://example.com/" (VInt 200) "text/html; charset=utf-8"
        "tor_output/example.com_index.html"]) ∧
  (let st' := step mixed_case_world A (crawl_init mixed_case_world A) in
   queue st' = [("http://example.com/a", 1%Z)] ∧
   audit_log (trace st') =
     [mkRow "http://example.com/" (VInt 200) "Text/HTML; Charset=UTF-8"
        "tor_output/example.com_index.html"]).
Proof.
  simpl. split; [|split].
  - destruct (only_html_200_is_saved_and_expanded pdf_world example_seed_args
                (crawl_init pdf_world example_seed_args)
                "http://example.com/" 0 []
                (mkResponse 200 (Some "application/pdf") "%PDF-1.7" "%PDF-1.7"))
      as (_ & _ & Hother).
    + vm_compute. reflexivity.
    + vm_compute. reflexivity.
    + apply (bool_decide_eq_false_1 _). vm_compute. reflexivity.
    + vm_compute. discriminate.
    + vm_compute. reflexivity.
    + vm_compute. reflexivity.
    + destruct Hother as (Hf & Hq & _ & Ha); [vm_compute; reflexivity|].
      split_and!; [exact Hf | exact Hq | exact Ha].
  - destruct (only_html_200_is_saved_and_expanded lookalike_world example_seed_args
                (crawl_init lookalike_world example_seed_args)
                "http://example.com/" 0 []
                (mkResponse 200 (Some "text/html; charset=utf-8")
                   "http://example.com/a http://evilexample.com/ http://other.com/b"
                   "http://example.com/a http://evilexample.com/ http://other.com/b"))
      as (_ & Hhtml & _).
    + vm_compute. reflexivity.
    + vm_compute. reflexivity.
    + apply (bool_decide_eq_false_1 _). vm_compute. reflexivity.
    + vm_compute. discriminate.
    + vm_compute. reflexivity.
    + vm_compute. reflexivity.
    + destruct Hhtml as (_ & Hq & _ & Ha & _); [vm_compute; reflexivity|].
      split; [rewrite Hq; vm_compute; reflexivity | rewrite Ha; vm_compute; reflexivity].
  - destruct (only_html_200_is_saved_and_expanded mixed_case_world example_seed_args
                (crawl_init mixed_case_world example_seed_args)
                "http://example.com/" 0 []
                (mkResponse 200 (Some "Text/HTML; Charset=UTF-8")
                   "http://example.com/a" "http://example.com/a"))
      as (Hiff & Hhtml & _).
    + vm_compute. reflexivity.
    + vm_compute. reflexivity.
    + apply (bool_decide_eq_false_1 _). vm_compute. reflexivity.
    + vm_compute. discriminate.
    + vm_compute. reflexivity.
    + vm_compute. reflexivity.
    + destruct Hhtml as (_ & Hq & _ & Ha & _).
      { apply Hiff. split; [reflexivity|].
        exists "", "Text/HTML", "; Charset=UTF-8". split; reflexivity. }
      split; [rewrite Hq; vm_compute; reflexivity | rewrite Ha; vm_compute; reflexivity].
Defined.

(** C3, as stated, fails: on a page that links to itself the turn
    checks robots.txt, requests the page, saves it, appends the page's
    own URL to the queue and writes the audit row, and only then adds
    the URL to the visited set. *)
Lemma self_link_is_enqueued_before_visited_add :
  let W := self_link_world in
  let A := example_seed_args in
  let url := "http://example.com/" in
  queue (crawl_init W A) = [(url, 0%Z)] ∧
  trace (step W A (crawl_init W A)) =
    trace (crawl_init W A) ++
    [RobotsCheck url; Get url;
     WriteFile "tor_output/example.com_index.html" "http://example.com/";
     Enqueue url 1;
     CsvRow "tor_output/crawl_log.csv"
       (mkRow url (VInt 200) "text/html; charset=utf-8"
          "tor_output/example.com_index.html");
     MarkVisited url; PbarUpdate; Sleep 2] ∧
  queue (step W A (crawl_init W A)) = [(url, 1%Z)].
Proof. simpl. split_and!; vm_compute; reflexivity. Qed.

(** C3, amended: for every target dequeued and not discarded, the URL
    is added to the visited set at the end of its turn: after the robots
    check, after the request and the link admission of a fetch, and
    after the audit row; only the progress-bar tick and the sleep
    follow.  Links are accepted against the visited set of the start of
    the turn, which does not hold the target's own URL.  Once the turn
    is over the URL is visited, so a copy of it met later in the queue
    is discarded without any effect. *)
Theorem visited_add_ends_the_turn (W : world) (A : crawl_args)
    (st : state) (url : string) (level : Z) (rest : list (string * Z)) :
  queue st = (url, level) :: rest →
  loop_cond A st = true →
  (url ∉ visited st) → (level ≤ depth A)%Z →
  (∃ before after,
     trace (step W A st) = trace st ++ before ++ [MarkVisited url] ++ after ∧
     marked before = [] ∧
     robots_checked before = (if respect_robots A then [url] else []) ∧
     requests before = (if blocked W A url then [] else [url]) ∧
     r_url <$> audit_log before = [url] ∧
     (after = [PbarUpdate] ∨ after = [PbarUpdate; Sleep (delay A)])) ∧
  visited (step W A st) = {[url]} ∪ visited st ∧
  (∃ new, queue (step W A st) = rest ++ new ∧
          ∀ u l, (u, l) ∈ new → passes_guard A (visited st) u = true) ∧
  (∀ st2 level2 rest2,
     queue st2 = (url, level2) :: rest2 → loop_cond A st2 = true →
     url ∈ visited st2 →
     step W A st2 = mkState (visited st2) rest2 (processed st2) (trace st2)).
Proof.
  intros Hq Hc Hv Hl. destruct (blocked W A url) eqn:Hb.
  - pose proof (step_blocked W A st url level rest Hq Hc Hv Hl Hb) as Hs.
    assert (respect_robots A = true) as Hr.
    { unfold blocked in Hb. by destruct (respect_robots A). }
    rewrite Hs. simpl. split_and!.
    + exists [RobotsCheck url;
              CsvRow (log_path A) (mkRow url (VStr "robots_blocked") "" "")],
             [PbarUpdate].
      rewrite Hr. split_and!; try done. by left.
    + done.
    + exists []. rewrite app_nil_r. split; [done|]. intros ? ? Hin. inversion Hin.
    + intros st2 level2 rest2 Hq2 Hc2 Hv2.
      apply (step_discard W A st2 url level2 rest2 Hq2 Hc2). by left.
  - destruct (fetch_turn_order W A st url level rest Hq Hc Hv Hl Hb)
      as (mid & new & r & Hs & Hru & Hm & Hk & Ha & Hrq & Hsl & Hnew).
    rewrite Hs. simpl. split_and!.
    + eexists _, [PbarUpdate; Sleep (delay A)]. split; [reflexivity|].
      destruct (before_mark_views A url mid r Hm Hk Ha Hrq Hsl)
        as (Bm & Bc & Br & Ba & _).
      simpl in Bm, Bc, Br, Ba. rewrite Bm, Bc, Br, Ba. simpl. rewrite Hru.
      split_and!; try done. by right.
    + done.
    + exists new. split; [done|]. intros u l Hin. by apply (Hnew u l).
    + intros st2 level2 rest2 Hq2 Hc2 Hv2.
      apply (step_discard W A st2 url level2 rest2 Hq2 Hc2). by left.
Qed.

Lemma visited_add_ends_the_turn_witness :
  let W := self_link_world in
  let A := example_seed_args in
  let url := "http://example.com/" in
  visited (step W A (crawl_init W A)) = {[url]} ∪ visited (crawl_init W A) ∧
  step W A (step W A (crawl_init W A)) =
    mkState (visited (step W A (crawl_init W A))) []
      (processed (step W A (crawl_init W A)))
      (trace (step W A (crawl_init W A))).
Proof.
  simpl.
  destruct (visited_add_ends_the_turn self_link_world example_seed_args
              (crawl_init self_link_world example_seed_args)
              "http://example.com/" 0 [])
    as (_ & Hvis & _ & Hlater).
  - vm_compute. reflexivity.
  - vm_compute. reflexivity.
  - apply (bool_decide_eq_false_1 _). vm_compute. reflexivity.
  - vm_compute. discriminate.
  - split; [exact Hvis|].
    apply (Hlater _ 1%Z []).
    + vm_compute. reflexivity.
    + vm_compute. reflexivity.
    + apply (bool_decide_eq_true_1 _). vm_compute. reflexivity.
Defined.

(** C4, as stated, fails: the two robots-blocked targets of this run
    are processed without any sleep; the only sleep of the run is the
    one after the fetch of the seed page. *)
Lemma blocked_targets_are_not_followed_by_sleep :
  let W := blocked_links_world in
  let A := example_args "http://example.com/" 1 2 in
  let a := "http://example.com/a" in
  let b := "http://example.com/b" in
  trace (run W A 3) =
    trace (run W A 1) ++
    [RobotsCheck a;
     CsvRow "tor_output/crawl_log.csv" (mkRow a (VStr "robots_blocked") "" "");
     MarkVisited a; PbarUpdate;
     RobotsCheck b;
     CsvRow "tor_output/crawl_log.csv" (mkRow b (VStr "robots_blocked") "" "");
     MarkVisited b; PbarUpdate] ∧
  ∃ tr, crawl W A 3 = Some tr ∧
        length (audit_log tr) = 3%nat ∧ sleeps tr = [delay A].
Proof.
  simpl. split; [vm_compute; reflexivity|].
  eexists. split; [vm_compute; reflexivity|].
  split; vm_compute; reflexivity.
Qed.

(** C4, amended: after every target that is requested, whether the
    request returns or raises, the turn ends with a sleep of the
    configured delay, and that is its only sleep; a robots-blocked
    target is logged and marked visited without any sleep and without
    any request. *)
Theorem sleep_follows_requests_only (W : world) (A : crawl_args)
    (st : state) (url : string) (level : Z) (rest : list (string * Z)) :
  queue st = (url, level) :: rest →
  loop_cond A st = true →
  (url ∉ visited st) → (level ≤ depth A)%Z →
  (blocked W A url = false →
   ∃ evs, trace (step W A st) = trace st ++ evs ++ [Sleep (delay A)] ∧
          sleeps evs = [] ∧ requests evs = [url]) ∧
  (blocked W A url = true →
   sleeps (trace (step W A st)) = sleeps (trace st) ∧
   requests (trace (step W A st)) = requests (trace st) ∧
   audit_log (trace (step W A st)) =
     audit_log (trace st) ++ [mkRow url (VStr "robots_blocked") "" ""]).
Proof.
  intros Hq Hc Hv Hl. split; intros Hb.
  - destruct (fetch_turn_order W A st url level rest Hq Hc Hv Hl Hb)
      as (mid & new & r & Hs & Hru & Hm & Hk & Ha & Hrq & Hsl & Hnew).
    rewrite Hs. cbn [trace].
    exists ((robots_events A url ++ [Get url] ++ mid ++ [CsvRow (log_path A) r]) ++
            [MarkVisited url; PbarUpdate]).
    split; [by simplify_list_eq|].
    destruct (before_mark_views A url mid r Hm Hk Ha Hrq Hsl)
      as (_ & _ & Br & _ & Bs).
    simpl in Br, Bs. rewrite sleeps_app, requests_app. simpl.
    rewrite Br, Bs. done.
  - pose proof (step_blocked W A st url level rest Hq Hc Hv Hl Hb) as Hs.
    rewrite Hs. simpl.
    destruct (blocked_trace_views A (trace st) url) as (Ea & Er & Es & _).
    simpl in Ea, Er, Es. by rewrite Ea, Er, Es.
Qed.

Lemma sleep_follows_requests_only_witness :
  let W := blocked_links_world in
  let A := example_args "http://example.com/" 1 2 in
  let st := run W A 1 in
  sleeps (trace (step W A st)) = sleeps (trace st) ∧
  audit_log (trace (step W A st)) =
    audit_log (trace st) ++
    [mkRow "http://example.com/a" (VStr "robots_blocked") "" ""].
Proof.
  simpl.
  destruct (sleep_follows_requests_only blocked_links_world
              (example_args "http://example.com/" 1 2)
              (run blocked_links_world (example_args "http://example.com/" 1 2) 1)
              "http://example.com/a" 1 [("http://example.com/b", 1%Z)])
    as (_ & Hblocked).
  - vm_compute. reflexivity.
  - vm_compute. reflexivity.
  - apply (bool_decide_eq_false_1 _). vm_compute. reflexivity.
  - vm_compute. discriminate.
  - destruct Hblocked as (Hs & _ & Ha); [vm_compute; reflexivity|].
    split; [exact Hs | exact Ha].
Defined.

(** ** Properties of [normalize_url] *)




(** C10, as stated, fails for fragments: [http:x] has a scheme that
    takes a netloc, no netloc and a relative path; with a fragment,
    [urldefrag] rebuilds it as [http:///x], whose path is [/x].  A path
    that starts with [//] is rebuilt without the empty netloc in front
    and is read as a netloc afterwards. *)
Lemma normalize_url_fragment_changes_the_result :
  Py.normalize_url "http:x" = Some "http://x" ∧
  Py.normalize_url "http:x#f" = Some "http:///x" ∧
  Py.normalize_url "////x" = Some "http:////x" ∧
  Py.normalize_url "////x#f" = Some "http://x/".
Proof. split_and!; vm_compute; reflexivity. Qed.

(** C10, amended: whenever [normalize_url] returns, its result is
    [scheme://netloc path], holds neither [?] nor [#], and parses, when
    it parses, with an empty query and fragment.  A URL normalizes the
    same (or raises the same) whatever query is appended to it and
    whatever the text of its fragment.  It normalizes the same with and
    without a fragment exactly when [fragment_neutral] holds of it: when
    it has a netloc, or when its path does not start with [//] and is
    empty or absolute unless the scheme is empty or takes no netloc.
    The crawler only ever extracts, requests and logs normalized URLs,
    each requested at most once. *)
Theorem normalize_url_discards_query_and_neutral_fragment
    (W : world) (A : crawl_args) (n : nat) (x y u q1 q2 f1 f2 : string) :
  (Py.normalize_url x = Some y →
   y = (let parsed := urlparse (fst (urldefrag x)) in
        or_else (scheme parsed) "http" +:+ "://" +:+ netloc parsed +:+
        or_else (path parsed) "/") ∧
   contains "?" y = false ∧ contains "#" y = false ∧
   ∀ p, Py.urlparse y = Some p → query p = "" ∧ fragment p = "") ∧
  (contains "?" u = false → contains "#" u = false →
   contains "#" q1 = false → contains "#" q2 = false →
   Py.normalize_url (u +:+ "?" +:+ q1) = Py.normalize_url u ∧
   Py.normalize_url (u +:+ "?" +:+ q1) = Py.normalize_url (u +:+ "?" +:+ q2)) ∧
  (contains "#" u = false →
   Py.normalize_url (u +:+ "#" +:+ f1) = Py.normalize_url (u +:+ "#" +:+ f2) ∧
   (Py.normalize_url (u +:+ "#" +:+ f1) = Py.normalize_url u ↔
    fragment_neutral u = true) ∧
   (netloc (urlparse u) ≠ "" → fragment_neutral u = true)) ∧
  (∀ base html link, link ∈ extract_links W base html →
     contains "?" link = false ∧ contains "#" link = false) ∧
  (∀ url, url ∈ requests (trace (run W A n)) →
     contains "?" url = false ∧ contains "#" url = false) ∧
  NoDup (requests (trace (run W A n))).
Proof.
  assert (∀ l, (∃ z, l = normalize_url z) →
               contains "?" l = false ∧ contains "#" l = false) as Hnormal.
  { intros l [z ->]. rewrite normalize_url_eq.
    apply normal_form_no_query_fragment. }
  split_and!.
  - intros Hx. destruct (py_normalize_url_some x y Hx) as [-> _].
    split_and!.
    + by rewrite normalize_url_eq.
    + by apply Hnormal; eexists.
    + by apply Hnormal; eexists.
    + intros p [_ ->]%py_urlparse_some. rewrite normalize_url_eq.
      by destruct (reparse_normal_form (fst (urldefrag x))) as (_ & _ & ? & ? & _).
  - intros Hq Hf Hf1 Hf2.
    change (u +:+ "?" +:+ q1) with (u +:+ String "?" q1).
    change (u +:+ "?" +:+ q2) with (u +:+ String "?" q2).
    by rewrite !py_normalize_url_drops_query.
  - intros Hf.
    change (u +:+ "#" +:+ f1) with (u +:+ String "#" f1).
    change (u +:+ "#" +:+ f2) with (u +:+ String "#" f2).
    split_and!.
    + by apply py_normalize_url_fragment_text.
    + by apply py_normalize_url_fragment_iff.
    + intros Hn. unfold fragment_neutral. cbv zeta.
      by rewrite (proj2 (nonempty_true _) Hn).
  - intros base html link Hin. by apply Hnormal, (extract_links_normal W base html).
  - intros url Hin. apply Hnormal.
    apply (inv_normal_visited A _ (run_inv W A n)).
    by apply (inv_req_visited A _ (run_inv W A n)).
  - apply (inv_req_nodup A _ (run_inv W A n)).
Qed.

Lemma normalize_url_discards_query_and_neutral_fragment_witness :
  Py.normalize_url "http://example.com/search?q=tor" =
    Some "http://example.com/search" ∧
  Py.normalize_url "http://example.com/search?q=tor" =
    Py.normalize_url "http://example.com/search?q=onion&page=2" ∧
  Py.normalize_url "example.com/search#results" =
    Py.normalize_url "example.com/search" ∧
  contains "?" "http://example.com/search" = false ∧
  (fragment_neutral "http:x" = false ∧
   Py.normalize_url "http:x#f" ≠ Py.normalize_url "http:x").
Proof.
  destruct (normalize_url_discards_query_and_neutral_fragment
              lookalike_world example_seed_args 0
              "http://example.com/search?q=tor" "http://example.com/search"
              "http://example.com/search" "q=tor" "q=onion&page=2" "results" "top")
    as (Hform & Hquery & _).
  destruct (normalize_url_discards_query_and_neutral_fragment
              lookalike_world example_seed_args 0
              "" "" "example.com/search" "" "" "results" "top")
    as (_ & _ & Hfrag & _).
  destruct (normalize_url_discards_query_and_neutral_fragment
              lookalike_world example_seed_args 0
              "" "" "http:x" "" "" "f" "g")
    as (_ & _ & Hbare & _).
  destruct Hform as (_ & Hnoq & _); [vm_compute; reflexivity|].
  destruct Hquery as [Hq1 Hq2]; [vm_compute; reflexivity..|].
  destruct Hfrag as (_ & Hf & _); [vm_compute; reflexivity|].
  destruct Hbare as (_ & Hb & _); [vm_compute; reflexivity|].
  split; [|split; [|split; [|split; [|split]]]].
  - transitivity (Py.normalize_url "http://example.com/search");
      [exact Hq1 | vm_compute; reflexivity].
  - exact Hq2.
  - apply Hf. vm_compute. reflexivity.
  - exact Hnoq.
  - vm_compute. reflexivity.
  - intros Heq. apply Hb in Heq. vm_compute in Heq. discriminate.
Defined.

(** ** More about the loop: halting, explicit turns *)

Section Halting.
Context (W : world) (A : crawl_args).

Lemma step_halted st : loop_cond A st = false → step W A st = st.
Proof. intros H. unfold step. by rewrite H. Qed.

Lemma steps_halted k st : loop_cond A st = false → steps W A k st = st.
Proof.
  intros H. induction k as [|k IH]; [done|]. simpl. rewrite IH. by apply step_halted.
Qed.

Lemma steps_step k st : steps W A k (step W A st) = step W A (steps W A k st).
Proof. induction k as [|k IH]; [done|]. simpl. by rewrite IH. Qed.

Lemma steps_add j k st : steps W A (j + k) st = steps W A j (steps W A k st).
Proof. induction j as [|j IH]; [done|]. simpl. by rewrite IH. Qed.

(** the loop exits from every state: a fetch uses up budget, and every
    other turn shortens the queue *)
Lemma loop_halts st : ∃ k, loop_cond A (steps W A k st) = false.
Proof.
  remember (Z.to_nat (max_pages A - processed st)) as m eqn:Hm.
  revert st Hm. induction m as [m IHm] using lt_wf_ind. intros st Hm.
  remember (length (queue st)) as q eqn:Hq.
  revert st Hm Hq. induction q as [|q IHq]; intros st Hm Hq.
  - exists 0%nat. simpl. unfold loop_cond. by destruct (queue st).
  - destruct (loop_cond A st) eqn:Hc; [|by exists 0%nat].
    assert (processed st < max_pages A)%Z as Hlt.
    { unfold loop_cond in Hc. destruct (queue st); [done|]. lia. }
    destruct (iteration_cases W A st Hc) as (url & level & rest & Hqu & Hcase).
    assert (length rest = q) as Hrest.
    { rewrite Hqu in Hq. simpl in Hq. lia. }
    assert (step W A st = iteration W A st) as Hstep.
    { unfold step. by rewrite Hc. }
    assert (∀ st', step W A st = st' →
                   (∃ k, loop_cond A (steps W A k st') = false) →
                   ∃ k, loop_cond A (steps W A k st) = false) as Hlift.
    { intros st' Hst' [k Hk]. exists (S k). simpl.
      by rewrite <- steps_step, Hst'. }
    destruct Hcase as [[_ Hit] | [(_ & _ & _ & Hit) | (_ & _ & _ & Hf)]].
    + rewrite Hit in Hstep. eapply Hlift; [exact Hstep|].
      apply IHq; [exact Hm | simpl; by rewrite Hrest].
    + rewrite Hit in Hstep. eapply Hlift; [exact Hstep|].
      apply IHq; [exact Hm | simpl; by rewrite Hrest].
    + destruct Hf as (mid & new & r & Hit & _).
      rewrite Hit in Hstep. eapply Hlift; [exact Hstep|].
      eapply (IHm (Z.to_nat (max_pages A - (processed st + 1)))); [|done].
      simpl. lia.
Qed.

End Halting.

Section ExplicitTurns.
Context (W : world) (A : crawl_args).

(** every turn, with its new state written out *)
Lemma step_explicit st :
  loop_cond A st = true →
  ∃ url level rest,
    queue st = (url, level) :: rest ∧
    ((url ∈ visited st ∨ (depth A < level)%Z) ∧
     step W A st = mkState (visited st) rest (processed st) (trace st)
     ∨
     blocked W A url = true ∧
     step W A st =
       mkState ({[url]} ∪ visited st) rest (processed st)
         (trace st ++
          [RobotsCheck url;
           CsvRow (log_path A) (mkRow url (VStr "robots_blocked") "" "");
           MarkVisited url; PbarUpdate])
     ∨
     blocked W A url = false ∧
     (∃ r, step W A st =
             mkState ({[url]} ∪ visited st) rest (processed st + 1)%Z
               (trace st ++ robots_events A url ++
                [Get url; CsvRow (log_path A) r; MarkVisited url; PbarUpdate;
                 Sleep (delay A)]) ∧
           r_url r = url ∧ r_saved_file r = "")
     ∨
     blocked W A url = false ∧
     (∃ resp links,
        is_html_200 (status_code resp) (default "" (header_content_type resp))
          = true ∧
        step W A st =
          mkState ({[url]} ∪ visited st)
            (rest ++ ((λ l, (l, (level + 1)%Z)) <$> links))
            (processed st + 1)%Z
            (trace st ++ robots_events A url ++
             [Get url; WriteFile (save_html_path (output_dir A) url) (content resp)] ++
             ((λ l, Enqueue l (level + 1)%Z) <$> links) ++
             [CsvRow (log_path A)
                (mkRow url (VInt (status_code resp))
                   (default "" (header_content_type resp))
                   (save_html_path (output_dir A) url));
              MarkVisited url; PbarUpdate; Sleep (delay A)]) ∧
        ∀ l, l ∈ links →
             passes_guard A (visited st) l = true ∧ (level < depth A)%Z)).
Proof.
  intros Hc. assert (Hc' := Hc). unfold loop_cond in Hc'.
  destruct (queue st) as [|[url level] rest] eqn:Hq; [done|].
  exists url, level, rest. split; [done|].
  destruct (decide (url ∈ visited st ∨ (depth A < level)%Z)) as [Hd|Hd].
  { left. split; [done|]. by apply (step_discard W A st url level rest). }
  assert ((url ∉ visited st) ∧ (level ≤ depth A)%Z) as [Hv Hl].
  { split; [tauto|]. destruct (Z.le_gt_cases level (depth A)); tauto. }
  right. destruct (blocked W A url) eqn:Hb.
  { left. split; [done|]. by apply (step_blocked W A st url level rest). }
  right. destruct (session_get W (the_session A) (trace st ++ robots_events A url) url)
    as [resp|exc] eqn:Hget.
  - destruct (is_html_200 (status_code resp)
                (default "" (header_content_type resp))) eqn:Hhtml.
    + right. split; [done|]. exists resp, (page_links W A url level (visited st) resp).
      split; [done|].
      split; [by apply (step_html W A st url level rest Hq Hc resp Hv Hl Hb Hget Hhtml)|].
      intros l Hin. unfold page_links in Hin.
      destruct (Z.ltb_spec level (depth A)); [|by inversion Hin].
      unfold accepted in Hin. by apply list_elem_of_filter in Hin as [? _].
    + left. split; [done|]. eexists.
      split; [by apply (step_not_html W A st url level rest Hq Hc resp Hv Hl Hb Hget Hhtml)
             | done].
  - left. split; [done|]. eexists.
    split; [by apply (step_raised W A st url level rest Hq Hc exc Hv Hl Hb Hget)
           | done].
Qed.

End ExplicitTurns.

Lemma filter_all {X} (P : X → Prop) `{∀ x, Decision (P x)} (l : list X) :
  (∀ x, x ∈ l → P x) → filter P l = l.
Proof.
  induction l as [|x l IH]; intros Hl; [done|].
  rewrite filter_cons, decide_True by (apply Hl; by left).
  f_equal. apply IH. intros y Hy. apply Hl. by right.
Qed.

Section RunInduction.
Context (W : world) (A : crawl_args).

(** what holds on entry to the loop and is kept by every turn holds
    throughout the run *)
Lemma run_induction (P : state → Prop) :
  P (crawl_init W A) →
  (∀ st, P st → loop_cond A st = true → P (step W A st)) →
  ∀ n, P (run W A n).
Proof.
  intros Hinit Hstep. induction n as [|n IH]; [exact Hinit|].
  change (run W A (S n)) with (step W A (run W A n)).
  destruct (loop_cond A (run W A n)) eqn:Hc; [by apply Hstep|].
  by rewrite step_halted.
Qed.

Lemma crawl_init_views :
  audit_log (trace (crawl_init W A)) = [] ∧
  requests (trace (crawl_init W A)) = [] ∧
  saved_files (trace (crawl_init W A)) = [] ∧
  enqueued (trace (crawl_init W A)) = [] ∧
  robots_checked (trace (crawl_init W A)) = [].
Proof.
  unfold crawl_init. simpl. by destruct (log_exists W), (respect_robots A).
Qed.

(** when nothing is robots-blocked: robots off, or no parser *)
Lemma blocked_off url :
  respect_robots A = false ∨ robots_read W (robots_url (start_url A)) = None →
  blocked W A url = false.
Proof.
  unfold blocked, rp, load_robots_txt.
  intros [-> | Hr]; [done|]. destruct (respect_robots A); [|done].
  by rewrite Hr.
Qed.

(** rows and requests, turn by turn: the rows that are not
    [robots_blocked] are those of the requests, in order; requested
    URLs are not blocked and [robots_blocked] rows are of blocked URLs *)
Lemma rows_and_requests n :
  let tr := trace (run W A n) in
  r_url <$> filter (λ r, is_blocked_row r = false) (audit_log tr) = requests tr ∧
  (∀ u, u ∈ requests tr → blocked W A u = false) ∧
  (∀ r, r ∈ audit_log tr → is_blocked_row r = true → blocked W A (r_url r) = true).
Proof.
  apply (run_induction (λ st,
    r_url <$> filter (λ r, is_blocked_row r = false) (audit_log (trace st))
      = requests (trace st) ∧
    (∀ u, u ∈ requests (trace st) → blocked W A u = false) ∧
    (∀ r, r ∈ audit_log (trace st) → is_blocked_row r = true →
          blocked W A (r_url r) = true))).
  - destruct crawl_init_views as (-> & -> & _).
    split_and!; [done| |]; intros ? Hin; inversion Hin.
  - intros st (Hrows & Hreq & Hblk) Hc.
    assert (step W A st = iteration W A st) as -> by (unfold step; by rewrite Hc).
    destruct (iteration_cases W A st Hc) as (url & level & rest & Hq & Hcase).
    destruct Hcase as [[_ ->] | [(Hv & Hl & Hb & ->) | (Hv & Hl & Hb & Hf)]].
    + done.
    + simpl. destruct (blocked_trace_views A (trace st) url) as (Ea & Er & _).
      simpl in Ea, Er. rewrite Ea, Er. split_and!.
      * rewrite filter_app, fmap_app, Hrows. simpl. by rewrite app_nil_r.
      * done.
      * intros r Hin Hr. apply elem_of_app in Hin as [Hin | Hin]; [by auto|].
        apply list_elem_of_singleton in Hin. by subst r.
    + destruct Hf as (mid & new & r & -> & Hru & Hrb & Ha & Hr & Hs & Hp & _).
      destruct (fetch_trace_views A (trace st) url mid r Ha Hr Hs Hp)
        as (Ea & Er & _).
      simpl in Ea, Er. simpl. rewrite Ea, Er. split_and!.
      * rewrite filter_app, fmap_app, Hrows, filter_cons, decide_True by done.
        simpl. by rewrite Hru.
      * intros u Hin. apply elem_of_app in Hin as [Hin | Hin]; [by auto|].
        apply list_elem_of_singleton in Hin. by subst u.
      * intros r' Hin Hr'. apply elem_of_app in Hin as [Hin | Hin]; [by auto|].
        apply list_elem_of_singleton in Hin. subst r'. congruence.
Qed.

End RunInduction.

Section QueueShape.
Context (W : world) (A : crawl_args).

(** the queue is breadth-first throughout the run *)
Lemma run_two_level_queue n : two_level_queue (depth A) (queue (run W A n)).
Proof.
  apply (run_induction W A (λ st, two_level_queue (depth A) (queue st))).
  - exists 0%Z, [(start_url A, 0%Z)], [].
    split; [done|]. split; [lia|]. split; [lia|]. split.
    + intros u l Hin. apply list_elem_of_singleton in Hin. by injection Hin.
    + intros u l Hin. inversion Hin.
  - intros st (lo & q1 & q2 & Hq & Hlo & Hmax & H1 & H2) Hc.
    assert (step W A st = iteration W A st) as -> by (unfold step; by rewrite Hc).
    destruct (iteration_cases W A st Hc) as (url & level & rest & Hqu & Hcase).
    (* the queue after the turn is [rest ++ new], [new] at [level + 1] *)
    assert (∃ new, queue (iteration W A st) = rest ++ new ∧
                   ∀ u l, (u, l) ∈ new → l = (level + 1)%Z ∧ (level < depth A)%Z)
      as (new & -> & Hnew).
    { destruct Hcase as [[_ ->] | [(_ & _ & _ & ->) | (_ & _ & _ & Hf)]].
      - exists []. rewrite app_nil_r. split; [done|]. intros ? ? Hin. inversion Hin.
      - exists []. rewrite app_nil_r. split; [done|]. intros ? ? Hin. inversion Hin.
      - destruct Hf as (mid & new & r & -> & _ & _ & _ & _ & _ & _ & Hn).
        exists new. split; [done|]. intros u l Hin.
        by destruct (Hn u l Hin) as (_ & ? & ? & _). }
    rewrite Hqu in Hq. destruct q1 as [|x q1].
    + (* the head was at [lo + 1]: the next level starts *)
      simpl in Hq. subst q2.
      destruct (H2 url level ltac:(by left)) as [-> Hlt].
      exists (lo + 1)%Z, rest, new.
      split; [done|]. split; [lia|]. split; [lia|]. split.
      * intros u l Hin. apply (H2 u l). by right.
      * intros u l Hin. destruct (Hnew u l Hin). split; lia.
    + (* the head was at [lo] *)
      simpl in Hq. injection Hq as <- ->.
      assert (level = lo) as -> by (apply (H1 url); by left).
      exists lo, q1, (q2 ++ new).
      split; [by rewrite app_assoc|]. split; [done|]. split; [done|]. split.
      * intros u l Hin. apply (H1 u l). by right.
      * intros u l [Hin | Hin]%elem_of_app; [by apply (H2 u l)|].
        by destruct (Hnew u l Hin).
Qed.

End QueueShape.

(** ** Runs that end early *)

Lemma prefix_of_app_cases {X} (k l1 l2 : list X) :
  k `prefix_of` l1 ++ l2 →
  k `prefix_of` l1 ∨ ∃ k', k = l1 ++ k' ∧ k' `prefix_of` l2.
Proof.
  revert k. induction l1 as [|x l1 IH]; intros k Hk.
  - right. by exists k.
  - destruct k as [|y k]; [left; apply prefix_nil|].
    simpl in Hk. pose proof (prefix_cons_inv_1 _ _ _ _ Hk) as ->.
    apply prefix_cons_inv_2 in Hk.
    destruct (IH k Hk) as [Hp | (k' & -> & Hp)].
    + left. by apply prefix_cons.
    + right. by exists k'.
Qed.

Lemma fileless_views (l : list event) :
  Forall fileless l → saved_files l = [] ∧ logged_files (audit_log l) = [].
Proof.
  induction 1 as [|e l He _ [IH1 IH2]]; [done|].
  unfold saved_files, audit_log, logged_files in *.
  destruct e; simpl in *; try done.
  rewrite filter_cons, decide_False; [done|]. by intros H; apply H.
Qed.

Lemma fileless_prefix (k l : list event) :
  k `prefix_of` l → Forall fileless l → Forall fileless k.
Proof. intros [r ->] H. by apply Forall_app in H as [? _]. Qed.

Lemma logged_files_app (a b : list row) :
  logged_files (a ++ b) = logged_files a ++ logged_files b.
Proof. unfold logged_files. by rewrite fmap_app, filter_app. Qed.

Lemma prefix_singleton_cases {X} (k : list X) x :
  k `prefix_of` [x] → k = [] ∨ k = [x].
Proof.
  intros [r Hr]. destruct k as [|y k]; [by left|]. right.
  injection Hr as -> Hr. by destruct k.
Qed.

(** what an interrupted turn that saves a page leaves behind: nothing,
    the file alone, or the file and its row *)
Lemma html_turn_prefix (pre mid post : list event) f c lp row k :
  Forall fileless pre → Forall fileless mid → Forall fileless post →
  r_saved_file row = f → f ≠ "" →
  k `prefix_of` pre ++ [WriteFile f c] ++ mid ++ [CsvRow lp row] ++ post →
  (fst <$> saved_files k = [] ∧ logged_files (audit_log k) = []) ∨
  (fst <$> saved_files k = [f] ∧ logged_files (audit_log k) = []) ∨
  (fst <$> saved_files k = [f] ∧ logged_files (audit_log k) = [f]).
Proof.
  intros Hpre Hmid Hpost Hrow Hf Hk.
  destruct (fileless_views _ Hpre) as [Sp Lp].
  destruct (fileless_views _ Hmid) as [Sm Lm].
  assert (saved_files [WriteFile f c] = [(f, c)] ∧
          logged_files (audit_log [WriteFile f c]) = []) as [Sw Lw] by done.
  assert (saved_files [CsvRow lp row] = [] ∧
          logged_files (audit_log [CsvRow lp row]) = [f]) as [Sr Lr].
  { split; [done|]. unfold logged_files, audit_log. simpl.
    rewrite filter_cons, decide_True by (by rewrite Hrow). by rewrite Hrow. }
  assert (∀ a b : list event,
            saved_files (a ++ b) = saved_files a ++ saved_files b ∧
            logged_files (audit_log (a ++ b)) =
              logged_files (audit_log a) ++ logged_files (audit_log b)) as Happ.
  { intros a b. by rewrite saved_files_app, audit_log_app, logged_files_app. }
  apply prefix_of_app_cases in Hk as [Hk | (k1 & -> & Hk)].
  { left. by destruct (fileless_views _ (fileless_prefix _ _ Hk Hpre)) as [-> ->]. }
  destruct (Happ pre k1) as [-> ->]. rewrite Sp, Lp. cbn [app].
  apply prefix_of_app_cases in Hk as [Hk | (k2 & -> & Hk)].
  { apply prefix_singleton_cases in Hk as [-> | ->]; [by left | right; by left]. }
  destruct (Happ [WriteFile f c] k2) as [-> ->]. rewrite Sw, Lw. cbn [app].
  apply prefix_of_app_cases in Hk as [Hk | (k3 & -> & Hk)].
  { right. left.
    by destruct (fileless_views _ (fileless_prefix _ _ Hk Hmid)) as [-> ->]. }
  destruct (Happ mid k3) as [-> ->]. rewrite Sm, Lm. cbn [app].
  apply prefix_of_app_cases in Hk as [Hk | (k4 & -> & Hk)].
  { apply prefix_singleton_cases in Hk as [-> | ->]; [right; by left|].
    right. right. by rewrite Sr, Lr. }
  destruct (Happ [CsvRow lp row] k4) as [-> ->]. rewrite Sr, Lr. cbn [app].
  right. right.
  by destruct (fileless_views _ (fileless_prefix _ _ Hk Hpost)) as [-> ->].
Qed.

Section Interrupted.
Context (W : world) (A : crawl_args).

Lemma fileless_turn (tr L k : list event) :
  fst <$> saved_files tr = logged_files (audit_log tr) →
  Forall fileless L → k `prefix_of` L →
  fst <$> saved_files (tr ++ k) = logged_files (audit_log (tr ++ k)).
Proof.
  intros Htr HL Hk.
  destruct (fileless_views _ (fileless_prefix _ _ Hk HL)) as [Hs Hl].
  by rewrite saved_files_app, audit_log_app, logged_files_app, Hs, Hl, !app_nil_r.
Qed.

Lemma robots_events_fileless url : Forall fileless (robots_events A url).
Proof.
  unfold robots_events. destruct (respect_robots A); [|done].
  by repeat constructor.
Qed.

Lemma run_prefixes n :
  fst <$> saved_files (trace (run W A n))
    = logged_files (audit_log (trace (run W A n))) ∧
  ∀ tr, tr `prefix_of` trace (run W A n) → files_logged A tr.
Proof.
  apply (run_induction W A (λ st,
    fst <$> saved_files (trace st) = logged_files (audit_log (trace st)) ∧
    ∀ tr, tr `prefix_of` trace st → files_logged A tr)).
  - assert (Forall fileless (trace (crawl_init W A))) as Hinit.
    { unfold crawl_init. cbn [trace].
      destruct (log_exists W), (respect_robots A); by repeat constructor. }
    split.
    + by destruct (fileless_views _ Hinit) as [-> ->].
    + intros tr Hp. left.
      by destruct (fileless_views _ (fileless_prefix _ _ Hp Hinit)) as [-> ->].
  - intros st [Hst IH] Hc.
    assert (∀ L, Forall fileless L →
              fst <$> saved_files (trace st ++ L)
                = logged_files (audit_log (trace st ++ L)) ∧
              ∀ tr, tr `prefix_of` trace st ++ L → files_logged A tr) as Hquiet.
    { intros L HL. split.
      - by apply (fileless_turn _ L).
      - intros tr [Hp | (k & -> & Hk)]%prefix_of_app_cases; [by apply IH|].
        left. by apply (fileless_turn _ L). }
    destruct (step_explicit W A st Hc) as (url & level & rest & Hq & Hcase).
    destruct Hcase as [[_ ->] | [[_ ->] | [(_ & r & -> & Hru & Hrs) |
                                          (_ & resp & links & Hhtml & -> & _)]]].
    + done.
    + cbn [trace]. apply Hquiet. by repeat constructor.
    + cbn [trace]. apply Hquiet. apply Forall_app. split.
      * apply robots_events_fileless.
      * by repeat constructor.
    + cbn [trace].
      set (f := save_html_path (output_dir A) url).
      set (row := mkRow url (VInt (status_code resp))
                    (default "" (header_content_type resp)) f).
      set (E := (λ l, Enqueue l (level + 1)%Z) <$> links).
      assert (robots_events A url ++ [Get url; WriteFile f (content resp)] ++
              E ++ [CsvRow (log_path A) row; MarkVisited url; PbarUpdate;
                    Sleep (delay A)]
              = (robots_events A url ++ [Get url]) ++
                [WriteFile f (content resp)] ++ E ++
                [CsvRow (log_path A) row] ++
                [MarkVisited url; PbarUpdate; Sleep (delay A)]) as ->.
      { by rewrite <- app_assoc. }
      assert (∀ k, k `prefix_of` (robots_events A url ++ [Get url]) ++
                [WriteFile f (content resp)] ++ E ++
                [CsvRow (log_path A) row] ++
                [MarkVisited url; PbarUpdate; Sleep (delay A)] →
              (fst <$> saved_files k = [] ∧ logged_files (audit_log k) = []) ∨
              (fst <$> saved_files k = [f] ∧ logged_files (audit_log k) = []) ∨
              (fst <$> saved_files k = [f] ∧ logged_files (audit_log k) = [f]))
        as Hturn.
      { intros k. apply html_turn_prefix; try done.
        - apply Forall_app. split; [apply robots_events_fileless|].
          by repeat constructor.
        - unfold E. clear. induction links; by repeat constructor.
        - by repeat constructor.
        - apply save_html_path_nonempty. }
      split.
      * assert (Forall fileless (robots_events A url ++ [Get url])) as Hpre.
        { apply Forall_app. split; [apply robots_events_fileless|].
          by repeat constructor. }
        assert (Forall fileless E) as HE.
        { unfold E. clear. induction links; by repeat constructor. }
        destruct (fileless_views _ Hpre) as [Sp Lp].
        destruct (fileless_views _ HE) as [Se Le].
        set (pre := robots_events A url ++ [Get url]) in *.
        rewrite !saved_files_app, !audit_log_app, !logged_files_app, !fmap_app.
        rewrite Sp, Lp, Se, Le, Hst. f_equal.
        unfold logged_files. simpl.
        by rewrite filter_cons, decide_True by apply save_html_path_nonempty.
      * intros tr [Hp | (k & -> & Hk)]%prefix_of_app_cases; [by apply IH|].
        unfold files_logged.
        rewrite saved_files_app, audit_log_app, logged_files_app, fmap_app, Hst.
        destruct (Hturn k Hk) as [[Hs Hl] | [[Hs Hl] | [Hs Hl]]]; rewrite Hs, Hl.
        -- left. by rewrite !app_nil_r.
        -- right. exists url. by rewrite app_nil_r.
        -- by left.
Qed.

End Interrupted.

(** ** Further properties of the crawl loop *)

(** X1: every crawl ends: for every world and all arguments there is a
    number of iterations after which the loop condition fails, and
    [crawl] returns the same effects for any larger number.  (A fetch
    uses up one unit of the page budget; every other turn shortens the
    queue.) *)
Theorem crawl_terminates (W : world) (A : crawl_args) :
  ∃ fuel tr, crawl W A fuel = Some tr ∧
             ∀ more, crawl W A (more + fuel) = Some tr.
Proof.
  destruct (loop_halts W A (crawl_init W A)) as [k Hk].
  exists k, (trace (run W A k) ++ [PbarClose]).
  assert (∀ more, run W A (more + k) = run W A k) as Hrun.
  { intros more. unfold run. rewrite steps_add. by apply steps_halted. }
  split.
  - unfold crawl, run. by rewrite Hk.
  - intros more. unfold crawl. rewrite Hrun. unfold run. by rewrite Hk.
Qed.

(** X2: at every moment of a run the number of [session.get] calls is
    the value of [processed], it never exceeds the page budget, no URL
    is requested twice, and the sleeps are exactly one per request,
    each of the configured delay. *)
Theorem requests_stay_within_budget (W : world) (A : crawl_args) (n : nat) :
  let st := run W A n in
  Z.of_nat (length (requests (trace st))) = processed st ∧
  (Z.of_nat (length (requests (trace st))) ≤ Z.max 0 (max_pages A))%Z ∧
  NoDup (requests (trace st)) ∧
  sleeps (trace st) = replicate (length (requests (trace st))) (delay A).
Proof.
  simpl. pose proof (run_inv W A n) as I. split_and!.
  - by rewrite (inv_processed A _ I).
  - rewrite <- (inv_processed A _ I). apply (inv_budget A _ I).
  - apply (inv_req_nodup A _ I).
  - apply one_sleep_per_request.
Qed.

(** X3: the visited set is exactly the set of URLs that have an audit
    row: a URL is visited if and only if it has been logged. *)
Theorem visited_is_the_set_of_logged_urls (W : world) (A : crawl_args)
    (n : nat) (u : string) :
  u ∈ visited (run W A n) ↔ u ∈ (r_url <$> audit_log (trace (run W A n))).
Proof.
  revert u. apply (run_induction W A (λ st,
    ∀ u, u ∈ visited st ↔ u ∈ (r_url <$> audit_log (trace st)))).
  - intros u. destruct (crawl_init_views W A) as (Ha & _).
    rewrite Ha. simpl. split; [by intros ?%not_elem_of_empty | by inversion 1].
  - intros st IH Hc u.
    assert (step W A st = iteration W A st) as -> by (unfold step; by rewrite Hc).
    destruct (iteration_cases W A st Hc) as (url & level & rest & Hq & Hcase).
    destruct Hcase as [[_ ->] | [(Hv & Hl & Hb & ->) | (Hv & Hl & Hb & Hf)]].
    + apply IH.
    + simpl. destruct (blocked_trace_views A (trace st) url) as (Ea & _).
      simpl in Ea. rewrite Ea, fmap_app, elem_of_app, elem_of_union, <- IH.
      simpl. rewrite list_elem_of_singleton, elem_of_singleton. tauto.
    + destruct Hf as (mid & new & r & -> & Hru & Hrb & Ha & Hr & Hs & Hp & _).
      destruct (fetch_trace_views A (trace st) url mid r Ha Hr Hs Hp) as (Ea & _).
      simpl in Ea. simpl. rewrite Ea, fmap_app, elem_of_app, elem_of_union, <- IH.
      simpl. rewrite list_elem_of_singleton, elem_of_singleton, Hru. tauto.
Qed.

(** X4: the audit rows other than [robots_blocked] ones are, in order,
    the rows of the requested URLs; a URL that robots.txt blocks is
    never requested, and a URL with a [robots_blocked] row is blocked
    and has no request. *)
Theorem blocked_urls_are_never_requested (W : world) (A : crawl_args) (n : nat) :
  let tr := trace (run W A n) in
  r_url <$> filter (λ r, is_blocked_row r = false) (audit_log tr) = requests tr ∧
  (∀ u, blocked W A u = true → u ∉ requests tr) ∧
  (∀ r, r ∈ audit_log tr → is_blocked_row r = true →
        blocked W A (r_url r) = true ∧ r_url r ∉ requests tr).
Proof.
  simpl. destruct (rows_and_requests W A n) as (Hrows & Hreq & Hblk).
  split_and!; [done| |].
  - intros u Hb Hin. specialize (Hreq u Hin). congruence.
  - intros r Hin Hr. split; [by apply Hblk|].
    intros Hin'. specialize (Hreq _ Hin'). specialize (Hblk r Hin Hr). congruence.
Qed.

(** X5: when robots.txt is not respected, or its file could not be
    read, no row is ever [robots_blocked], every row is the row of a
    request, and the audit log has at most [max_pages] rows. *)
Theorem unblocked_log_stays_within_budget (W : world) (A : crawl_args) (n : nat) :
  respect_robots A = false ∨ robots_read W (robots_url (start_url A)) = None →
  let tr := trace (run W A n) in
  (∀ r, r ∈ audit_log tr → is_blocked_row r = false) ∧
  r_url <$> audit_log tr = requests tr ∧
  (Z.of_nat (length (audit_log tr)) ≤ Z.max 0 (max_pages A))%Z.
Proof.
  intros Hoff. simpl.
  destruct (rows_and_requests W A n) as (Hrows & _ & Hblk).
  assert (∀ r, r ∈ audit_log (trace (run W A n)) → is_blocked_row r = false) as Hnone.
  { intros r Hin. destruct (is_blocked_row r) eqn:Hr; [|done].
    specialize (Hblk r Hin Hr). by rewrite (blocked_off W A _ Hoff) in Hblk. }
  assert (filter (λ r, is_blocked_row r = false) (audit_log (trace (run W A n)))
          = audit_log (trace (run W A n))) as Hall.
  { by apply filter_all. }
  split_and!; [done| by rewrite <- Hrows, Hall |].
  pose proof (run_inv W A n) as I.
  rewrite <- Hall, (inv_counted A _ I), <- (inv_processed A _ I).
  apply (inv_budget A _ I).
Qed.

Lemma unblocked_log_stays_within_budget_witness :
  let A := example_args "http://example.com/" 2 1 in
  r_url <$> audit_log (trace (run two_page_world A 3)) =
    requests (trace (run two_page_world A 3)) ∧
  length (audit_log (trace (run two_page_world A 3))) = 1%nat.
Proof.
  simpl.
  destruct (unblocked_log_stays_within_budget two_page_world
              (example_args "http://example.com/" 2 1) 3) as (_ & Hrows & _).
  - right. vm_compute. reflexivity.
  - split; [exact Hrows | vm_compute; reflexivity].
Defined.

(** X6: the queue is breadth-first at every moment of a run: levels
    never decrease from the front of the queue to its back, two queued
    targets differ by at most one level, and every queued level lies
    between 0 and the maximum depth (0 when the depth is negative). *)
Theorem queue_is_breadth_first (W : world) (A : crawl_args) (n : nat) :
  (∀ pre x post y,
     queue (run W A n) = pre ++ x :: post → y ∈ post →
     (snd x ≤ snd y)%Z ∧ (snd y ≤ snd x + 1)%Z) ∧
  (∀ u l, (u, l) ∈ queue (run W A n) → (0 ≤ l)%Z ∧ (l ≤ Z.max 0 (depth A))%Z).
Proof.
  destruct (run_two_level_queue W A n) as (lo & q1 & q2 & Hq & Hlo & Hmax & H1 & H2).
  assert (∀ u l, (u, l) ∈ queue (run W A n) →
                 l = lo ∨ (l = (lo + 1)%Z ∧ (lo < depth A)%Z)) as Hlev.
  { intros u l Hin. rewrite Hq in Hin. apply elem_of_app in Hin as [Hin | Hin].
    - left. by apply (H1 u l).
    - right. by apply (H2 u l). }
  split.
  - intros pre [ux lx] post [uy ly] Heq Hy. simpl.
    assert ((ux, lx) ∈ queue (run W A n)) as Hx.
    { rewrite Heq. apply elem_of_app. right. by left. }
    assert ((uy, ly) ∈ queue (run W A n)) as Hy'.
    { rewrite Heq. apply elem_of_app. right. by right. }
    destruct (Hlev _ _ Hy') as [-> | [-> _]].
    + (* [y] at [lo]: it lies in [q1], and so does [x] before it *)
      destruct (Hlev _ _ Hx) as [-> | [-> _]]; [lia|].
      exfalso. rewrite Hq in Heq.
      assert ((uy, lo) ∈ q1) as Hy1.
      { assert ((uy, lo) ∈ q1 ++ q2) as Hin by (rewrite Heq; apply elem_of_app; right; by right).
        apply elem_of_app in Hin as [Hin | Hin]; [done|].
        destruct (H2 _ _ Hin) as [? _]. lia. }
      (* [x] is in [q2], hence after all of [q1] *)
      assert (∃ k, q1 = pre ++ (ux, (lo + 1)%Z) :: k ∨
                   ∃ k', pre = q1 ++ k' ∧ q2 = k' ++ (ux, (lo + 1)%Z) :: post)
        as [k [Hk | (k' & Hpre & Hq2)]].
      { clear -Heq. revert pre Heq. induction q1 as [|a q1 IH]; intros pre Heq.
        - exists []. right. exists pre. by split.
        - destruct pre as [|b pre].
          + exists q1. left. simpl in Heq. by injection Heq as ->.
          + simpl in Heq. injection Heq as -> Heq.
            destruct (IH pre Heq) as [k [Hk | (k' & Hpre & Hq2)]].
            * exists k. left. by rewrite Hk.
            * exists k. right. exists k'. by rewrite Hpre. }
      * assert ((ux, (lo + 1)%Z) ∈ q1) as Hx1
          by (rewrite Hk; apply elem_of_app; right; by left).
        specialize (H1 _ _ Hx1). lia.
      * assert ((uy, lo) ∈ q2) as Hy2.
        { rewrite Hq2. apply elem_of_app. right. by right. }
        destruct (H2 _ _ Hy2) as [? _]. lia.
    + destruct (Hlev _ _ Hx) as [-> | [-> _]]; lia.
  - intros u l Hin. destruct (Hlev u l Hin) as [-> | [-> ?]]; lia.
Qed.

(** X7: with [respect_robots] off, a run never reads a robots file and
    never calls [is_allowed]: its trace holds neither a [ReadRobots]
    nor a [RobotsCheck] event. *)
Theorem robots_off_never_consults_robots (W : world) (A : crawl_args) (n : nat) :
  respect_robots A = false →
  ∀ e, e ∈ trace (run W A n) →
       match e with ReadRobots _ | RobotsCheck _ => False | _ => True end.
Proof.
  intros Hoff.
  apply (run_induction W A (λ st, ∀ e, e ∈ trace st →
           match e with ReadRobots _ | RobotsCheck _ => False | _ => True end)).
  - unfold crawl_init. simpl. rewrite Hoff. intros e Hin.
    destruct (log_exists W); simpl in Hin;
      repeat (apply elem_of_cons in Hin as [-> | Hin]; [done|]);
      by inversion Hin.
  - intros st IH Hc e.
    assert (robots_events A = λ _, []) as Hre
      by (unfold robots_events; by rewrite Hoff).
    destruct (step_explicit W A st Hc) as (url & level & rest & Hq & Hcase).
    destruct Hcase as [[_ ->] | [[Hb _] | [(_ & r & -> & _) | (_ & resp & links & _ & -> & _)]]].
    + apply IH.
    + by rewrite (blocked_off W A url (or_introl Hoff)) in Hb.
    + simpl. rewrite Hre. simpl. intros Hin.
      apply elem_of_app in Hin as [Hin | Hin]; [by apply IH|].
      repeat (apply elem_of_cons in Hin as [-> | Hin]; [done|]). by inversion Hin.
    + simpl. rewrite Hre. simpl. intros Hin.
      apply elem_of_app in Hin as [Hin | Hin]; [by apply IH|].
      do 2 (apply elem_of_cons in Hin as [-> | Hin]; [done|]).
      apply elem_of_app in Hin as [Hin | Hin].
      * by apply list_elem_of_fmap in Hin as (l & -> & _).
      * repeat (apply elem_of_cons in Hin as [-> | Hin]; [done|]). by inversion Hin.
Qed.

Lemma robots_off_never_consults_robots_witness :
  Forall (λ e, match e with ReadRobots _ | RobotsCheck _ => False | _ => True end)
    (trace (run lookalike_world
              (mkArgs "http://example.com/" 1 2 false "out" "UA" false 10) 3)).
Proof.
  apply Forall_forall.
  apply (robots_off_never_consults_robots lookalike_world
           (mkArgs "http://example.com/" 1 2 false "out" "UA" false 10) 3).
  reflexivity.
Defined.

(** X8: with a page budget of zero or less, or with a negative depth,
    a run requests nothing, logs no row and writes no file: the loop is
    never entered, or its only turn discards the seed. *)
Theorem empty_budget_or_negative_depth_does_nothing
    (W : world) (A : crawl_args) (n : nat) :
  (max_pages A ≤ 0)%Z ∨ (depth A < 0)%Z →
  requests (trace (run W A n)) = [] ∧
  audit_log (trace (run W A n)) = [] ∧
  saved_files (trace (run W A n)) = [] ∧
  trace (run W A n) = trace (crawl_init W A).
Proof.
  intros Hedge.
  cut (trace (run W A n) = trace (crawl_init W A) ∧
       processed (run W A n) = 0%Z ∧
       (queue (run W A n) = [(start_url A, 0%Z)] ∨ queue (run W A n) = [])).
  { intros (-> & _ & _). by destruct (crawl_init_views W A) as (-> & -> & -> & _). }
  apply (run_induction W A (λ st,
    trace st = trace (crawl_init W A) ∧ processed st = 0%Z ∧
    (queue st = [(start_url A, 0%Z)] ∨ queue st = []))).
  - split_and!; [done|done|by left].
  - intros st (Ht & Hp & Hq) Hc.
    assert (processed st < max_pages A)%Z as Hlt.
    { unfold loop_cond in Hc. destruct (queue st); [done|]. lia. }
    assert (depth A < 0)%Z as Hd by lia.
    assert (step W A st = iteration W A st) as -> by (unfold step; by rewrite Hc).
    destruct (iteration_cases W A st Hc) as (url & level & rest & Hqu & Hcase).
    destruct Hq as [Hq | Hq]; [|by rewrite Hq in Hqu].
    rewrite Hq in Hqu. injection Hqu as <- <- <-.
    destruct Hcase as [[_ ->] | [(_ & Hl & _) | (_ & Hl & _)]]; [|lia|lia].
    simpl. split_and!; [done|done|by right].
Qed.

Lemma empty_budget_or_negative_depth_does_nothing_witness :
  requests (trace (run lookalike_world (example_args "http://example.com/" (-1) 10) 2)) = [] ∧
  audit_log (trace (run lookalike_world (example_args "http://example.com/" 1 0) 2)) = [].
Proof.
  split.
  - apply (empty_budget_or_negative_depth_does_nothing lookalike_world
             (example_args "http://example.com/" (-1) 10) 2).
    right. reflexivity.
  - apply (empty_budget_or_negative_depth_does_nothing lookalike_world
             (example_args "http://example.com/" 1 0) 2).
    left. vm_compute. discriminate.
Defined.

(** the rows of a run that name a saved file *)
Lemma saved_rows_of_run (W : world) (A : crawl_args) (n : nat) :
  let tr := trace (run W A n) in
  fst <$> saved_files tr = logged_files (audit_log tr) ∧
  ∀ r, r ∈ audit_log tr → r_saved_file r ≠ "" →
       r_saved_file r = save_html_path (output_dir A) (r_url r) ∧
       r_status r = VInt 200 ∧
       str_in "text/html" (lower (r_content_type r)) = true.
Proof.
  apply (run_induction W A (λ st,
    fst <$> saved_files (trace st) = logged_files (audit_log (trace st)) ∧
    ∀ r, r ∈ audit_log (trace st) → r_saved_file r ≠ "" →
         r_saved_file r = save_html_path (output_dir A) (r_url r) ∧
         r_status r = VInt 200 ∧
         str_in "text/html" (lower (r_content_type r)) = true)).
  - destruct (crawl_init_views W A) as (-> & _ & -> & _).
    split; [done|]. intros r Hin. inversion Hin.
  - intros st [Hfiles Hrows] Hc. unfold logged_files in *.
    destruct (step_explicit W A st Hc) as (url & level & rest & Hq & Hcase).
    destruct Hcase as [[_ ->] | [[_ ->] | [(_ & r & -> & Hru & Hrs) |
                                          (_ & resp & links & Hhtml & -> & _)]]].
    + done.
    + simpl. destruct (blocked_trace_views A (trace st) url) as (Ea & _).
      simpl in Ea. rewrite Ea, saved_files_app. simpl. rewrite app_nil_r.
      split.
      * rewrite fmap_app, filter_app. simpl.
        rewrite filter_cons, decide_False by (intros H; by apply H).
        by rewrite app_nil_r.
      * intros r Hin. apply elem_of_app in Hin as [Hin | Hin]; [by apply Hrows|].
        apply list_elem_of_singleton in Hin. subst r. simpl. done.
    + simpl. destruct (plain_turn_views A (trace st) url r) as (Ea & _ & _ & Ef & _).
      simpl in Ea, Ef. rewrite Ea, Ef. split.
      * rewrite fmap_app, filter_app. simpl.
        rewrite filter_cons, decide_False by (rewrite Hrs; intros H; by apply H).
        by rewrite app_nil_r.
      * intros r' Hin. apply elem_of_app in Hin as [Hin | Hin]; [by apply Hrows|].
        apply list_elem_of_singleton in Hin. subst r'. by rewrite Hrs.
    + simpl.
      destruct (fetch_turn_views A (trace st) url
                  (save_html_path (output_dir A) url) (content resp) links
                  (level + 1)
                  (mkRow url (VInt (status_code resp))
                     (default "" (header_content_type resp))
                     (save_html_path (output_dir A) url)))
        as (Ea & _ & _ & Ef & _).
      simpl in Ea, Ef. rewrite Ea, Ef.
      unfold is_html_200 in Hhtml.
      apply andb_true_iff in Hhtml as [Hst%Z.eqb_eq Hct]. split.
      * rewrite !fmap_app, filter_app, Hfiles. simpl.
        rewrite filter_cons, decide_True by apply save_html_path_nonempty.
        done.
      * intros r Hin. apply elem_of_app in Hin as [Hin | Hin]; [by apply Hrows|].
        apply list_elem_of_singleton in Hin. subst r. simpl.
        by rewrite Hst.
Qed.

(** X9: the files written and the saved-file fields of the audit log
    agree, also when the run ends early (an uncaught exception, a
    kill): at every point of a run the files written are, in order,
    the non-empty saved-file fields of the rows, followed at most by
    the file of the page in hand, whose row is not written yet; after
    every complete turn the two lists are equal.  A row with a saved
    file names the path [save_html] computes for the row's URL, and has
    status 200 and a content type containing [text/html] up to letter
    case. *)
Theorem saved_files_match_the_audit_log (W : world) (A : crawl_args)
    (tr : list event) :
  interrupted W A tr →
  files_logged A tr ∧
  (∀ n, tr = trace (run W A n) →
        fst <$> saved_files tr = logged_files (audit_log tr)) ∧
  ∀ r, r ∈ audit_log tr → r_saved_file r ≠ "" →
       r_saved_file r = save_html_path (output_dir A) (r_url r) ∧
       r_status r = VInt 200 ∧
       contains_ignoring_case (r_content_type r) "text/html".
Proof.
  intros [n Hp]. split_and!.
  - by apply (run_prefixes W A n).
  - intros m ->. apply run_prefixes.
  - intros r Hin Hne. destruct Hp as [k Hk].
    assert (r ∈ audit_log (trace (run W A n))) as Hin'.
    { rewrite Hk, audit_log_app. apply elem_of_app. by left. }
    destruct (saved_rows_of_run W A n) as [_ Hrows].
    destruct (Hrows r Hin' Hne) as (Hpath & Hstatus & Hct).
    split_and!; [done|done|]. by apply str_in_lower.
Qed.

Lemma saved_files_match_the_audit_log_witness :
  files_logged example_seed_args
    (firstn 7 (trace (run lookalike_world example_seed_args 1))) ∧
  audit_log (firstn 7 (trace (run lookalike_world example_seed_args 1))) = [] ∧
  saved_files (firstn 7 (trace (run lookalike_world example_seed_args 1))) ≠ [].
Proof.
  destruct (saved_files_match_the_audit_log lookalike_world example_seed_args
              (firstn 7 (trace (run lookalike_world example_seed_args 1))))
    as [Hfiles _].
  - exists 1%nat. apply prefix_take.
  - split_and!; [exact Hfiles | vm_compute; reflexivity | vm_compute; discriminate].
Defined.

(** X10: a run only ever handles the seed and links it appended to the
    queue itself: every queued target and every visited URL is the seed
    or comes from an [Enqueue] event, and every link ever enqueued has a
    level between 1 and the maximum depth and passes the scoping test. *)
Theorem crawl_only_follows_its_own_links (W : world) (A : crawl_args) (n : nat) :
  let st := run W A n in
  (∀ u l, (u, l) ∈ queue st →
     (u, l) = (start_url A, 0%Z) ∨ (u, l) ∈ enqueued (trace st)) ∧
  (∀ u, u ∈ visited st → u = start_url A ∨ ∃ l, (u, l) ∈ enqueued (trace st)) ∧
  (∀ u l, (u, l) ∈ enqueued (trace st) →
     (1 ≤ l)%Z ∧ (l ≤ depth A)%Z ∧ in_scope A u = true).
Proof.
  simpl. induction n as [|n (IHq & IHv & IHe)].
  - destruct (crawl_init_views W A) as (_ & _ & _ & He & _).
    change (run W A 0) with (crawl_init W A). rewrite He. split_and!.
    + intros u l Hin. left. by apply list_elem_of_singleton in Hin.
    + intros u Hin. by apply not_elem_of_empty in Hin.
    + intros u l Hin. inversion Hin.
  - change (run W A (S n)) with (step W A (run W A n)).
    destruct (loop_cond A (run W A n)) eqn:Hc; [|by rewrite step_halted].
    destruct (step_explicit W A _ Hc) as (url & level & rest & Hq & Hcase).
    assert (0 ≤ level)%Z as Hlev.
    { destruct (run_two_level_queue W A n) as (lo & q1 & q2 & Hqq & Hlo & _ & H1 & H2).
      assert ((url, level) ∈ q1 ++ q2) as Hin by (rewrite <- Hqq, Hq; by left).
      apply elem_of_app in Hin as [Hin | Hin].
      - by rewrite (H1 _ _ Hin).
      - destruct (H2 _ _ Hin) as [-> _]. lia. }
    assert (∀ u l, (u, l) ∈ rest →
              (u, l) = (start_url A, 0%Z) ∨ (u, l) ∈ enqueued (trace (run W A n)))
      as Hrest.
    { intros u l Hin. apply IHq. rewrite Hq. by right. }
    assert (url = start_url A ∨ ∃ l, (url, l) ∈ enqueued (trace (run W A n))) as Hurl.
    { destruct (IHq url level) as [[= -> _] | Hin]; [rewrite Hq; by left|by left|].
      right. by exists level. }
    destruct Hcase as [[_ ->] | [[_ ->] | [(_ & r & -> & _) |
                                          (_ & resp & links & _ & -> & Hlinks)]]].
    + done.
    + simpl. rewrite enqueued_app. simpl. rewrite app_nil_r. split_and!; [done| |done].
      intros u [->%elem_of_singleton | Hu]%elem_of_union; [done | by apply IHv].
    + simpl. destruct (plain_turn_views A (trace (run W A n)) url r)
        as (_ & _ & _ & _ & ->).
      split_and!; [done| |done].
      intros u [->%elem_of_singleton | Hu]%elem_of_union; [done | by apply IHv].
    + simpl.
      destruct (fetch_turn_views A (trace (run W A n)) url
                  (save_html_path (output_dir A) url) (content resp) links
                  (level + 1)
                  (mkRow url (VInt (status_code resp))
                     (default "" (header_content_type resp))
                     (save_html_path (output_dir A) url)))
        as (_ & _ & _ & _ & He).
      simpl in He. rewrite He. clear He.
      split_and!.
      * intros u l [Hin | Hin]%elem_of_app.
        -- destruct (Hrest u l Hin) as [? | ?]; [by left|].
           right. apply elem_of_app. by left.
        -- right. apply elem_of_app. by right.
      * intros u [->%elem_of_singleton | Hu]%elem_of_union.
        -- destruct Hurl as [? | [l Hl]]; [by left|].
           right. exists l. apply elem_of_app. by left.
        -- destruct (IHv u Hu) as [? | [l Hl]]; [by left|].
           right. exists l. apply elem_of_app. by left.
      * intros u l [Hin | Hin]%elem_of_app; [by apply IHe|].
        apply list_elem_of_fmap in Hin as (x & [= -> ->] & Hx).
        destruct (Hlinks x Hx) as [Hg Hd].
        unfold passes_guard in Hg. apply andb_true_iff in Hg as [_ Hg].
        split_and!; [lia | lia | exact Hg].
Qed.

(** ** Further properties of the helper functions *)

Lemma contains_replace_char c b s :
  Ascii.eqb b c = false → contains c (replace_char c b s) = false.
Proof.
  intros Hb. induction s as [|x s IH]; [done|]. simpl. rewrite IH, orb_false_r.
  destruct (Ascii.eqb_spec x c) as [->|Hne]; [done|]. by apply Ascii.eqb_neq.
Qed.

Lemma contains_take c n s : contains c s = false → contains c (take n s) = false.
Proof.
  revert s. induction n as [|n IH]; intros [|x s]; simpl; try done.
  intros [Hx Hs]%orb_false_iff. by rewrite Hx, (IH s Hs).
Qed.

Lemma length_take n s : (String.length (take n s) ≤ n)%nat.
Proof.
  revert s. induction n as [|n IH]; intros [|x s]; simpl; try lia.
  specialize (IH s). lia.
Qed.

Lemma prefix_char_absent c s :
  contains c s = false → String.prefix (String c "") s = false.
Proof.
  destruct s as [|x s]; [done|]. simpl. intros [Hx _]%orb_false_iff.
  destruct (ascii_dec c x) as [->|]; [|done]. by rewrite Ascii.eqb_refl in Hx.
Qed.

(** the file name [save_html] builds *)
Lemma save_html_file_name (output_dir url data : string) (st : state) :
  ∃ name,
    contains "/" name = false ∧ name ≠ "" ∧ (String.length name ≤ 200)%nat ∧
    fst (save_html output_dir url data st) = os_path_join output_dir name ∧
    os_path_join output_dir name =
      (if negb (nonempty output_dir) || endswith output_dir "/"
       then output_dir +:+ name else output_dir +:+ "/" +:+ name).
Proof.
  unfold save_html. lazy beta zeta iota delta [fst snd].
  set (base := netloc (urlparse url) +:+ replace_char "/" "_" (path (urlparse url))).
  set (safe := if negb (nonempty base) || endswith base "_"
               then base +:+ "index" else base).
  exists (take 200 (safe +:+ ".html")).
  assert (contains "/" base = false) as Hbase.
  { unfold base. rewrite contains_app.
    destruct (urlparse_spec url) as (_ & Hn & _).
    rewrite (all_chars_contains (λ c, negb (netloc_delim c)) "/" _ eq_refl Hn).
    by rewrite contains_replace_char. }
  assert (contains "/" safe = false) as Hsafe.
  { unfold safe. destruct (negb (nonempty base) || endswith base "_"); [|done].
    rewrite contains_app. by rewrite Hbase. }
  assert (contains "/" (take 200 (safe +:+ ".html")) = false) as Hname.
  { apply contains_take. rewrite contains_app. by rewrite Hsafe. }
  split_and!; try done.
  - apply take_app_nonempty. discriminate.
  - apply length_take.
  - unfold os_path_join, startswith. by rewrite (prefix_char_absent _ _ Hname).
Qed.

(** X11: [save_html] raises exactly when [urlparse] raises on the URL;
    otherwise it writes exactly one file, directly inside the output
    directory: the path it returns and opens is the output directory
    joined with a file name that holds no [/], is not empty and is at
    most 200 characters long, whatever the URL (of characters below
    [U+0100], as all strings here); nothing else of the state changes.
    The write itself is taken to succeed: an [OSError] of [open] ends
    the run before the file exists. *)
Theorem save_html_writes_inside_output_dir
    (output_dir url data : string) (st : state) :
  (Py.save_html output_dir url data st = None ↔ Py.urlparse url = None) ∧
  ∀ path st',
    Py.save_html output_dir url data st = Some (path, st') →
    ∃ name,
      contains "/" name = false ∧ name ≠ "" ∧ (String.length name ≤ 200)%nat ∧
      path = os_path_join output_dir name ∧
      (path = output_dir +:+ name ∨ path = output_dir +:+ "/" +:+ name) ∧
      trace st' = trace st ++ [WriteFile path data] ∧
      visited st' = visited st ∧ queue st' = queue st ∧
      processed st' = processed st.
Proof.
  rewrite py_save_html_eq, py_urlparse_eq. split.
  - by destruct (netloc_error _).
  - intros path st'. destruct (netloc_error _); [done|]. intros Hsome.
    assert (save_html output_dir url data st = (path, st')) as Hsaved by congruence.
    clear Hsome.
    assert (path = fst (save_html output_dir url data st) ∧
            st' = emit (WriteFile path data) st) as [Hp ->].
    { rewrite Hsaved. cbn [fst]. split; [done|].
      change (snd (path, st') = emit (WriteFile (fst (path, st')) data) st).
      by rewrite <- Hsaved. }
    destruct (save_html_file_name output_dir url data st)
      as (name & Hslash & Hne & Hlen & Hpath & Hjoin).
    rewrite <- Hp in Hpath.
    exists name. split_and!; try done.
    rewrite Hpath, Hjoin.
    destruct (negb (nonempty output_dir) || endswith output_dir "/");
      [by left | by right].
Qed.

Lemma save_html_writes_inside_output_dir_witness :
  ∃ name, (String.length name ≤ 200)%nat ∧
          "tor_output/example.com_a_b.html" = os_path_join "tor_output" name.
Proof.
  destruct (save_html_writes_inside_output_dir "tor_output"
              "https://example.com/a/b?x=1" "<html>" (mkState ∅ [] 0 []))
    as [_ Hsaved].
  destruct (Hsaved "tor_output/example.com_a_b.html"
              (mkState ∅ [] 0 [WriteFile "tor_output/example.com_a_b.html" "<html>"]))
    as (name & _ & _ & Hlen & Hpath & _).
  - vm_compute. reflexivity.
  - by exists name.
Defined.

(** ** The links a page yields *)

(** a URL written with a scheme in front parses with that scheme *)
Lemma urlparse_scheme_prefix s rest :
  good_scheme s = true → scheme (urlparse (s +:+ String ":" rest)) = s.
Proof.
  intros Hs. rewrite urlparse_stages, urlsplit_stages.
  assert (fst (fst (url_head (s +:+ String ":" rest))) = s) as Hhead.
  { unfold url_head.
    assert (lstrip c0_control_or_space (s +:+ String ":" rest)
            = s +:+ String ":" rest) as ->.
    { destruct (good_scheme_inv s Hs) as (c0 & pre & -> & Ha & _).
      rewrite str_app_cons. simpl. by rewrite (alpha_not_c0 c0 Ha). }
    rewrite remove_chars_app, (remove_chars_id _ s (good_scheme_clean s Hs)).
    rewrite (remove_chars_cons_keep _ ":" rest eq_refl).
    rewrite (split_scheme_built s _ Hs).
    by destruct (if String.eqb _ "//" then _ else _). }
  destruct (url_head _) as [[s' n] r]. cbn [fst] in Hhead. subst s'.
  destruct (split_tail r) as [[p q] f]. cbn [s_scheme s_path].
  by destruct (params_step s p).
Qed.

(** what [urlunparse] builds starts with the scheme and a colon *)
Lemma urlunparse_scheme_prefix s n p a q :
  s ≠ "" → ∃ rest, urlunparse s n p a q "" = s +:+ String ":" rest.
Proof.
  intros Hs. unfold urlunparse, urlunsplit.
  rewrite (proj2 (nonempty_true s) Hs). change (nonempty "") with false. cbv iota.
  set (url1 := if nonempty n || _ then _ else _).
  destruct (nonempty q).
  - exists (url1 +:+ "?" +:+ q). by rewrite !str_app_assoc.
  - by exists url1.
Qed.

(** [urldefrag] keeps the scheme of a URL that has one *)
Lemma urldefrag_keeps_scheme url :
  scheme (urlparse url) ≠ "" →
  scheme (urlparse (fst (urldefrag url))) = scheme (urlparse url).
Proof.
  intros Hne. unfold urldefrag. destruct (contains "#" url); [|done]. cbn [fst].
  destruct (urlparse_spec url) as ([He | Hgood] & _); [done|].
  destruct (urlunparse_scheme_prefix (scheme (urlparse url)) (netloc (urlparse url))
              (path (urlparse url)) (params (urlparse url)) (query (urlparse url)) Hne)
    as [rest ->].
  by apply urlparse_scheme_prefix.
Qed.

Section Links.
Variable W : world.

(** the set [extract_links] returns: the normalized targets of the
    anchors whose joined URL has the scheme [http] or [https] *)
Lemma extract_links_spec base_url html link :
  link ∈ extract_links W base_url html ↔
  ∃ a, a ∈ find_all_a_href W html ∧
       one_of (scheme (urlparse (urljoin W base_url (strip a)))) ["http"; "https"] = true ∧
       link = normalize_url (urljoin W base_url (strip a)).
Proof.
  unfold extract_links.
  set (P := λ a, one_of (scheme (urlparse (urljoin W base_url (strip a))))
                   ["http"; "https"] = true ∧
                 link = normalize_url (urljoin W base_url (strip a))).
  assert (∀ anchors (acc : gset string),
            link ∈ foldl (λ links a,
                     if one_of (scheme (urlparse (urljoin W base_url (strip a))))
                          ["http"; "https"]
                     then {[normalize_url (urljoin W base_url (strip a))]} ∪ links
                     else links) acc anchors
            ↔ link ∈ acc ∨ ∃ a, a ∈ anchors ∧ P a) as Hgen.
  { induction anchors as [|a anchors IH]; intros acc.
    - simpl. split; [by left|]. intros [H | (a & Ha & _)]; [done|].
      by apply elem_of_nil in Ha.
    - cbn [foldl]. rewrite IH. split.
      + intros [Hin | (b & Hb & HP)].
        * destruct (one_of _ _) eqn:Hone; [|by left].
          apply elem_of_union in Hin as [Hin | Hin]; [|by left].
          apply elem_of_singleton in Hin. right. exists a.
          split; [apply elem_of_cons; by left | done].
        * right. exists b. split; [apply elem_of_cons; by right | done].
      + intros [Hin | (b & Hb & HP)].
        * left. destruct (one_of _ _); [by apply elem_of_union_r | done].
        * apply elem_of_cons in Hb as [-> | Hb]; [|right; by exists b].
          left. destruct HP as [Hone ->]. rewrite Hone.
          by apply elem_of_union_l, elem_of_singleton. }
  etrans; [apply (Hgen (find_all_a_href W html) ∅)|]. split; [|by right].
  intros [H | H]; [by apply not_elem_of_empty in H | done].
Qed.

End Links.

(** X12: when [extract_links] returns, every link of the set it
    returns is an http(s) URL: it is written [http://...] or
    [https://...], it holds neither [?] nor [#], it is the normalized
    joined URL of an anchor of the page on which neither [urljoin] nor
    [normalize_url] raised, and it parses, when it parses, with the
    scheme of that joined URL, which is [http] or [https]; anchors with
    any other scheme (mailto, javascript, ftp, none) contribute
    nothing. *)
Theorem extracted_links_are_http_urls
    (W : world) (base_url html link : string) (links : gset string) :
  Py.extract_links W base_url html = Some links → link ∈ links →
  links = extract_links W base_url html ∧
  ((∃ rest, link = "http://" +:+ rest) ∨ (∃ rest, link = "https://" +:+ rest)) ∧
  contains "?" link = false ∧ contains "#" link = false ∧
  ∃ a full,
    a ∈ find_all_a_href W html ∧
    Py.urljoin W base_url (strip a) = Some full ∧
    one_of (scheme (urlparse full)) ["http"; "https"] = true ∧
    Py.normalize_url full = Some link ∧
    ∀ p, Py.urlparse link = Some p → scheme p = scheme (urlparse full).
Proof.
  intros Hret Hin.
  destruct (py_extract_links_some W base_url html links Hret) as [-> Hok].
  split; [done|].
  apply extract_links_spec in Hin as (a & Ha & Hone & ->).
  destruct (Hok a Ha) as (Hjoin & _ & Hnorm).
  set (full := urljoin W base_url (strip a)) in *.
  assert (scheme (urlparse full) ≠ "") as Hne.
  { intros He. rewrite He in Hone. discriminate Hone. }
  pose proof (urldefrag_keeps_scheme full Hne) as Hkeep.
  destruct (normal_form_no_query_fragment (fst (urldefrag full))) as [Hq Hf].
  destruct (reparse_normal_form (fst (urldefrag full))) as (Hs & _).
  rewrite Hkeep, (or_else_id _ "http" Hne) in Hs.
  rewrite <- normalize_url_eq in Hq, Hf, Hs.
  split_and!; try done.
  - rewrite normalize_url_eq. unfold normal_form.
    rewrite Hkeep, (or_else_id _ "http" Hne).
    simpl in Hone. rewrite orb_false_r in Hone.
    apply orb_true_iff in Hone as [->%String.eqb_eq | ->%String.eqb_eq];
      [left | right]; by eexists.
  - exists a, full. split_and!; try done; [by apply Hnorm|].
    by intros p [_ ->]%py_urlparse_some.
Qed.

Lemma extracted_links_are_http_urls_witness :
  contains "#" "http://example.com/a" = false ∧
  Py.normalize_url "HTTP://example.com/a#top" = Some "http://example.com/a".
Proof.
  destruct (extracted_links_are_http_urls two_page_world "http://example.com/"
              "HTTP://example.com/a#top mailto:someone" "http://example.com/a"
              {["http://example.com/a"]})
    as (_ & _ & _ & Hf & a & full & _ & Hjoin & _ & Hnorm & _).
  - vm_compute. reflexivity.
  - by apply elem_of_singleton.
  - split; [exact Hf|]. vm_compute. reflexivity.
Defined.

(** X13: normalizing a URL that has a scheme and a netloc keeps both,
    with or without a fragment or a query in the URL: the result is
    [scheme://netloc] followed by the path (or [/]), so the domain that
    the scope test compares and the robots.txt address computed from the
    normalized URL are those of the URL itself. *)
Theorem normalize_url_keeps_scheme_and_host (x : string) :
  scheme (urlparse x) ≠ "" → netloc (urlparse x) ≠ "" →
  normalize_url x =
    scheme (urlparse x) +:+ "://" +:+ netloc (urlparse x) +:+
    or_else (path (urlparse x)) "/" ∧
  get_domain (normalize_url x) = get_domain x ∧
  robots_url (normalize_url x) = robots_url x ∧
  path (urlparse (normalize_url x)) = or_else (path (urlparse x)) "/".
Proof.
  intros Hs Hn.
  assert (scheme (urlparse (fst (urldefrag x))) = scheme (urlparse x) ∧
          netloc (urlparse (fst (urldefrag x))) = netloc (urlparse x) ∧
          path (urlparse (fst (urldefrag x))) = path (urlparse x)) as (Hs' & Hn' & Hp').
  { unfold urldefrag. destruct (contains "#" x); [|done]. cbn [fst].
    by apply (reparse_unparsed x). }
  assert (netloc (urlparse (fst (urldefrag x))) ≠ "" ∨
          path (urlparse (fst (urldefrag x))) = "" ∨
          rooted (path (urlparse (fst (urldefrag x)))) = true) as Hyp.
  { left. by rewrite Hn'. }
  pose proof (reparse_rooted _ Hyp) as Hre. simpl in Hre.
  rewrite normalize_url_eq.
  unfold get_domain, robots_url. rewrite Hre. cbn [scheme netloc path].
  unfold normal_form. rewrite Hs', Hn', Hp', (or_else_id _ "http" Hs). done.
Qed.

Lemma normalize_url_keeps_scheme_and_host_witness :
  normalize_url "HTTPS://Example.com/a/b?x=1#top" = "https://Example.com/a/b" ∧
  get_domain (normalize_url "HTTPS://Example.com/a/b?x=1#top") = "example.com".
Proof.
  destruct (normalize_url_keeps_scheme_and_host "HTTPS://Example.com/a/b?x=1#top")
    as (H1 & H2 & _).
  - vm_compute. discriminate.
  - vm_compute. discriminate.
  - split.
    + transitivity
        (scheme (urlparse "HTTPS://Example.com/a/b?x=1#top") +:+ "://" +:+
         netloc (urlparse "HTTPS://Example.com/a/b?x=1#top") +:+
         or_else (path (urlparse "HTTPS://Example.com/a/b?x=1#top")) "/");
        [exact H1 | vm_compute; reflexivity].
    + transitivity (get_domain "HTTPS://Example.com/a/b?x=1#top");
        [exact H2 | vm_compute; reflexivity].
Defined.

(** ** The entry point and the Tor checks *)

Lemma check_tor_service_eq H tr :
  check_tor_service H tr =
    (match is_active_raises H (is_active_calls tr) with
     | Some exc => Raises exc
     | None => Returns (tor_active H (is_active_calls tr))
     end, tr ++ [RunIsActive]).
Proof.
  unfold check_tor_service, tor_active. cbv zeta.
  destruct (is_active_raises H _); [done|].
  by destruct (is_active_output H _).
Qed.

(** the seven ways [main] can go *)
Lemma main_cases H args :
  main H args =
    if cli_no_tor args then (CallCrawl (crawl_call args), [])
    else if negb (which_tor_ok H) then (SysExit (VInt 1), [RunWhichTor])
    else match is_active_raises H 0 with
    | Some exc => (Traceback exc, [RunWhichTor; RunIsActive])
    | None =>
      if tor_active H 0 then
        (CallCrawl (crawl_call args), [RunWhichTor; RunIsActive])
      else match is_active_raises H 1 with
      | Some exc =>
          (Traceback exc,
           [RunWhichTor; RunIsActive; RunStartTor; TorSleep 3; RunIsActive])
      | None =>
        if tor_active H 1 then
          (CallCrawl (crawl_call args),
           [RunWhichTor; RunIsActive; RunStartTor; TorSleep 3; RunIsActive])
        else
          (SysExit (VStr "[-] Failed to start Tor service. Please start it manually."),
           [RunWhichTor; RunIsActive; RunStartTor; TorSleep 3; RunIsActive])
      end
    end.
Proof.
  unfold main. destruct (cli_no_tor args); [done|]. cbn [negb].
  unfold check_tor_installed. cbn [app].
  destruct (which_tor_ok H); [|done]. cbn [negb].
  rewrite check_tor_service_eq.
  change (is_active_calls [RunWhichTor]) with 0%nat. cbn [app].
  destruct (is_active_raises H 0); [done|].
  destruct (tor_active H 0); [done|]. cbn [negb].
  unfold start_tor_service. cbn [app]. rewrite check_tor_service_eq.
  change (is_active_calls [RunWhichTor; RunIsActive; RunStartTor; TorSleep 3])
    with 1%nat. cbn [app].
  destruct (is_active_raises H 1); [done|].
  by destruct (tor_active H 1).
Qed.

(** X14: [main] reaches [crawl] through Tor only on a machine where
    [which tor] succeeded and the last [systemctl is-active tor] printed
    [active]; the arguments of the call are those of the command line,
    with [use_tor] and [respect_robots] the negations of [--no-tor] and
    [--no-robots]; with [--no-tor] no command is run at all. *)
Theorem main_crawls_through_tor_only_when_active
    (H : tor_host) (args : cli_args) (A : crawl_args) (tr : list tor_event) :
  main H args = (CallCrawl A, tr) →
  A = crawl_call args ∧
  use_tor A = negb (cli_no_tor args) ∧
  respect_robots A = negb (cli_no_robots args) ∧
  (use_tor A = false → tr = []) ∧
  (use_tor A = true →
     which_tor_ok H = true ∧ last tr = Some RunIsActive ∧
     ∃ out, is_active_output H (is_active_calls tr - 1) = Some out ∧
            strip out = "active").
Proof.
  rewrite main_cases. intros Hmain.
  assert (∀ k, tor_active H k = true →
               ∃ out, is_active_output H k = Some out ∧ strip out = "active") as Hact.
  { intros k. unfold tor_active. destruct (is_active_raises H k); [done|].
    destruct (is_active_output H k) as [out|]; [|done].
    intros He%String.eqb_eq. by exists out. }
  destruct (cli_no_tor args) eqn:Hno.
  { injection Hmain as <- <-. unfold crawl_call. cbn [use_tor respect_robots].
    rewrite Hno. split_and!; done. }
  destruct (which_tor_ok H) eqn:Hwhich; [|discriminate Hmain]. cbn [negb] in Hmain.
  destruct (is_active_raises H 0); [discriminate Hmain|].
  destruct (tor_active H 0) eqn:H0.
  { injection Hmain as <- <-. unfold crawl_call. cbn [use_tor respect_robots].
    rewrite Hno. split_and!; try done. intros _. split_and!; try done.
    by apply Hact. }
  destruct (is_active_raises H 1); [discriminate Hmain|].
  destruct (tor_active H 1) eqn:H1; [|discriminate Hmain].
  injection Hmain as <- <-. unfold crawl_call. cbn [use_tor respect_robots].
  rewrite Hno. split_and!; try done. intros _. split_and!; try done.
  by apply Hact.
Qed.

Lemma main_crawls_through_tor_only_when_active_witness :
  use_tor (crawl_call example_cli) = true ∧
  which_tor_ok stopped_tor_host = true.
Proof.
  destruct (main_crawls_through_tor_only_when_active stopped_tor_host example_cli
              (crawl_call example_cli)
              [RunWhichTor; RunIsActive; RunStartTor; TorSleep 3; RunIsActive])
    as (_ & Huse & _ & _ & Htor).
  - vm_compute. reflexivity.
  - split; [exact Huse|]. apply Htor. exact Huse.
Defined.



(** ** What a run writes, and where *)

Section Writes.
Context (W : world) (A : crawl_args).

Lemma save_html_path_inside url : loop_event A (WriteFile (save_html_path (output_dir A) url) "").
Proof.
  unfold save_html_path. simpl.
  destruct (save_html_file_name (output_dir A) url "" (mkState ∅ [] 0 []))
    as (name & Hslash & Hne & _ & Hpath & _).
  by exists name.
Qed.

Lemma robots_events_loop url e : e ∈ robots_events A url → loop_event A e.
Proof.
  unfold robots_events. destruct (respect_robots A); [|by intros ?%elem_of_nil].
  intros Hin. apply elem_of_cons in Hin as [-> | Hin]; [done|]. by inversion Hin.
Qed.

Lemma run_trace_writes n :
  ∃ body, trace (run W A n) = trace (crawl_init W A) ++ body ∧
          ∀ e, e ∈ body → loop_event A e.
Proof.
  apply (run_induction W A (λ st, ∃ body,
           trace st = trace (crawl_init W A) ++ body ∧ ∀ e, e ∈ body → loop_event A e)).
  - exists []. split; [by rewrite app_nil_r|]. by intros e ?%elem_of_nil.
  - intros st (body & Hbody & IH) Hc.
    destruct (step_explicit W A st Hc) as (url & level & rest & Hq & Hcase).
    destruct Hcase as [[_ ->] | [[Hb ->] | [(_ & r & -> & _) | (_ & resp & links & _ & -> & _)]]].
    + by exists body.
    + eexists. cbn [trace]. rewrite Hbody, <- app_assoc. split; [reflexivity|].
      intros e [Hin | Hin]%elem_of_app; [by apply IH|].
      repeat (apply elem_of_cons in Hin as [-> | Hin]; [done|]). by inversion Hin.
    + eexists. cbn [trace]. rewrite Hbody, <- app_assoc. split; [reflexivity|].
      intros e [Hin | Hin]%elem_of_app; [by apply IH|].
      apply elem_of_app in Hin as [Hin | Hin]; [by apply (robots_events_loop url)|].
      repeat (apply elem_of_cons in Hin as [-> | Hin]; [done|]). by inversion Hin.
    + eexists. cbn [trace]. rewrite Hbody, <- app_assoc. split; [reflexivity|].
      intros e [Hin | Hin]%elem_of_app; [by apply IH|].
      apply elem_of_app in Hin as [Hin | Hin]; [by apply (robots_events_loop url)|].
      apply elem_of_app in Hin as [Hin | Hin].
      { apply elem_of_cons in Hin as [-> | Hin]; [done|].
        apply elem_of_cons in Hin as [-> | Hin]; [|by inversion Hin].
        exact (save_html_path_inside url). }
      apply elem_of_app in Hin as [Hin | Hin].
      { by apply list_elem_of_fmap in Hin as (l & -> & _). }
      repeat (apply elem_of_cons in Hin as [-> | Hin]; [done|]). by inversion Hin.
Qed.

End Writes.

(** X16: a run sets up once and writes only inside its output
    directory: its trace starts with [os.makedirs(output_dir)], then the
    header of the log (only when the log file did not exist), the read
    of the robots file (only with [respect_robots]) and the opening of
    the progress bar; after that no set-up event occurs again, every
    CSV row goes to [output_dir/crawl_log.csv] and every saved page to
    [output_dir] joined with a non-empty file name without [/]. *)
Theorem run_writes_only_inside_output_dir (W : world) (A : crawl_args) (n : nat) :
  ∃ body,
    trace (run W A n) =
      [Makedirs (output_dir A)] ++
      (if log_exists W then [] else [WriteHeader (log_path A)]) ++
      (if respect_robots A
       then [ReadRobots (robots_url (normalize_url (arg_start_url A)))] else []) ++
      [PbarOpen (max_pages A)] ++ body ∧
    log_path A = os_path_join (output_dir A) "crawl_log.csv" ∧
    ∀ e, e ∈ body →
      match e with
      | Makedirs _ | WriteHeader _ | ReadRobots _ | PbarOpen _ | PbarClose => False
      | CsvRow p _ => p = log_path A
      | WriteFile p _ =>
          ∃ name, contains "/" name = false ∧ name ≠ "" ∧
                  p = os_path_join (output_dir A) name
      | _ => True
      end.
Proof.
  destruct (run_trace_writes W A n) as (body & Htr & Hbody).
  exists body. split; [|split; [reflexivity | exact Hbody]].
  rewrite Htr. unfold crawl_init. cbn [trace].
  by rewrite <- !app_assoc.
Qed.
